(** * Trajectory sampler and quadrotor episode state machine

    A shallow embedding of the domain logic of the simulator scripts:

    - [Sampler]: the replay loop of [process_group] in
      [apps/data_apps/01_path_tracking_sdg.py];
    - [SdgScript]: the rest of that script, the merge of the configuration,
      the cameras, the writer set-up, [process_group] as a whole and [main];
    - [QuadEnv]: [_get_rewards], [_get_dones] and [_reset_idx] of
      [QuadcopterWithYawEnv] in
      [apps/rl_apps/quad_controller/train/quad_env.py];
    - [QuadSetup] and [QuadDebugVis]: its construction, action application
      and debug markers.

    Python integers are [Z].  Python and torch floating-point numbers are
    idealised as real numbers ([R]): rounding, infinities and NaN are not
    represented.  A batched torch tensor of shape (N) is a [list] of length N,
    one of shape (N, 3) a list of [Vec3], one of shape (N, 4) a list of
    [Quat]. *)

From Stdlib Require Import String Ascii DecimalString.
From Stdlib Require DecimalPos DecimalZ.
From Stdlib Require Import Reals Machin Lra Lia ZArith List Bool Sorting.Sorted.
Import ListNotations.

Open Scope R_scope.

(** ** Shared data *)

Record Vec3 : Type := mkVec3 { vx : R; vy : R; vz : R }.

(** Scalar-first quaternion (w, x, y, z). *)
Record Quat : Type := mkQuat { qw : R; qx : R; qy : R; qz : R }.

Definition vec3_zero : Vec3 := mkVec3 0 0 0.
Definition quat_zero : Quat := mkQuat 0 0 0 0.

(** The exceptions the modelled code can raise. *)
Inductive PyError : Type :=
| ZeroDivisionError
| IndexError
| KeyError
| RuntimeError
| TypeError.

(** [a % b] on Python integers: the sign follows the divisor, as for
    [Z.modulo]; a zero divisor raises. *)
Definition py_mod (a b : Z) : PyError + Z :=
  if (b =? 0)%Z then inl ZeroDivisionError else inr (a mod b)%Z.

(** [l[i]] on a sequence: negative indices count from the end, anything out of
    range raises [IndexError]. *)
Definition py_getitem {A : Type} (l : list A) (i : Z) : PyError + A :=
  let n := Z.of_nat (length l) in
  let j := if (i <? 0)%Z then (n + i)%Z else i in
  if ((0 <=? j)%Z && (j <? n)%Z)%bool then
    match nth_error l (Z.to_nat j) with
    | Some x => inr x
    | None => inl IndexError
    end
  else inl IndexError.

(** [range(n)]. *)
Definition py_range (n : nat) : list Z := map Z.of_nat (seq 0 n).

(** [v * 180 / math.pi], componentwise on a numpy 3-vector. *)
Definition rad2deg (x : R) : R := x * 180 / PI.

Definition vec3_rad2deg (v : Vec3) : Vec3 :=
  mkVec3 (rad2deg (vx v)) (rad2deg (vy v)) (rad2deg (vz v)).

(** ** The trajectory sampler *)

Module Sampler.

(** One recorded sample of a trajectory. *)
Record Sample : Type := mkSample {
  timestamp : R;
  position : Vec3;
  orientation : Quat;
  velocity : Vec3;
  omega : Vec3   (* angular velocity, radians per second *)
}.

Definition Trajectory : Type := list Sample.

(** Modelled from the spec: the class [TrajectoryDatabase] and its
    trajectories ([data_apps.synthetic_data.path_tracking_sdg_utils]) are
    imported by the script but are not among the sources.  The store owns
    zero or more groups, each a trajectory indexed by sequential position or
    by timestamp lookup. *)
Definition TrajectoryDatabase : Type := list Trajectory.

(** Modelled from the spec: [db.getTrajectory(group_num)]; a group index
    beyond the store bounds fails. *)
Definition getTrajectory (db : TrajectoryDatabase) (group_num : Z)
  : PyError + Trajectory :=
  if ((0 <=? group_num)%Z && (group_num <? Z.of_nat (length db))%Z)%bool then
    match nth_error db (Z.to_nat group_num) with
    | Some t => inr t
    | None => inl IndexError
    end
  else inl IndexError.

(** Modelled from the spec: [trajectory.getTimestamp()], the array of the
    timestamps in sequential order. *)
Definition getTimestamp (t : Trajectory) : list R := map timestamp t.

(** Modelled from the spec: lookup of a sample by its timestamp, the first
    sample that carries it. *)
Definition lookup_by_timestamp (t : Trajectory) (ts : R) : option Sample :=
  find (fun s => if Req_dec_T (timestamp s) ts then true else false) t.

Definition by_timestamp {A : Type} (field : Sample -> A)
    (t : Trajectory) (ts : R) : PyError + A :=
  match lookup_by_timestamp t ts with
  | Some s => inr (field s)
  | None => inl KeyError
  end.

(** Modelled from the spec: the per-sample accessors by timestamp. *)
Definition getPosbyTimestamp := by_timestamp position.
Definition getQuaternionbyTimestamp := by_timestamp orientation.
Definition getVelbyTimestamp := by_timestamp velocity.
Definition getOmgbyTimestamp := by_timestamp omega.

(** The part of the configuration dictionary that [process_group] reads;
    [None] is a missing key. *)
Record Config : Type := mkConfig {
  sample_interval : option Z
}.

(** [config.get("sample_interval", 100)]. *)
Definition get_sample_interval (config : Config) : Z :=
  match sample_interval config with
  | Some i => i
  | None => 100%Z
  end.

(** What one visited sample hands to the host engine: the arguments of
    [rep.modify.pose], of [rep.physics.rigid_body] and of
    [rep.orchestrator.step], in this order.  [sample_counter] and
    [visit_timestamp] record the loop variable and the timestamp read at the
    visit (the latter is also printed). *)
Record Visit : Type := mkVisit {
  sample_counter : Z;
  visit_timestamp : R;
  pose_position : Vec3;
  pose_rotation : Vec3;
  body_velocity : Vec3;
  body_angular_velocity : Vec3;
  delta_time : R;
  step_rt_subframes : Z
}.

Section Replay.

(** [quat_to_euler_angles] of the host engine's rotation utilities. *)
Variable quat_to_euler_angles : Quat -> Vec3.

(** The body of the loop for a sample that is not skipped. *)
Definition visit_sample (trajectory : Trajectory) (rt_subframes : Z)
    (sample_counter : Z) : PyError + Visit :=
  match py_getitem (getTimestamp trajectory) sample_counter with
  | inl e => inl e
  | inr timestamp =>
    match getPosbyTimestamp trajectory timestamp with
    | inl e => inl e
    | inr position =>
      match getQuaternionbyTimestamp trajectory timestamp with
      | inl e => inl e
      | inr orientation =>
        match getVelbyTimestamp trajectory timestamp with
        | inl e => inl e
        | inr velocity =>
          match getOmgbyTimestamp trajectory timestamp with
          | inl e => inl e
          | inr omg =>
            let omega := vec3_rad2deg omg in
            let next :=
              if (sample_counter + 1 <? Z.of_nat (length trajectory))%Z
              then py_getitem (getTimestamp trajectory) (sample_counter + 1)
              else inr timestamp in
            match next with
            | inl e => inl e
            | inr next_timestamp =>
              let dt := next_timestamp - timestamp in
              inr (mkVisit sample_counter timestamp position
                     (vec3_rad2deg (quat_to_euler_angles orientation))
                     velocity omega dt rt_subframes)
            end
          end
        end
      end
    end
  end.

(** The loop [for sample_counter in range(len(trajectory))]: the visits made,
    in order, and the exception that ended the loop, if any. *)
Fixpoint replay (trajectory : Trajectory) (interval rt_subframes : Z)
    (counters : list Z) : list Visit * option PyError :=
  match counters with
  | [] => ([], None)
  | sample_counter :: rest =>
    match py_mod sample_counter interval with
    | inl e => ([], Some e)
    | inr r =>
      if negb (r =? 0)%Z then replay trajectory interval rt_subframes rest
      else
        match visit_sample trajectory rt_subframes sample_counter with
        | inl e => ([], Some e)
        | inr v =>
          let (vs, e) := replay trajectory interval rt_subframes rest in
          (v :: vs, e)
        end
    end
  end.

(** [process_group] from the loading of the trajectory on: the trajectory of
    the group is loaded, the interval is read from the configuration and the
    samples are replayed.  The writer set-up that precedes these lines, which
    can raise on its own, is [SdgScript.writer_kwargs]; the two are put
    together in [SdgScript.process_group]. *)
Definition process_group (group_num : Z) (db : TrajectoryDatabase)
    (config : Config) (rt_subframes : Z) : list Visit * option PyError :=
  match getTrajectory db group_num with
  | inl e => ([], Some e)
  | inr trajectory =>
    let interval := get_sample_interval config in
    replay trajectory interval rt_subframes
      (py_range (length trajectory))
  end.

End Replay.

(** [ceil(len / interval)] for a positive interval. *)
Definition ceil_div (len interval : Z) : Z := ((len + interval - 1) / interval)%Z.

(** The data-model invariant of a trajectory: timestamps strictly increase. *)
Definition strictly_increasing (ts : list R) : Prop := StronglySorted Rlt ts.

(** The timestamp the loop reads next: that of the following sample of the
    full trajectory, or the current one at the final sample. *)
Definition next_timestamp (ts : list R) (n : nat) : R :=
  if (S n <? length ts)%nat then nth (S n) ts 0 else nth n ts 0.

(** Whether the loop visits the counter [c]: the test [c % interval != 0]
    fails. *)
Definition divides_counter (interval c : Z) : bool := (c mod interval =? 0)%Z.

(** A store of one group with samples at rest at the given timestamps, for
    concrete runs. *)
Definition sample_at (ts : R) : Sample :=
  mkSample ts vec3_zero (mkQuat 1 0 0 0) vec3_zero (mkVec3 0 0 1).

Definition store_of (timestamps : list R) : TrajectoryDatabase :=
  [map sample_at timestamps].

(** A stand-in for the host engine's Euler-angle conversion in concrete
    runs. *)
Definition no_rotation (_ : Quat) : Vec3 := vec3_zero.

End Sampler.

(** ** The quadrotor episode state machine *)

Module QuadEnv.

(** *** Tensor operations *)

(** Elementwise binary operation on two tensors of the same shape. *)
Definition map2 {A B C : Type} (f : A -> B -> C) (l1 : list A) (l2 : list B)
  : list C :=
  map (fun p => f (fst p) (snd p)) (combine l1 l2).

(** [t[i] = upd(t[i])] for one row. *)
Fixpoint modify_at {A : Type} (i : nat) (f : A -> A) (t : list A) : list A :=
  match t, i with
  | [], _ => []
  | a :: t', O => f a :: t'
  | a :: t', S i' => a :: modify_at i' f t'
  end.

(** Indexed assignment [t[env_ids, cols] = vals]: row [env_ids[j]] is updated
    from [vals[j]], in the order of [env_ids]. *)
Fixpoint index_put {A B : Type} (upd : A -> B -> A) (t : list A)
    (env_ids : list nat) (vals : list B) : list A :=
  match env_ids, vals with
  | i :: env_ids', v :: vals' =>
    index_put upd (modify_at i (fun a => upd a v) t) env_ids' vals'
  | _, _ => t
  end.

(** Indexed read [t[env_ids]]. *)
Definition gather {A : Type} (d : A) (t : list A) (env_ids : list nat)
  : list A :=
  map (fun i => nth i t d) env_ids.

(** [t[env_ids] = c] with a broadcast scalar or row. *)
Definition index_fill {A : Type} (t : list A) (env_ids : list nat) (c : A)
  : list A :=
  index_put (fun _ v => v) t env_ids (map (fun _ => c) env_ids).

Definition sum_list (l : list R) : R := fold_right Rplus 0 l.

(** [torch.mean].  On an empty tensor torch gives nan; over the reals the
    quotient by zero is 0, so properties of a mean are stated for non-empty
    tensors. *)
Definition mean (l : list R) : R := sum_list l / INR (length l).

(** [torch.sum(torch.stack(rows), dim=0)] for rows of [n] entries. *)
Definition sum_dim0 (n : nat) (rows : list (list R)) : list R :=
  map (fun i => sum_list (map (fun row => nth i row 0) rows)) (seq 0 n).

(** [torch.count_nonzero] on a boolean tensor. *)
Definition count_nonzero (l : list bool) : nat :=
  length (filter (fun b => b) l).

Definition Rltb (x y : R) : bool := if Rlt_dec x y then true else false.
Definition Rgtb (x y : R) : bool := if Rgt_dec x y then true else false.

(** [torch.clamp(x, lo, hi)]. *)
Definition clamp (x lo hi : R) : R := Rmin (Rmax x lo) hi.

(** *** Vectors and quaternions *)

Definition vec3_sub (a b : Vec3) : Vec3 :=
  mkVec3 (vx a - vx b) (vy a - vy b) (vz a - vz b).

(** [torch.sum(torch.square(v), dim=1)] on one row. *)
Definition sum_square3 (v : Vec3) : R :=
  vx v * vx v + vy v * vy v + vz v * vz v.

(** [torch.linalg.norm(v, dim=1)] on one row of three, resp. four, entries. *)
Definition norm3 (v : Vec3) : R := sqrt (sum_square3 v).

Definition sum_square4 (q : Quat) : R :=
  qw q * qw q + qx q * qx q + qy q * qy q + qz q * qz q.

Definition norm4 (q : Quat) : R := sqrt (sum_square4 q).

(** [current_quat_conj]: the vector part negated. *)
Definition quat_conj (q : Quat) : Quat :=
  mkQuat (qw q) (- qx q) (- qy q) (- qz q).

(** The four stacked rows of [quat_diff], for [desired_quat] and
    [current_quat_conj]. *)
Definition quat_diff_raw (d c : Quat) : Quat :=
  mkQuat
    (qw d * qw c - qx d * qx c - qy d * qy c - qz d * qz c)
    (qw d * qx c + qx d * qw c + qy d * qz c - qz d * qy c)
    (qw d * qy c - qx d * qz c + qy d * qw c + qz d * qx c)
    (qw d * qz c + qx d * qy c - qy d * qx c + qz d * qw c).

Definition quat_scale_inv (q : Quat) (n : R) : Quat :=
  mkQuat (qw q / n) (qx q / n) (qy q / n) (qz q / n).

(** [quat_diff / torch.linalg.norm(quat_diff, dim=1, keepdim=True)]. *)
Definition quat_diff (desired_quat current_quat : Quat) : Quat :=
  let current_quat_conj := quat_conj current_quat in
  let quat_diff := quat_diff_raw desired_quat current_quat_conj in
  quat_scale_inv quat_diff (norm4 quat_diff).

(** The angular difference of one environment, as computed in both
    [_get_rewards] and [_reset_idx].  For a quaternion of norm zero the
    normalisation gives nan in torch; over the reals the quotient by zero is
    0, so properties of the value are stated for quaternions of non-zero
    norm. *)
Definition angular_diff (desired_quat current_quat : Quat) : R :=
  let quat_diff := quat_diff desired_quat current_quat in
  let angular_diff := 2 * acos (clamp (qw quat_diff) (-1) 1) in
  Rmin angular_diff (2 * PI - angular_diff).

(** *** Configuration and state *)

(** The reward scales of [QuadcopterEnvCfg]. *)
Record QuadcopterEnvCfg : Type := mkCfg {
  lin_vel_reward_scale : R;
  ang_vel_reward_scale : R;
  distance_to_goal_reward_scale : R;
  radial_to_goal_yaw_reward_scale : R
}.

(** The values the class declares. *)
Definition default_cfg : QuadcopterEnvCfg := mkCfg (-0.01) (-0.002) 30 5.

(** The keys of the dictionaries [_episode_sums] and [rewards]; both are
    created with exactly these keys, in this order. *)
Module Key.

Inductive t : Type :=
| lin_vel
| ang_vel
| distance_to_goal_pose
| radial_to_goal_yaw.

Definition eqb (a b : t) : bool :=
  match a, b with
  | lin_vel, lin_vel | ang_vel, ang_vel
  | distance_to_goal_pose, distance_to_goal_pose
  | radial_to_goal_yaw, radial_to_goal_yaw => true
  | _, _ => false
  end.

Definition name (key : t) : string :=
  match key with
  | lin_vel => "lin_vel"
  | ang_vel => "ang_vel"
  | distance_to_goal_pose => "distance_to_goal_pose"
  | radial_to_goal_yaw => "radial_to_goal_yaw"
  end.

End Key.

Definition RewardKey : Type := Key.t.

Definition reward_keys : list RewardKey :=
  [Key.lin_vel; Key.ang_vel; Key.distance_to_goal_pose;
   Key.radial_to_goal_yaw].

(** A dictionary over the four keys, and [d[key] = v]. *)
Definition RewardDict : Type := RewardKey -> list R.

Definition dict_set (d : RewardDict) (key : RewardKey) (v : list R)
  : RewardDict :=
  fun k => if Key.eqb k key then v else d k.

(** One row of the action buffer. *)
Record Action : Type := mkAction { a0 : R; a1 : R; a2 : R; a3 : R }.

Definition action_zero : Action := mkAction 0 0 0 0.

(** [self._robot.data], the buffers of the articulation that the environment
    reads. *)
Record RobotData : Type := mkRobotData {
  root_lin_vel_b : list Vec3;
  root_ang_vel_b : list Vec3;
  root_pos_w : list Vec3;
  root_quat_w : list Quat
}.

(** The environment.  [num_envs], [step_dt], [max_episode_length],
    [max_episode_length_s], [episode_length_buf], [reset_terminated],
    [reset_time_outs] and [extras] belong to the base class [DirectRLEnv];
    [env_origins] is [self._terrain.env_origins]. *)
Record QuadcopterWithYawEnv : Type := mkEnv {
  cfg : QuadcopterEnvCfg;
  num_envs : nat;
  step_dt : R;
  max_episode_length : Z;
  max_episode_length_s : R;
  episode_length_buf : list Z;
  reset_terminated : list bool;
  reset_time_outs : list bool;
  robot_data : RobotData;
  env_origins : list Vec3;
  _actions : list Action;
  _desired_pos_w : list Vec3;
  _desired_yaw_w : list R;
  _desired_yaw_quat : list Quat;
  _episode_sums : RewardDict;
  extras_log : list (string * R)
}.

(** Every batched buffer has one row per environment. *)
Record well_formed (env : QuadcopterWithYawEnv) : Prop := mkWf {
  wf_episode_length_buf : length (episode_length_buf env) = num_envs env;
  wf_reset_terminated : length (reset_terminated env) = num_envs env;
  wf_reset_time_outs : length (reset_time_outs env) = num_envs env;
  wf_root_lin_vel_b : length (root_lin_vel_b (robot_data env)) = num_envs env;
  wf_root_ang_vel_b : length (root_ang_vel_b (robot_data env)) = num_envs env;
  wf_root_pos_w : length (root_pos_w (robot_data env)) = num_envs env;
  wf_root_quat_w : length (root_quat_w (robot_data env)) = num_envs env;
  wf_env_origins : length (env_origins env) = num_envs env;
  wf_actions : length (_actions env) = num_envs env;
  wf_desired_pos_w : length (_desired_pos_w env) = num_envs env;
  wf_desired_yaw_w : length (_desired_yaw_w env) = num_envs env;
  wf_desired_yaw_quat : length (_desired_yaw_quat env) = num_envs env;
  wf_episode_sums :
    forall key, length (_episode_sums env key) = num_envs env
}.

(** *** Rewards *)

(** [_get_rewards]: the reward of every environment, and the environment with
    the running sums updated. *)
Definition _get_rewards (env : QuadcopterWithYawEnv)
  : list R * QuadcopterWithYawEnv :=
  let data := robot_data env in
  let lin_vel := map sum_square3 (root_lin_vel_b data) in
  let ang_vel := map sum_square3 (root_ang_vel_b data) in
  let distance_to_goal_pose :=
    map norm3 (map2 vec3_sub (_desired_pos_w env) (root_pos_w data)) in
  let distance_to_goal_pose_mapped :=
    map (fun d => 1 - tanh (d / 0.8)) distance_to_goal_pose in
  let desired_quat := _desired_yaw_quat env in
  let current_quat := root_quat_w data in
  let radial_to_goal_yaw := map2 angular_diff desired_quat current_quat in
  let rewards : RewardDict := fun key =>
    match key with
    | Key.lin_vel =>
      map (fun x => x * lin_vel_reward_scale (cfg env) * step_dt env) lin_vel
    | Key.ang_vel =>
      map (fun x => x * ang_vel_reward_scale (cfg env) * step_dt env) ang_vel
    | Key.distance_to_goal_pose =>
      map (fun x => x * distance_to_goal_reward_scale (cfg env) * step_dt env)
        distance_to_goal_pose_mapped
    | Key.radial_to_goal_yaw =>
      map (fun a => (1 - a / PI) * radial_to_goal_yaw_reward_scale (cfg env)
                    * step_dt env)
        radial_to_goal_yaw
    end in
  let reward := sum_dim0 (num_envs env) (map rewards reward_keys) in
  let sums :=
    fold_left
      (fun sums key => dict_set sums key (map2 Rplus (sums key) (rewards key)))
      reward_keys (_episode_sums env) in
  (reward,
   mkEnv (cfg env) (num_envs env) (step_dt env) (max_episode_length env)
     (max_episode_length_s env) (episode_length_buf env)
     (reset_terminated env) (reset_time_outs env) (robot_data env)
     (env_origins env) (_actions env) (_desired_pos_w env)
     (_desired_yaw_w env) (_desired_yaw_quat env) sums (extras_log env)).

(** *** Termination *)

(** [_get_dones]: the pair [(died, time_out)]. *)
Definition _get_dones (env : QuadcopterWithYawEnv) : list bool * list bool :=
  let time_out :=
    map (fun l => (l >=? max_episode_length env - 1)%Z)
      (episode_length_buf env) in
  let died :=
    map (fun p => orb (Rltb (vz p) 0.1) (Rgtb (vz p) 2.0))
      (root_pos_w (robot_data env)) in
  (died, time_out).

(** *** Reset *)

(** The random draws of one reset.  [rand_x j], [rand_y j], [rand_z j] and
    [rand_yaw j] are the unit draws, in [0, 1), behind the [j]-th row of the
    tensors filled by [uniform_]; [rand_episode_length j] is the [j]-th entry
    of [torch.randint_like]. *)
Record Randomness : Type := mkRandomness {
  rand_x : nat -> R;
  rand_y : nat -> R;
  rand_z : nat -> R;
  rand_yaw : nat -> R;
  rand_episode_length : nat -> Z
}.

(** [torch.Tensor.uniform_(from, to)] for the unit draw [u]. *)
Definition uniform_ (from to u : R) : R := u * (to - from) + from.


(** [t[env_ids, :2] = vals]. *)
Definition put_xy (p : Vec3) (xy : R * R) : Vec3 :=
  mkVec3 (fst xy) (snd xy) (vz p).

(** [t[env_ids, 2] = vals]. *)
Definition put_z (p : Vec3) (z : R) : Vec3 := mkVec3 (vx p) (vy p) z.

(** [q[env_ids, 0] = vals] and [q[env_ids, 3] = vals]. *)
Definition put_qw (q : Quat) (w : R) : Quat := mkQuat w (qx q) (qy q) (qz q).
Definition put_qz (q : Quat) (z : R) : Quat := mkQuat (qw q) (qx q) (qy q) z.

Definition put_row {A : Type} (_ : A) (v : A) : A := v.

(** The logging loop over the keys of [_episode_sums]: the averages are read,
    then the sums of the environments being reset are zeroed. *)
Definition flush_episode_sums (max_episode_length_s : R)
    (env_ids : list nat) (sums : RewardDict)
  : list (string * R) * RewardDict :=
  fold_left
    (fun (acc : list (string * R) * RewardDict) key =>
       let extras := fst acc in
       let sums := snd acc in
       let episodic_sum_avg := mean (gather 0 (sums key) env_ids) in
       (extras ++
          [(("Episode_Reward/" ++ Key.name key)%string,
            episodic_sum_avg / max_episode_length_s)],
        dict_set sums key (index_fill (sums key) env_ids 0)))
    reward_keys ([], sums).

(** [env_ids is None or len(env_ids) == self.num_envs] selects
    [self._robot._ALL_INDICES]. *)
Definition resolve_env_ids (env : QuadcopterWithYawEnv)
    (env_ids : option (list nat)) : list nat :=
  match env_ids with
  | None => seq 0 (num_envs env)
  | Some ids =>
    if (length ids =? num_envs env)%nat then seq 0 (num_envs env) else ids
  end.

(** [_reset_idx].  [None] is the Python [None].  An index outside the batch
    raises at the first indexed read.  [DirectRLEnv._reset_idx] of the base
    class zeroes [episode_length_buf] at [env_ids]; the robot reset and the
    write-back of the default root and joint state go to the simulator and
    leave the fields of the environment as they are.  On a reset of the whole
    batch [torch.randint_like(..., high=int(self.max_episode_length))] raises
    when the bound is not positive.  The result of a call that raises is the
    exception alone: what the object holds afterwards is not represented. *)
Definition _reset_idx (env : QuadcopterWithYawEnv)
    (env_ids : option (list nat)) (rnd : Randomness)
  : PyError + QuadcopterWithYawEnv :=
  let env_ids := resolve_env_ids env env_ids in
  if negb (forallb (fun i => (i <? num_envs env)%nat) env_ids)
  then inl IndexError
  else if ((length env_ids =? num_envs env)%nat
           && (max_episode_length env <=? 0)%Z)%bool
  then inl RuntimeError
  else
    let data := robot_data env in
    (* Logging *)
    let final_distance_to_goal :=
      mean (map norm3
              (map2 vec3_sub (gather vec3_zero (_desired_pos_w env) env_ids)
                 (gather vec3_zero (root_pos_w data) env_ids))) in
    let final_yaw_diff :=
      map2 angular_diff (_desired_yaw_quat env) (root_quat_w data) in
    let flushed :=
      flush_episode_sums (max_episode_length_s env) env_ids
        (_episode_sums env) in
    let log :=
      fst flushed ++
      [("Episode_Termination/died"%string,
        INR (count_nonzero (gather false (reset_terminated env) env_ids)));
       ("Episode_Termination/time_out"%string,
        INR (count_nonzero (gather false (reset_time_outs env) env_ids)));
       ("Metrics/final_distance_to_goal"%string, final_distance_to_goal);
       ("Metrics/final_yaw_diff"%string, mean final_yaw_diff)] in
    (* super()._reset_idx(env_ids) *)
    let episode_length_buf :=
      index_fill (episode_length_buf env) env_ids 0%Z in
    let episode_length_buf :=
      if (length env_ids =? num_envs env)%nat
      then map (rand_episode_length rnd) (seq 0 (length episode_length_buf))
      else episode_length_buf in
    let actions := index_fill (_actions env) env_ids action_zero in
    (* Sample new commands *)
    let rows := seq 0 (length env_ids) in
    let desired_pos_w :=
      index_put put_xy (_desired_pos_w env) env_ids
        (map (fun j => (uniform_ (-3.0) 3.0 (rand_x rnd j),
                        uniform_ (-3.0) 3.0 (rand_y rnd j))) rows) in
    let desired_pos_w :=
      index_put put_xy desired_pos_w env_ids
        (map2 (fun p o => (vx p + vx o, vy p + vy o))
           (gather vec3_zero desired_pos_w env_ids)
           (gather vec3_zero (env_origins env) env_ids)) in
    let desired_pos_w :=
      index_put put_z desired_pos_w env_ids
        (map (fun j => uniform_ 0.5 3.0 (rand_z rnd j)) rows) in
    let desired_yaw_w :=
      index_put put_row (_desired_yaw_w env) env_ids
        (map (fun j => uniform_ 0 6.28 (rand_yaw rnd j)) rows) in
    let desired_yaw_quat :=
      index_put put_qw (_desired_yaw_quat env) env_ids
        (map (fun y => cos (y / 2)) (gather 0 desired_yaw_w env_ids)) in
    let desired_yaw_quat :=
      index_put put_qz desired_yaw_quat env_ids
        (map (fun y => sin (y / 2)) (gather 0 desired_yaw_w env_ids)) in
    inr (mkEnv (cfg env) (num_envs env) (step_dt env) (max_episode_length env)
           (max_episode_length_s env) episode_length_buf
           (reset_terminated env) (reset_time_outs env) (robot_data env)
           (env_origins env) actions desired_pos_w desired_yaw_w
           desired_yaw_quat (snd flushed) log).

(** The environments a call of [_reset_idx] resets. *)
Definition resets (env : QuadcopterWithYawEnv) (env_ids : option (list nat))
    (i : nat) : Prop :=
  match env_ids with
  | None => (i < num_envs env)%nat
  | Some ids => In i ids
  end.

(** A set of environments of the batch, as an index tensor: distinct indices
    below [num_envs]. *)
Definition valid_env_ids (env : QuadcopterWithYawEnv) (ids : list nat)
  : Prop :=
  NoDup ids /\ Forall (fun i => (i < num_envs env)%nat) ids.

(** The quaternion of the opposite sign, the same rotation. *)
Definition quat_neg (q : Quat) : Quat :=
  mkQuat (- qw q) (- qx q) (- qy q) (- qz q).

(** A batch of two environments for concrete runs: the first robot hovers at
    one metre at step 0, the second is 5 cm above the ground at step 499 of
    500. *)
Definition two_envs : QuadcopterWithYawEnv :=
  mkEnv default_cfg 2 0.02 500 10 [0; 499]%Z [false; false] [false; false]
    (mkRobotData [vec3_zero; vec3_zero] [vec3_zero; vec3_zero]
       [mkVec3 0 0 1.0; mkVec3 5 0 0.05]
       [mkQuat 1 0 0 0; mkQuat 1 0 0 0])
    [vec3_zero; mkVec3 5 0 0]
    [action_zero; action_zero]
    [vec3_zero; mkVec3 5 0 0] [0; 0]
    [mkQuat 1 0 0 0; mkQuat 1 0 0 0]
    (fun _ => [0; 0]) [].

(** [two_envs] with a maximum episode length of zero steps. *)
Definition zero_length_envs : QuadcopterWithYawEnv :=
  mkEnv (cfg two_envs) (num_envs two_envs) (step_dt two_envs) 0 0
    (episode_length_buf two_envs) (reset_terminated two_envs)
    (reset_time_outs two_envs) (robot_data two_envs) (env_origins two_envs)
    (_actions two_envs) (_desired_pos_w two_envs) (_desired_yaw_w two_envs)
    (_desired_yaw_quat two_envs) (_episode_sums two_envs)
    (extras_log two_envs).

(** The draws that are all one half, resp. step 0. *)
Definition half_draws : Randomness :=
  mkRandomness (fun _ => 1 / 2) (fun _ => 1 / 2) (fun _ => 1 / 2)
    (fun _ => 1 / 2) (fun _ => 0%Z).

End QuadEnv.

(** ** The rest of the data-generation script *)

Module SdgScript.

(** *** Configuration values *)

(** The values of a JSON or YAML configuration; [VNone] is [null]. *)
#[local] Unset Elimination Schemes.
Inductive Value : Type :=
| VNone
| VBool (b : bool)
| VInt (z : Z)
| VFloat (r : R)
| VStr (s : string)
| VList (l : list Value)
| VDict (d : list (string * Value)).
#[local] Set Elimination Schemes.

(** A Python dictionary with string keys, in insertion order. *)
Definition Dict : Type := list (string * Value).

(** [d.get(key)]: [None] when the key is missing. *)
Fixpoint dict_get (d : Dict) (key : string) : option Value :=
  match d with
  | [] => None
  | (k, v) :: d' => if String.eqb k key then Some v else dict_get d' key
  end.

(** [key in d]. *)
Definition dict_contains (d : Dict) (key : string) : bool :=
  match dict_get d key with
  | Some _ => true
  | None => false
  end.

(** [d[key] = v]: an existing key keeps its place, a new one goes last. *)
Fixpoint dict_setitem (d : Dict) (key : string) (v : Value) : Dict :=
  match d with
  | [] => [(key, v)]
  | (k, x) :: d' =>
    if String.eqb k key then (k, v) :: d'
    else (k, x) :: dict_setitem d' key v
  end.

(** [d.update(other)]. *)
Definition dict_update (d other : Dict) : Dict :=
  fold_left (fun acc kv => dict_setitem acc (fst kv) (snd kv)) other d.

Definition keys (d : Dict) : list string := map fst d.

(** The exceptions of the script outside the replay loop. *)
Inductive ScriptError : Type :=
| ScriptKeyError (key : string)
| ScriptTypeError
| ScriptAttributeError.

(** *** The default configuration *)

Definition vfloats (l : list R) : Value := VList (map VFloat l).
Definition vints (l : list Z) : Value := VList (map VInt l).

Definition fisheye_camera (name : string) (position quaternion : list R)
  : Value :=
  VDict [("name", VStr name);
         ("position", vfloats position);
         ("quaternion", vfloats quaternion);
         ("resolution", vints [1280; 720]%Z);
         ("camera_model", VStr "fisheye");
         ("fov", VFloat 200.0)]%string.

Definition default_writer_config : Dict :=
  [("output_dir",
    VStr "/workspace/isaaclab/user_apps/data_apps/output/path_tracking_sdg");
   ("camera_params", VBool true);
   ("rgb", VBool true);
   ("distance_to_camera", VBool true);
   ("colorize_depth", VBool true);
   ("instance_id_segmentation", VBool true);
   ("colorize_instance_id_segmentation", VBool true);
   ("instance_segmentation", VBool true);
   ("colorize_instance_segmentation", VBool true);
   ("semantic_segmentation", VBool true);
   ("colorize_semantic_segmentation", VBool true);
   ("bounding_box_2d_tight", VBool true);
   ("bounding_box_3d", VBool true);
   ("occlusion", VBool true)]%string.

(** The dictionary [config] as the script declares it. *)
Definition default_config : Dict :=
  [("launch_config",
    VDict [("renderer", VStr "RayTracedLighting");
           ("headless", VBool true)]);
   ("trajectory_path",
    VStr "/workspace/isaaclab/user_apps/assets/trajectory_small.hdf5");
   ("sample_interval", VInt 10);
   ("robot",
    VDict
      [("url",
        VStr "/workspace/isaaclab/user_apps/data_apps/assets/OmniNxt_sdg_color.usd");
       ("mass", VFloat 0.85);
       ("radius", VFloat 0.15);
       ("cameras",
        VList
          [fisheye_camera "left_front_camera"
             [0.0735; 0.0735; 0.067] [0.924; 0; 0; 0.383];
           fisheye_camera "right_front_camera"
             [0.0735; -0.0735; 0.067] [0.924; 0; 0; -0.383];
           fisheye_camera "right_back_camera"
             [-0.0735; -0.0735; 0.067] [0.383; 0; 0; -0.924];
           fisheye_camera "left_back_camera"
             [-0.0735; 0.0735; 0.067] [0.383; 0; 0; 0.924];
           VDict [("name", VStr "driving_camera");
                  ("position", vfloats [0.12; 0.0; 0.067]);
                  ("quaternion", vfloats [0.0; 0.0; 0.0; 1.0]);
                  ("camera_model", VStr "pinhole");
                  ("resolution", vints [640; 640]%Z);
                  ("focal_length", VFloat 15.0)]])]);
   ("rt_subframes", VInt 50);
   ("env_url",
    VStr "/Isaac/Environments/Simple_Warehouse/full_warehouse.usd");
   ("writer", VStr "BasicWriter");
   ("writer_config", VDict default_writer_config);
   ("clear_previous_semantics", VBool false);
   ("close_app_after_run", VBool true)]%string.

(** *** Merging the configuration file *)

(** [config["writer_config"].clear()]. *)
Definition clear_writer_config (config : Dict) : ScriptError + Dict :=
  match dict_get config "writer_config" with
  | None => inl (ScriptKeyError "writer_config")
  | Some (VDict _) => inr (dict_setitem config "writer_config" (VDict []))
  | Some (VList _) => inr (dict_setitem config "writer_config" (VList []))
  | Some _ => inl ScriptAttributeError
  end.

(** The merge of the file's parameters into [config]: the writer parameters
    are cleared when the file brings its own, then [config.update]. *)
Definition merge_config (config args_config : Dict) : ScriptError + Dict :=
  if dict_contains args_config "writer_config" then
    match clear_writer_config config with
    | inl e => inl e
    | inr config' => inr (dict_update config' args_config)
    end
  else inr (dict_update config args_config).

(** *** The writer of a group *)

Definition starts_with_sep (s : string) : bool :=
  match s with
  | String c _ => Ascii.eqb c "/"
  | EmptyString => false
  end.

Fixpoint ends_with_sep (s : string) : bool :=
  match s with
  | EmptyString => false
  | String c EmptyString => Ascii.eqb c "/"
  | String _ s' => ends_with_sep s'
  end.

(** [os.path.join(a, b)] on a POSIX system. *)
Definition path_join (a b : string) : string :=
  if starts_with_sep b then b
  else if (String.eqb a "" || ends_with_sep a)%bool then (a ++ b)%string
  else (a ++ "/" ++ b)%string.

(** [f"group_{group_num}"]. *)
Definition group_dir (group_num : Z) : string :=
  ("group_" ++ NilZero.string_of_int (Z.to_int group_num))%string.

(** The first lines of [process_group]: the writer parameters of the group,
    a copy of [config["writer_config"]] whose output directory is the
    sub-directory of the group. *)
Definition writer_kwargs (config : Dict) (group_num : Z)
  : ScriptError + Dict :=
  match dict_get config "writer_config" with
  | None => inl (ScriptKeyError "writer_config")
  | Some (VDict writer_config) =>
    match dict_get writer_config "output_dir" with
    | None => inl (ScriptKeyError "output_dir")
    | Some (VStr output_dir) =>
      inr (dict_setitem writer_config "output_dir"
             (VStr (path_join output_dir (group_dir group_num))))
    | Some _ => inl ScriptTypeError
    end
  | Some (VList _) => inl ScriptTypeError
  | Some _ => inl ScriptAttributeError
  end.

(** *** Cameras and render products *)

(** One entry of [config["robot"]["cameras"]]; [None] is a missing key. *)
Record CameraConfig : Type := mkCameraConfig {
  name : string;
  position : Vec3;
  quaternion : Quat;
  resolution : Z * Z;
  camera_model : string;
  fov : option R;
  focal_length : option R
}.

(** The keyword arguments of [rep.create.camera] and the arguments of
    [rep.create.render_product]. *)
Record CameraKwargs : Type := mkCameraKwargs {
  kw_position : Vec3;
  kw_rotation : Vec3;
  kw_projection_type : string;
  kw_name : string;
  kw_parent : string;
  kw_fisheye_max_fov : option R;
  kw_focal_length : option R;
  product_resolution : Z * Z;
  product_name : string
}.

(** [v * k] on a numpy 3-vector. *)
Definition vec3_scale (v : Vec3) (k : R) : Vec3 :=
  mkVec3 (vx v * k) (vy v * k) (vz v * k).

Section Cameras.

Variable quat_to_euler_angles : Quat -> Vec3.

(** The body of the loop over the cameras. *)
Definition create_camera (camera_config : CameraConfig)
  : ScriptError + CameraKwargs :=
  let rotation_euler :=
    vec3_scale (quat_to_euler_angles (quaternion camera_config))
      (180 / PI) in
  let projection_type :=
    if String.eqb (camera_model camera_config) "fisheye"
    then "fisheye_polynomial"%string else "pinhole"%string in
  let kwargs fisheye_max_fov focal_length :=
    mkCameraKwargs (position camera_config) rotation_euler projection_type
      (name camera_config) "/World_custom/cameras"
      fisheye_max_fov focal_length
      (resolution camera_config) (name camera_config) in
  if String.eqb projection_type "fisheye_polynomial" then
    match fov camera_config with
    | Some f => inr (kwargs (Some f) None)
    | None => inl (ScriptKeyError "fov")
    end
  else
    match focal_length camera_config with
    | Some f => inr (kwargs None (Some f))
    | None => inl (ScriptKeyError "focal_length")
    end.

(** The loop: the cameras created, in order, and the exception that ended
    it, if any. *)
Fixpoint create_cameras (cameras : list CameraConfig)
  : list CameraKwargs * option ScriptError :=
  match cameras with
  | [] => ([], None)
  | camera_config :: rest =>
    match create_camera camera_config with
    | inl e => ([], Some e)
    | inr created =>
      let (more, e) := create_cameras rest in (created :: more, e)
    end
  end.

End Cameras.

(** Whether an entry has the key that its camera model makes the loop
    read. *)
Definition required_key_present (camera_config : CameraConfig) : bool :=
  if String.eqb (camera_model camera_config) "fisheye"
  then match fov camera_config with Some _ => true | None => false end
  else match focal_length camera_config with
       | Some _ => true
       | None => false
       end.

(** The five cameras of the default configuration. *)
Definition default_cameras : list CameraConfig :=
  [mkCameraConfig "left_front_camera" (mkVec3 0.0735 0.0735 0.067)
     (mkQuat 0.924 0 0 0.383) (1280, 720)%Z "fisheye" (Some 200.0) None;
   mkCameraConfig "right_front_camera" (mkVec3 0.0735 (-0.0735) 0.067)
     (mkQuat 0.924 0 0 (-0.383)) (1280, 720)%Z "fisheye" (Some 200.0) None;
   mkCameraConfig "right_back_camera" (mkVec3 (-0.0735) (-0.0735) 0.067)
     (mkQuat 0.383 0 0 (-0.924)) (1280, 720)%Z "fisheye" (Some 200.0) None;
   mkCameraConfig "left_back_camera" (mkVec3 (-0.0735) 0.0735 0.067)
     (mkQuat 0.383 0 0 0.924) (1280, 720)%Z "fisheye" (Some 200.0) None;
   mkCameraConfig "driving_camera" (mkVec3 0.12 0.0 0.067)
     (mkQuat 0.0 0.0 0.0 1.0) (640, 640)%Z "pinhole" None (Some 15.0)]%string.

(** *** Processing the groups *)

(** [x % y] on floats, for a non-zero [y]: the remainder that has the sign
    of [y]. *)
Definition float_mod (x y : R) : R := x - y * IZR (Int_part (x / y)).

(** The integer that [config.get("sample_interval", 100)] returns, when it
    is one; [True] and [False] are the integers 1 and 0. *)
Definition integer_interval (config : Dict) : option Z :=
  match dict_get config "sample_interval" with
  | None => Some 100%Z
  | Some (VInt z) => Some z
  | Some (VBool b) => Some (if b then 1 else 0)%Z
  | Some _ => None
  end.

(** What [process_group] did for a group: the parameters the writer was
    initialised with, [None] when the set-up raised before, and the visits
    of the replay. *)
Record GroupRun : Type := mkGroupRun {
  group : Z;
  writer_parameters : option Dict;
  visits : list Sampler.Visit
}.

(** The exceptions of the writer set-up and those of the replay. *)
Definition Raised : Type := (ScriptError + PyError)%type.

Section Main.

Variable quat_to_euler_angles : Quat -> Vec3.

(** The replay loop for an interval that is a float: the test
    [sample_counter % interval != 0] is a float remainder. *)
Fixpoint replay_float (trajectory : Sampler.Trajectory) (interval : R)
    (rt_subframes : Z) (counters : list Z)
  : list Sampler.Visit * option PyError :=
  match counters with
  | [] => ([], None)
  | sample_counter :: rest =>
    if Req_dec_T interval 0 then ([], Some ZeroDivisionError)
    else if Req_dec_T (float_mod (IZR sample_counter) interval) 0 then
      match Sampler.visit_sample quat_to_euler_angles trajectory rt_subframes
              sample_counter with
      | inl e => ([], Some e)
      | inr v =>
        let (vs, e) := replay_float trajectory interval rt_subframes rest in
        (v :: vs, e)
      end
    else replay_float trajectory interval rt_subframes rest
  end.

(** [process_group], whole: the writer set-up, the loading of the trajectory
    and the replay at the interval that the configuration holds.  An interval
    that is no number makes the modulo test of the first counter raise. *)
Definition process_group (group_num : Z) (db : Sampler.TrajectoryDatabase)
    (config : Dict) (rt_subframes : Z) : GroupRun * option Raised :=
  match writer_kwargs config group_num with
  | inl e => (mkGroupRun group_num None [], Some (inl e))
  | inr kwargs =>
    match Sampler.getTrajectory db group_num with
    | inl e => (mkGroupRun group_num (Some kwargs) [], Some (inr e))
    | inr trajectory =>
      let counters := py_range (length trajectory) in
      let replayed :=
        match dict_get config "sample_interval" with
        | None =>
          Sampler.replay quat_to_euler_angles trajectory 100 rt_subframes
            counters
        | Some (VInt interval) =>
          Sampler.replay quat_to_euler_angles trajectory interval
            rt_subframes counters
        | Some (VBool interval) =>
          Sampler.replay quat_to_euler_angles trajectory
            (if interval then 1 else 0) rt_subframes counters
        | Some (VFloat interval) =>
          replay_float trajectory interval rt_subframes counters
        | Some _ =>
          ([], match counters with [] => None | _ :: _ => Some TypeError end)
        end in
      (mkGroupRun group_num (Some kwargs) (fst replayed),
       option_map inr (snd replayed))
    end
  end.

(** [for group_num in range(len(db))]: what was done for each group, in
    order, the group at which an exception ended the loop included, and that
    exception, if any. *)
Fixpoint main_loop (db : Sampler.TrajectoryDatabase) (config : Dict)
    (rt_subframes : Z) (groups : list Z)
  : list GroupRun * option Raised :=
  match groups with
  | [] => ([], None)
  | group_num :: rest =>
    let (done, e) := process_group group_num db config rt_subframes in
    match e with
    | Some err => ([done], Some err)
    | None =>
      let (more, e') := main_loop db config rt_subframes rest in
      (done :: more, e')
    end
  end.

(** [main].  Modelled from the spec: [len(db)] is the number of groups of
    the store. *)
Definition main (db : Sampler.TrajectoryDatabase) (config : Dict)
    (rt_subframes : Z) : list GroupRun * option Raised :=
  main_loop db config rt_subframes (py_range (length db)).

End Main.

(** The number of empty trajectories at the head of the store. *)
Fixpoint empty_prefix (db : Sampler.TrajectoryDatabase) : nat :=
  match db with
  | [] :: rest => S (empty_prefix rest)
  | _ => 0
  end.

(** The default configuration with another sampling interval. *)
Definition config_with_interval (interval : Z) : Dict :=
  dict_setitem default_config "sample_interval" (VInt interval).

End SdgScript.

(** ** Construction and action application of the environment *)

Module QuadSetup.

Import QuadEnv.

(** [t[:, col] = vals] over the whole batch. *)
Definition put_column {A B : Type} (upd : A -> B -> A) (t : list A)
    (vals : list B) : list A :=
  map2 upd t vals.

(** The quaternion of a yaw about the vertical axis, as [__init__] and
    [_reset_idx] compute it. *)
Definition yaw_quat (yaw : R) : Quat :=
  mkQuat (cos (yaw / 2)) 0 0 (sin (yaw / 2)).

(** [__init__], after the base class has set up the fields of [base]: the
    buffers of the subclass are created. *)
Definition __init__ (base : QuadcopterWithYawEnv) : QuadcopterWithYawEnv :=
  let n := num_envs base in
  let actions := repeat action_zero n in
  let desired_pos_w := repeat vec3_zero n in
  let desired_yaw_w := repeat 0 n in
  let desired_yaw_quat := repeat quat_zero n in
  let desired_yaw_quat :=
    put_column put_qw desired_yaw_quat
      (map (fun y => cos (y / 2)) desired_yaw_w) in
  let desired_yaw_quat :=
    put_column put_qz desired_yaw_quat
      (map (fun y => sin (y / 2)) desired_yaw_w) in
  let episode_sums : RewardDict := fun _ => repeat 0 n in
  mkEnv (cfg base) n (step_dt base) (max_episode_length base)
    (max_episode_length_s base) (episode_length_buf base)
    (reset_terminated base) (reset_time_outs base) (robot_data base)
    (env_origins base) actions desired_pos_w desired_yaw_w desired_yaw_quat
    episode_sums (extras_log base).

(** What the base class has to provide: one row per environment in each of
    its buffers. *)
Record base_well_formed (base : QuadcopterWithYawEnv) : Prop := mkBaseWf {
  bwf_episode_length_buf : length (episode_length_buf base) = num_envs base;
  bwf_reset_terminated : length (reset_terminated base) = num_envs base;
  bwf_reset_time_outs : length (reset_time_outs base) = num_envs base;
  bwf_root_lin_vel_b :
    length (root_lin_vel_b (robot_data base)) = num_envs base;
  bwf_root_ang_vel_b :
    length (root_ang_vel_b (robot_data base)) = num_envs base;
  bwf_root_pos_w : length (root_pos_w (robot_data base)) = num_envs base;
  bwf_root_quat_w : length (root_quat_w (robot_data base)) = num_envs base;
  bwf_env_origins : length (env_origins base) = num_envs base
}.

(** The goal yaw quaternion of every environment is the quaternion of its
    goal yaw. *)
Definition yaw_quat_consistent (env : QuadcopterWithYawEnv) : Prop :=
  forall i yaw q,
    nth_error (_desired_yaw_w env) i = Some yaw ->
    nth_error (_desired_yaw_quat env) i = Some q ->
    q = yaw_quat yaw.

(** The configuration and the buffers of the action application:
    [cfg.thrust_to_weight], [cfg.moment_scale], [_robot_weight] and the
    tensors [_thrust] and [_moment] of shape (N, 1, 3). *)
Record Actuation : Type := mkActuation {
  thrust_to_weight : R;
  moment_scale : R;
  _robot_weight : R;
  _thrust : list Vec3;
  _moment : list Vec3
}.

(** The part of [__init__] for the action application: [masses] is
    [root_physx_view.get_masses()[0]], [gravity] is [sim.cfg.gravity]. *)
Definition init_actuation (thrust_to_weight moment_scale : R)
    (masses : list R) (gravity : Vec3) (n : nat) : Actuation :=
  let robot_mass := sum_list masses in
  let gravity_magnitude := norm3 gravity in
  mkActuation thrust_to_weight moment_scale (robot_mass * gravity_magnitude)
    (repeat vec3_zero n) (repeat vec3_zero n).

(** [actions.clone().clamp(-1.0, 1.0)] on one row. *)
Definition clamp_action (a : Action) : Action :=
  mkAction (clamp (a0 a) (-1.0) 1.0) (clamp (a1 a) (-1.0) 1.0)
    (clamp (a2 a) (-1.0) 1.0) (clamp (a3 a) (-1.0) 1.0).

(** [_pre_physics_step]: the actions are clamped and stored, the thrust along
    z and the moment are computed from them. *)
Definition _pre_physics_step (env : QuadcopterWithYawEnv) (act : Actuation)
    (actions : list Action) : QuadcopterWithYawEnv * Actuation :=
  let actions := map clamp_action actions in
  let thrust :=
    put_column put_z (_thrust act)
      (map (fun a => thrust_to_weight act * _robot_weight act
                     * (a0 a + 1.0) / 2.0) actions) in
  let moment :=
    put_column (fun (_ : Vec3) (m : Vec3) => m) (_moment act)
      (map (fun a => mkVec3 (moment_scale act * a1 a)
                       (moment_scale act * a2 a)
                       (moment_scale act * a3 a)) actions) in
  (mkEnv (cfg env) (num_envs env) (step_dt env) (max_episode_length env)
     (max_episode_length_s env) (episode_length_buf env)
     (reset_terminated env) (reset_time_outs env) (robot_data env)
     (env_origins env) actions (_desired_pos_w env) (_desired_yaw_w env)
     (_desired_yaw_quat env) (_episode_sums env) (extras_log env),
   mkActuation (thrust_to_weight act) (moment_scale act) (_robot_weight act)
     thrust moment).

(** A base environment of two robots for concrete runs, and the actuation of
    a robot of 30 g under standard gravity with the declared scales. *)
Definition two_actuators : Actuation :=
  init_actuation 1.9 0.01 [0.025; 0.005] (mkVec3 0 0 (-9.81)) 2.

End QuadSetup.

(** ** The debug markers of the environment *)

Module QuadDebugVis.

(** The three marker attributes: [None] when the attribute does not exist,
    [Some v] for a marker whose visibility is [v]. *)
Record Markers : Type := mkMarkers {
  goal_pos_visualizer : option bool;
  goal_yaw_visualizer : option bool;
  current_yaw_visualizer : option bool
}.

(** The object before the first call of [set_debug_vis]. *)
Definition no_markers : Markers := mkMarkers None None None.

(** [if not hasattr(...): create the marker], then [set_visibility(True)]. *)
Definition create_and_show (marker : option bool) : option bool :=
  let marker :=
    match marker with
    | None => Some true
    | Some v => Some v
    end in
  option_map (fun _ => true) marker.

(** [if hasattr(...): set_visibility(False)]. *)
Definition hide_if_present (marker : option bool) : option bool :=
  option_map (fun _ => false) marker.

(** [_set_debug_vis_impl]. *)
Definition _set_debug_vis_impl (debug_vis : bool) (m : Markers) : Markers :=
  if debug_vis then
    mkMarkers (create_and_show (goal_pos_visualizer m))
      (create_and_show (goal_yaw_visualizer m))
      (create_and_show (current_yaw_visualizer m))
  else
    mkMarkers (hide_if_present (goal_pos_visualizer m))
      (hide_if_present (goal_yaw_visualizer m))
      (hide_if_present (current_yaw_visualizer m)).

(** A read of a missing attribute. *)
Inductive AttributeError : Type :=
| missing_attribute (name : string).

(** The arguments of the three [visualize] calls. *)
Record Visualized : Type := mkVisualized {
  goal_pos_args : list Vec3;
  goal_yaw_args : list Vec3 * list Quat;
  current_yaw_args : list Vec3 * list Quat
}.

(** [_debug_vis_callback]: the markers are updated in turn; a missing marker
    raises. *)
Definition _debug_vis_callback (env : QuadEnv.QuadcopterWithYawEnv)
    (m : Markers) : AttributeError + Visualized :=
  match goal_pos_visualizer m with
  | None => inl (missing_attribute "goal_pos_visualizer")
  | Some _ =>
    match goal_yaw_visualizer m with
    | None => inl (missing_attribute "goal_yaw_visualizer")
    | Some _ =>
      match current_yaw_visualizer m with
      | None => inl (missing_attribute "current_yaw_visualizer")
      | Some _ =>
        inr (mkVisualized (QuadEnv._desired_pos_w env)
               (QuadEnv._desired_pos_w env, QuadEnv._desired_yaw_quat env)
               (QuadEnv.root_pos_w (QuadEnv.robot_data env),
                QuadEnv.root_quat_w (QuadEnv.robot_data env)))
      end
    end
  end.

(** A sequence of calls of [set_debug_vis], the first flag first. *)
Definition set_debug_vis_calls (flags : list bool) (m : Markers) : Markers :=
  fold_left (fun m debug_vis => _set_debug_vis_impl debug_vis m) flags m.

End QuadDebugVis.

(** * Properties of the trajectory sampler *)

Section SamplerFacts.

Import Sampler.

Variable quat_to_euler_angles : Quat -> Vec3.

Local Abbreviation visit_sample := (Sampler.visit_sample quat_to_euler_angles).
Local Abbreviation replay := (Sampler.replay quat_to_euler_angles).
Local Abbreviation process_group := (Sampler.process_group quat_to_euler_angles).

(** In-range indexing returns the element at that position. *)
Lemma py_getitem_in_range {A : Type} (l : list A) (i : Z) (d : A) :
  (0 <= i < Z.of_nat (length l))%Z ->
  py_getitem l i = inr (nth (Z.to_nat i) l d).
Proof.
  intros Hi. unfold py_getitem.
  destruct (i <? 0)%Z eqn:Hneg; [apply Z.ltb_lt in Hneg; lia|].
  replace (0 <=? i)%Z with true by (symmetry; apply Z.leb_le; lia).
  replace (i <? Z.of_nat (length l))%Z with true
    by (symmetry; apply Z.ltb_lt; lia).
  cbn [andb].
  destruct (nth_error l (Z.to_nat i)) as [x|] eqn:Hx.
  - now rewrite (nth_error_nth l _ d Hx).
  - apply nth_error_None in Hx. lia.
Qed.

(** A lookup by the timestamp of a stored sample finds a sample with that
    timestamp. *)
Lemma lookup_by_timestamp_found (t : Trajectory) (s : Sample) :
  In s t ->
  exists s', lookup_by_timestamp t (timestamp s) = Some s'
             /\ timestamp s' = timestamp s.
Proof.
  unfold lookup_by_timestamp. induction t as [|a t IH]; intros Hin.
  - destruct Hin.
  - cbn [find]. destruct (Req_dec_T (timestamp a) (timestamp s)) as [E|NE].
    + exists a. now split.
    + destruct Hin as [->|Hin]; [now elim NE | now apply IH].
Qed.

(** When timestamps strictly increase, the lookup finds the sample itself. *)
Lemma lookup_by_timestamp_nth (t : Trajectory) (n : nat) (d : Sample) :
  strictly_increasing (getTimestamp t) ->
  (n < length t)%nat ->
  lookup_by_timestamp t (timestamp (nth n t d)) = Some (nth n t d).
Proof.
  unfold lookup_by_timestamp, strictly_increasing, getTimestamp.
  revert n. induction t as [|a t IH]; intros n Hs Hn; [cbn in Hn; lia|].
  cbn [map] in Hs. inversion Hs as [|? ? Hs' Hall]; subst.
  destruct n as [|n]; cbn [nth find].
  - destruct (Req_dec_T (timestamp a) (timestamp a)); [reflexivity|congruence].
  - cbn in Hn.
    destruct (Req_dec_T (timestamp a) (timestamp (nth n t d))) as [E|NE].
    + exfalso. rewrite Forall_forall in Hall.
      assert (Hlt : timestamp a < timestamp (nth n t d)).
      { apply Hall. apply in_map. apply nth_In. lia. }
      lra.
    + apply IH; [assumption | lia].
Qed.

(** The body of the loop never raises on an index of the trajectory, and
    these are the values it emits. *)
Lemma visit_sample_in_range (t : Trajectory) (rt : Z) (c : Z) :
  (0 <= c < Z.of_nat (length t))%Z ->
  exists v s,
    visit_sample t rt c = inr v
    /\ lookup_by_timestamp t (nth (Z.to_nat c) (getTimestamp t) 0) = Some s
    /\ sample_counter v = c
    /\ visit_timestamp v = nth (Z.to_nat c) (getTimestamp t) 0
    /\ pose_position v = position s
    /\ body_velocity v = velocity s
    /\ body_angular_velocity v = vec3_rad2deg (omega s)
    /\ delta_time v =
       next_timestamp (getTimestamp t) (Z.to_nat c)
       - nth (Z.to_nat c) (getTimestamp t) 0
    /\ step_rt_subframes v = rt.
Proof.
  intros Hc.
  assert (Hlen : length (getTimestamp t) = length t)
    by apply length_map.
  unfold Sampler.visit_sample.
  rewrite (py_getitem_in_range _ c 0) by lia.
  set (n := Z.to_nat c). set (ts := nth n (getTimestamp t) 0).
  destruct t as [|s0 t']; [cbn in Hc; lia|].
  set (tr := s0 :: t') in *.
  assert (Hts : ts = timestamp (nth n tr s0)).
  { unfold ts, getTimestamp.
    rewrite (nth_indep _ 0 (timestamp s0)) by (fold (getTimestamp tr); lia).
    apply map_nth. }
  destruct (lookup_by_timestamp_found tr (nth n tr s0)) as [s [Hs _]].
  { apply nth_In. lia. }
  rewrite <- Hts in Hs.
  unfold getPosbyTimestamp, getQuaternionbyTimestamp, getVelbyTimestamp,
    getOmgbyTimestamp, by_timestamp.
  rewrite Hs.
  destruct (c + 1 <? Z.of_nat (length tr))%Z eqn:Hnext.
  - apply Z.ltb_lt in Hnext.
    rewrite (py_getitem_in_range _ (c + 1) 0) by lia.
    eexists; exists s. split; [reflexivity|]. split; [reflexivity|].
    cbn [sample_counter visit_timestamp pose_position body_velocity
         body_angular_velocity delta_time step_rt_subframes].
    repeat split. unfold next_timestamp.
    replace (Z.to_nat (c + 1)) with (S n) by lia.
    replace (S n <? length (getTimestamp tr))%nat with true; [reflexivity|].
    symmetry. apply Nat.ltb_lt. lia.
  - apply Z.ltb_ge in Hnext.
    eexists; exists s. split; [reflexivity|]. split; [reflexivity|].
    cbn [sample_counter visit_timestamp pose_position body_velocity
         body_angular_velocity delta_time step_rt_subframes].
    repeat split. unfold next_timestamp.
    replace (S n <? length (getTimestamp tr))%nat with false; [reflexivity|].
    symmetry. apply Nat.ltb_ge. lia.
Qed.

(** The visits of a completed loop, one per counter that the interval
    divides. *)
Lemma replay_completes (t : Trajectory) (interval rt : Z) (cs : list Z) :
  interval <> 0%Z ->
  Forall (fun c => (0 <= c < Z.of_nat (length t))%Z) cs ->
  exists vs,
    replay t interval rt cs = (vs, None)
    /\ map sample_counter vs = filter (divides_counter interval) cs
    /\ Forall (fun v => visit_sample t rt (sample_counter v) = inr v) vs.
Proof.
  intros Hi Hcs. induction Hcs as [|c cs Hc _ IH].
  - exists []. cbn. auto.
  - destruct IH as [vs [Hr [Hm Hv]]].
    cbn [Sampler.replay filter]. unfold py_mod, divides_counter in *.
    replace (interval =? 0)%Z with false by (symmetry; apply Z.eqb_neq; lia).
    destruct (c mod interval =? 0)%Z eqn:Hd; cbn [negb].
    + destruct (visit_sample_in_range t rt c Hc) as [v [s [Hv1 [_ [Hv2 _]]]]].
      rewrite Hv1, Hr. exists (v :: vs). cbn [map]. rewrite Hv2, Hm.
      repeat split. constructor; [now rewrite Hv2 | assumption].
    + exists vs. auto.
Qed.

Lemma py_range_in_range (n : nat) :
  Forall (fun c => (0 <= c < Z.of_nat n)%Z) (py_range n).
Proof.
  unfold py_range. apply Forall_forall. intros c Hc.
  apply in_map_iff in Hc. destruct Hc as [k [<- Hk]].
  apply in_seq in Hk. lia.
Qed.

(** *** Which counters are visited *)

Lemma ceil_div_0 (interval : Z) :
  (0 < interval)%Z -> ceil_div 0 interval = 0%Z.
Proof.
  intros Hi. unfold ceil_div. apply Z.div_small. lia.
Qed.

Lemma ceil_div_succ_multiple (len interval : Z) :
  (0 < interval)%Z -> (0 <= len)%Z -> (len mod interval = 0)%Z ->
  (len = ceil_div len interval * interval
   /\ ceil_div (len + 1) interval = ceil_div len interval + 1)%Z.
Proof.
  intros Hi Hl Hm. unfold ceil_div.
  pose proof (Z.div_mod len interval ltac:(lia)) as Hd. rewrite Hm in Hd.
  assert (H1 : ((len + interval - 1) / interval = len / interval)%Z).
  { symmetry. apply (Z.div_unique_pos _ _ _ (interval - 1)); lia. }
  assert (H2 : ((len + 1 + interval - 1) / interval = len / interval + 1)%Z).
  { symmetry. apply (Z.div_unique_pos _ _ _ 0); lia. }
  rewrite H1, H2. split; lia.
Qed.

Lemma ceil_div_succ_other (len interval : Z) :
  (0 < interval)%Z -> (0 <= len)%Z -> (len mod interval <> 0)%Z ->
  ceil_div (len + 1) interval = ceil_div len interval.
Proof.
  intros Hi Hl Hm. unfold ceil_div.
  pose proof (Z.div_mod len interval ltac:(lia)) as Hd.
  pose proof (Z.mod_pos_bound len interval Hi) as Hb.
  assert (H1 : ((len + interval - 1) / interval = len / interval + 1)%Z).
  { symmetry. apply (Z.div_unique_pos _ _ _ (len mod interval - 1)); lia. }
  assert (H2 : ((len + 1 + interval - 1) / interval = len / interval + 1)%Z).
  { symmetry. apply (Z.div_unique_pos _ _ _ (len mod interval)); lia. }
  now rewrite H1, H2.
Qed.

Lemma ceil_div_nonneg (len interval : Z) :
  (0 < interval)%Z -> (0 <= len)%Z -> (0 <= ceil_div len interval)%Z.
Proof.
  intros Hi Hl. unfold ceil_div. apply Z.div_pos; lia.
Qed.

Lemma py_range_succ (n : nat) :
  py_range (S n) = py_range n ++ [Z.of_nat n].
Proof.
  unfold py_range. rewrite seq_S, map_app. reflexivity.
Qed.

(** With a positive interval the counters visited are the multiples of the
    interval, [ceil(len / interval)] of them. *)
Lemma filter_multiples (interval : Z) (n : nat) :
  (0 < interval)%Z ->
  filter (divides_counter interval) (py_range n)
  = map (fun k => (Z.of_nat k * interval)%Z)
      (seq 0 (Z.to_nat (ceil_div (Z.of_nat n) interval))).
Proof.
  intros Hi. induction n as [|n IH].
  - cbn [Z.of_nat]. rewrite ceil_div_0 by assumption. reflexivity.
  - rewrite py_range_succ, filter_app, IH. cbn [filter].
    replace (Z.of_nat (S n)) with (Z.of_nat n + 1)%Z by lia.
    pose proof (ceil_div_nonneg (Z.of_nat n) interval Hi ltac:(lia)) as Hc.
    unfold divides_counter at 1.
    destruct (Z.of_nat n mod interval =? 0)%Z eqn:Hm.
    + apply Z.eqb_eq in Hm.
      destruct (ceil_div_succ_multiple (Z.of_nat n) interval Hi ltac:(lia) Hm)
        as [Hn Hs].
      rewrite Hs. replace (Z.to_nat (ceil_div (Z.of_nat n) interval + 1))
        with (S (Z.to_nat (ceil_div (Z.of_nat n) interval))) by lia.
      rewrite seq_S, map_app. cbn [map Nat.add]. f_equal. f_equal. lia.
    + apply Z.eqb_neq in Hm.
      rewrite (ceil_div_succ_other (Z.of_nat n) interval Hi ltac:(lia) Hm).
      now rewrite app_nil_r.
Qed.

(** *** The visits of a run *)

Lemma process_group_replay (group_num : Z) (db : TrajectoryDatabase)
    (config : Config) (rt : Z) (t : Trajectory) :
  getTrajectory db group_num = inr t ->
  process_group group_num db config rt
  = replay t (get_sample_interval config) rt (py_range (length t)).
Proof.
  intros Ht. unfold Sampler.process_group. now rewrite Ht.
Qed.

(** A run with a non-zero interval completes; each visit is the body of the
    loop at a counter that the interval divides. *)
Lemma process_group_visits (group_num : Z) (db : TrajectoryDatabase)
    (config : Config) (rt : Z) (t : Trajectory) :
  getTrajectory db group_num = inr t ->
  get_sample_interval config <> 0%Z ->
  exists vs,
    process_group group_num db config rt = (vs, None)
    /\ map sample_counter vs
       = filter (divides_counter (get_sample_interval config))
           (py_range (length t))
    /\ Forall (fun v => exists n,
                 sample_counter v = Z.of_nat n /\ (n < length t)%nat
                 /\ visit_sample t rt (Z.of_nat n) = inr v) vs.
Proof.
  intros Ht Hi. rewrite (process_group_replay _ _ _ _ _ Ht).
  destruct (replay_completes t (get_sample_interval config) rt
              (py_range (length t)) Hi (py_range_in_range _))
    as [vs [Hr [Hm Hv]]].
  exists vs. repeat split; try assumption.
  apply Forall_forall. intros v Hin.
  assert (Hc : In (sample_counter v) (py_range (length t))).
  { apply (in_map sample_counter) in Hin. rewrite Hm in Hin.
    now apply filter_In in Hin. }
  unfold py_range in Hc. apply in_map_iff in Hc.
  destruct Hc as [n [Hn Hseq]]. apply in_seq in Hseq.
  exists n. rewrite Forall_forall in Hv. specialize (Hv v Hin).
  rewrite <- Hn in Hv. repeat split; [now symmetry | lia | exact Hv].
Qed.

(** What a visit at counter [n] carries. *)
Lemma visit_sample_values (t : Trajectory) (rt : Z) (n : nat) (v : Visit) :
  (n < length t)%nat ->
  visit_sample t rt (Z.of_nat n) = inr v ->
  visit_timestamp v = nth n (getTimestamp t) 0
  /\ delta_time v
     = next_timestamp (getTimestamp t) n - nth n (getTimestamp t) 0
  /\ exists s,
       lookup_by_timestamp t (nth n (getTimestamp t) 0) = Some s
       /\ pose_position v = position s
       /\ body_velocity v = velocity s
       /\ body_angular_velocity v = vec3_rad2deg (omega s).
Proof.
  intros Hn Hv.
  destruct (visit_sample_in_range t rt (Z.of_nat n) ltac:(lia))
    as [v' [s H]].
  rewrite Nat2Z.id in H.
  destruct H as [Hv' [Hs [_ [Hts [Hp [Hvel [Hom [Hdt _]]]]]]]].
  rewrite Hv in Hv'. injection Hv' as <-.
  repeat split; try assumption. exists s. repeat split; assumption.
Qed.

(** *** Order of the timestamps *)

Lemma strictly_increasing_nth (ts : list R) (i j : nat) :
  strictly_increasing ts -> (i < j < length ts)%nat ->
  nth i ts 0 < nth j ts 0.
Proof.
  unfold strictly_increasing. intros Hs. revert i j.
  induction Hs as [|a ts Hs IH Hall]; intros i j Hij; [cbn in Hij; lia|].
  cbn [length] in Hij. destruct j as [|j]; [lia|].
  destruct i as [|i]; cbn [nth].
  - rewrite Forall_forall in Hall. apply Hall. apply nth_In. lia.
  - apply IH. lia.
Qed.

Lemma multiples_sorted (interval : Z) (a n : nat) :
  (0 < interval)%Z ->
  StronglySorted Z.lt (map (fun k => (Z.of_nat k * interval)%Z) (seq a n)).
Proof.
  intros Hi. revert a. induction n as [|n IH]; intros a; cbn [seq map].
  - constructor.
  - constructor; [apply IH|].
    apply Forall_forall. intros x Hx. apply in_map_iff in Hx.
    destruct Hx as [k [<- Hk]]. apply in_seq in Hk. nia.
Qed.

Lemma visits_sorted (ts : list R) (vs : list Visit) :
  strictly_increasing ts ->
  StronglySorted Z.lt (map sample_counter vs) ->
  Forall (fun v => exists n,
            sample_counter v = Z.of_nat n /\ (n < length ts)%nat
            /\ visit_timestamp v = nth n ts 0) vs ->
  strictly_increasing (map visit_timestamp vs).
Proof.
  intros Hts Hs Hv. unfold strictly_increasing.
  induction vs as [|v vs IH]; cbn [map] in *; [constructor|].
  inversion Hs as [|? ? Hs' Hall]; subst.
  inversion Hv as [|? ? [n [Hc [Hn Ht]]] Hv']; subst.
  constructor; [now apply IH|].
  apply Forall_forall. intros x Hx. apply in_map_iff in Hx.
  destruct Hx as [w [<- Hw]].
  rewrite Forall_forall in Hv'. destruct (Hv' w Hw) as [m [Hc' [Hm Ht']]].
  rewrite Forall_forall in Hall.
  specialize (Hall (sample_counter w) (in_map _ _ _ Hw)).
  rewrite Ht, Ht'. apply strictly_increasing_nth; [assumption | lia].
Qed.

(** *** The stride of the sampler *)

(** C7.  For a positive interval the run completes and visits exactly
    [ceil(len / interval)] samples, those at the counters 0, interval,
    2 * interval, ..., in this order; when the timestamps of the trajectory
    strictly increase, so do the timestamps of the visits. *)
Theorem sampler_visits_every_interval_th (group_num : Z)
    (db : TrajectoryDatabase) (config : Config) (rt : Z) (t : Trajectory) :
  getTrajectory db group_num = inr t ->
  (0 < get_sample_interval config)%Z ->
  let interval := get_sample_interval config in
  let run := process_group group_num db config rt in
  let count := ceil_div (Z.of_nat (length t)) interval in
  snd run = None
  /\ map sample_counter (fst run)
     = map (fun k => (Z.of_nat k * interval)%Z) (seq 0 (Z.to_nat count))
  /\ Z.of_nat (length (fst run)) = count
  /\ (strictly_increasing (getTimestamp t) ->
      strictly_increasing (map visit_timestamp (fst run))).
Proof.
  intros Ht Hi interval run count.
  destruct (process_group_visits group_num db config rt t Ht ltac:(lia))
    as [vs [Hrun [Hm Hv]]].
  subst run. rewrite Hrun. cbn [fst snd].
  rewrite filter_multiples in Hm by assumption. fold interval count in Hm.
  assert (Hcount : (0 <= count)%Z)
    by (apply ceil_div_nonneg; [assumption | lia]).
  repeat split.
  - exact Hm.
  - rewrite <- (length_map sample_counter), Hm, length_map, length_seq. lia.
  - intros Hts. apply (visits_sorted (getTimestamp t)); try assumption.
    + rewrite Hm. now apply multiples_sorted.
    + eapply Forall_impl; [|exact Hv]. cbn beta.
      intros v [n [Hc [Hn Hvis]]]. exists n.
      destruct (visit_sample_values t rt n v Hn Hvis) as [Hvt _].
      unfold getTimestamp. rewrite length_map. auto.
Qed.

(** The run of the specification's example: 101 samples at interval 10 are
    visited at the counters 0, 10, ..., 100, eleven in all. *)
Example stride_101_by_10 :
  filter (divides_counter 10) (py_range 101)
  = [0; 10; 20; 30; 40; 50; 60; 70; 80; 90; 100]%Z
  /\ ceil_div 101 10 = 11%Z.
Proof.
  split; vm_compute; reflexivity.
Qed.

(** *** The time step of a visit *)

(** C1, amended.  Each visit carries as [dt] the difference between the
    timestamp of the following sample of the full trajectory and its own, and
    zero at the final sample of the trajectory.  The last visit has a zero
    [dt] when [len - 1] is a multiple of the interval, and a positive one
    otherwise when the timestamps strictly increase. *)
Theorem sampler_dt_to_next_unstrided (group_num : Z)
    (db : TrajectoryDatabase) (config : Config) (rt : Z) (t : Trajectory) :
  getTrajectory db group_num = inr t ->
  (0 < get_sample_interval config)%Z ->
  let interval := get_sample_interval config in
  let visits := fst (process_group group_num db config rt) in
  let ts := getTimestamp t in
  let len := length t in
  (forall v, In v visits ->
     exists n, sample_counter v = Z.of_nat n /\ (n < len)%nat
       /\ ((S n < len)%nat -> delta_time v = nth (S n) ts 0 - nth n ts 0)
       /\ (S n = len -> delta_time v = 0))
  /\ (forall before v, visits = before ++ [v] ->
        (((Z.of_nat len - 1) mod interval = 0)%Z -> delta_time v = 0)
        /\ (((Z.of_nat len - 1) mod interval <> 0)%Z ->
            strictly_increasing ts -> 0 < delta_time v)).
Proof.
  intros Ht Hi interval visits ts len.
  destruct (process_group_visits group_num db config rt t Ht ltac:(lia))
    as [vs [Hrun [Hm Hv]]].
  subst visits. rewrite Hrun. cbn [fst]. fold interval in Hm.
  assert (Hlen : length ts = len) by apply length_map.
  assert (Hall : forall v, In v vs ->
     exists n, sample_counter v = Z.of_nat n /\ (n < len)%nat
       /\ (Z.of_nat n mod interval = 0)%Z
       /\ ((S n < len)%nat -> delta_time v = nth (S n) ts 0 - nth n ts 0)
       /\ (S n = len -> delta_time v = 0)).
  { intros v Hin. rewrite Forall_forall in Hv.
    destruct (Hv v Hin) as [n [Hc [Hn Hvis]]]. exists n.
    destruct (visit_sample_values t rt n v Hn Hvis) as [_ [Hdt _]].
    fold ts in Hdt. unfold next_timestamp in Hdt. rewrite Hlen in Hdt.
    repeat split; try assumption.
    - apply (in_map sample_counter) in Hin. rewrite Hm in Hin.
      apply filter_In in Hin. destruct Hin as [_ Hd].
      unfold divides_counter in Hd. apply Z.eqb_eq in Hd. now rewrite <- Hc.
    - intros Hlt. rewrite Hdt.
      replace (S n <? len)%nat with true; [reflexivity|].
      symmetry. now apply Nat.ltb_lt.
    - intros Hlast. rewrite Hdt.
      replace (S n <? len)%nat with false; [lra|].
      symmetry. apply Nat.ltb_ge. lia. }
  split.
  - intros v Hin. destruct (Hall v Hin) as [n [Hc [Hn [_ H]]]].
    exists n. auto.
  - intros before v ->.
    destruct (Hall v) as [n [Hc [Hn [Hd [Hnext Hlast]]]]];
      [apply in_or_app; right; now left|].
    split.
    + intros Hdiv. apply Hlast.
      assert (Hsucc : length t = S (pred len)) by (unfold len in *; lia).
      assert (Hd' : divides_counter interval (Z.of_nat (pred len)) = true).
      { unfold divides_counter. apply Z.eqb_eq. rewrite <- Hdiv.
        f_equal. lia. }
      rewrite Hsucc, py_range_succ, filter_app in Hm. cbn [filter] in Hm.
      rewrite Hd', map_app in Hm. cbn [map] in Hm.
      apply app_inj_tail in Hm. destruct Hm as [_ Hm]. lia.
    + intros Hndiv Hts.
      assert (Hlt : (S n < len)%nat).
      { destruct (Nat.eq_dec (S n) len) as [E|NE]; [|lia].
        exfalso. apply Hndiv. rewrite <- Hd. f_equal. lia. }
      rewrite (Hnext Hlt).
      pose proof (strictly_increasing_nth ts n (S n) Hts ltac:(lia)). lra.
Qed.

(** *** Non-positive intervals *)

(** C8, amended.  With interval 0 the run of a non-empty trajectory raises a
    division by zero before any visit, and the run of an empty trajectory
    completes without a visit.  With a negative interval the run does not
    fail: it visits the counters that the interval divides. *)
Theorem sampler_nonpositive_interval (group_num : Z)
    (db : TrajectoryDatabase) (config : Config) (rt : Z) (t : Trajectory) :
  getTrajectory db group_num = inr t ->
  (get_sample_interval config <= 0)%Z ->
  let interval := get_sample_interval config in
  let run := process_group group_num db config rt in
  (interval = 0%Z -> t <> [] -> run = ([], Some ZeroDivisionError))
  /\ (interval = 0%Z -> t = [] -> run = ([], None))
  /\ ((interval < 0)%Z ->
      snd run = None
      /\ map sample_counter (fst run)
         = filter (divides_counter interval) (py_range (length t))).
Proof.
  intros Ht Hi interval run. subst run.
  repeat split.
  - intros H0 Hne. rewrite (process_group_replay _ _ _ _ _ Ht).
    fold interval. rewrite H0.
    destruct t as [|s t']; [congruence|]. reflexivity.
  - intros H0 ->. rewrite (process_group_replay _ _ _ _ _ Ht). reflexivity.
  - destruct (process_group_visits group_num db config rt t Ht ltac:(lia))
      as [vs [Hrun _]]. now rewrite Hrun.
  - destruct (process_group_visits group_num db config rt t Ht ltac:(lia))
      as [vs [Hrun [Hm _]]]. now rewrite Hrun.
Qed.

(** *** The angular velocity of a visit *)

(** C10.  When the timestamps of the trajectory strictly increase and the
    interval is not zero, every sample at a counter that the interval divides
    is visited, and the angular velocity handed over at the visit is the
    stored angular velocity of that sample multiplied by 180 / pi, component
    by component; every visit of the run is one of these. *)
Theorem sampler_angular_velocity_in_degrees (group_num : Z)
    (db : TrajectoryDatabase) (config : Config) (rt : Z) (t : Trajectory)
    (d : Sample) :
  getTrajectory db group_num = inr t ->
  strictly_increasing (getTimestamp t) ->
  get_sample_interval config <> 0%Z ->
  let visits := fst (process_group group_num db config rt) in
  let in_degrees (v : Visit) (n : nat) :=
    let stored := omega (nth n t d) in
    vx (body_angular_velocity v) = vx stored * (180 / PI)
    /\ vy (body_angular_velocity v) = vy stored * (180 / PI)
    /\ vz (body_angular_velocity v) = vz stored * (180 / PI) in
  (forall n, (n < length t)%nat ->
     divides_counter (get_sample_interval config) (Z.of_nat n) = true ->
     exists v, In v visits /\ sample_counter v = Z.of_nat n
       /\ in_degrees v n)
  /\ (forall v, In v visits ->
        exists n, sample_counter v = Z.of_nat n /\ (n < length t)%nat
          /\ divides_counter (get_sample_interval config) (Z.of_nat n) = true
          /\ in_degrees v n).
Proof.
  intros Ht Hts Hi visits in_degrees.
  destruct (process_group_visits group_num db config rt t Ht Hi)
    as [vs [Hrun [Hm Hv]]].
  subst visits. rewrite Hrun. cbn [fst]. rewrite Forall_forall in Hv.
  assert (Hall : forall v, In v vs ->
            exists n, sample_counter v = Z.of_nat n /\ (n < length t)%nat
              /\ divides_counter (get_sample_interval config) (Z.of_nat n)
                 = true
              /\ in_degrees v n).
  { intros v Hin. destruct (Hv v Hin) as [n [Hc [Hn Hvis]]]. exists n.
    destruct (visit_sample_values t rt n v Hn Hvis)
      as [_ [_ [s [Hs [_ [_ Hom]]]]]].
    assert (Hnth : nth n (getTimestamp t) 0 = timestamp (nth n t d)).
    { unfold getTimestamp.
      rewrite (nth_indep _ 0 (timestamp d)) by (rewrite length_map; lia).
      apply map_nth. }
    rewrite Hnth, (lookup_by_timestamp_nth t n d Hts Hn) in Hs.
    injection Hs as <-.
    split; [assumption|]. split; [assumption|]. split.
    - apply (in_map sample_counter) in Hin. rewrite Hm, Hc in Hin.
      now apply filter_In in Hin.
    - subst in_degrees. cbv beta zeta. rewrite Hom. cbn. unfold rad2deg.
      pose proof PI_neq0. repeat split; field; assumption. }
  split; [|exact Hall].
  intros n Hn Hdiv.
  assert (Hc : In (Z.of_nat n) (map sample_counter vs)).
  { rewrite Hm. apply filter_In. split; [|exact Hdiv].
    unfold py_range. apply in_map. apply in_seq.
    split; [apply Nat.le_0_l | exact Hn]. }
  apply in_map_iff in Hc. destruct Hc as [v [Hc Hin]].
  exists v. split; [exact Hin|]. split; [exact Hc|].
  destruct (Hall v Hin) as [m [Hc' [_ [_ Hdeg]]]].
  assert (m = n) by lia. subst m. exact Hdeg.
Qed.

End SamplerFacts.

(** *** Concrete runs of the sampler *)

Lemma sampler_visits_every_interval_th_witness :
  let db := Sampler.store_of [0; 1; 2] in
  let config := Sampler.mkConfig (Some 2%Z) in
  let t := map Sampler.sample_at [0; 1; 2] in
  let run := Sampler.process_group Sampler.no_rotation 0 db config 50 in
  Sampler.getTrajectory db 0 = inr t
  /\ (0 < Sampler.get_sample_interval config)%Z
  /\ snd run = None
  /\ map Sampler.sample_counter (fst run)
     = map (fun k => (Z.of_nat k * 2)%Z) (seq 0 (Z.to_nat (Sampler.ceil_div 3 2)))
  /\ Z.of_nat (length (fst run)) = Sampler.ceil_div 3 2
  /\ Sampler.strictly_increasing (map Sampler.visit_timestamp (fst run)).
Proof.
  intros db config t run.
  assert (Ht : Sampler.getTrajectory db 0 = inr t) by reflexivity.
  assert (Hi : (0 < Sampler.get_sample_interval config)%Z) by (cbn; lia).
  destruct (sampler_visits_every_interval_th Sampler.no_rotation 0 db config
              50 t Ht Hi) as [H1 [H2 [H3 H4]]].
  refine (conj Ht (conj Hi (conj H1 (conj H2 (conj H3 _))))).
  apply H4. unfold Sampler.strictly_increasing. cbn.
  repeat constructor; lra.
Defined.

(** C1 as stated fails: two samples one second apart replayed at interval 2
    give a single visit, the last one, and its [dt] is not zero. *)
Lemma last_visit_dt_nonzero :
  let run :=
    Sampler.process_group Sampler.no_rotation 0 (Sampler.store_of [0; 1])
      (Sampler.mkConfig (Some 2%Z)) 50 in
  ~ (forall before v,
       fst run = before ++ [v] -> Sampler.delta_time v = 0).
Proof.
  intros run Hclaim.
  destruct (process_group_visits Sampler.no_rotation 0
              (Sampler.store_of [0; 1]) (Sampler.mkConfig (Some 2%Z)) 50
              (map Sampler.sample_at [0; 1]) eq_refl ltac:(cbn; lia))
    as [vs [Hrun [Hm Hv]]].
  cbn in Hm. destruct vs as [|v [|w vs]]; try discriminate.
  specialize (Hclaim [] v). subst run. rewrite Hrun in Hclaim.
  specialize (Hclaim eq_refl).
  inversion Hv as [|? ? [n [Hc [Hn Hvis]]] _]; subst.
  injection Hm as Hm. assert (n = 0%nat) by lia. subst n.
  destruct (visit_sample_values _ _ _ _ _ Hn Hvis) as [_ [Hdt _]].
  cbn in Hdt. lra.
Qed.

Lemma sampler_dt_to_next_unstrided_witness :
  let db := Sampler.store_of [0; 1; 3] in
  let config := Sampler.mkConfig (Some 2%Z) in
  let t := map Sampler.sample_at [0; 1; 3] in
  let visits :=
    fst (Sampler.process_group Sampler.no_rotation 0 db config 50) in
  Sampler.getTrajectory db 0 = inr t
  /\ (0 < Sampler.get_sample_interval config)%Z
  /\ (forall v, In v visits ->
        exists n, Sampler.sample_counter v = Z.of_nat n /\ (n < 3)%nat
          /\ ((S n < 3)%nat ->
              Sampler.delta_time v = nth (S n) [0; 1; 3] 0 - nth n [0; 1; 3] 0)
          /\ (S n = 3%nat -> Sampler.delta_time v = 0))
  /\ (forall before v, visits = before ++ [v] -> Sampler.delta_time v = 0).
Proof.
  intros db config t visits.
  assert (Ht : Sampler.getTrajectory db 0 = inr t) by reflexivity.
  assert (Hi : (0 < Sampler.get_sample_interval config)%Z) by (cbn; lia).
  destruct (sampler_dt_to_next_unstrided Sampler.no_rotation 0 db config
              50 t Ht Hi) as [H1 H2].
  refine (conj Ht (conj Hi (conj H1 _))).
  intros before v Hlast. apply (H2 before v Hlast). reflexivity.
Defined.

(** C8 as stated fails: at interval -1 the run raises nothing and visits the
    sample. *)
Lemma negative_interval_iterates :
  let run :=
    Sampler.process_group Sampler.no_rotation 0 (Sampler.store_of [0])
      (Sampler.mkConfig (Some (-1)%Z)) 50 in
  snd run = None /\ map Sampler.sample_counter (fst run) = [0%Z].
Proof.
  intros run.
  destruct (process_group_visits Sampler.no_rotation 0
              (Sampler.store_of [0]) (Sampler.mkConfig (Some (-1)%Z)) 50
              (map Sampler.sample_at [0]) eq_refl ltac:(cbn; lia))
    as [vs [Hrun [Hm _]]].
  subst run. rewrite Hrun. split; [reflexivity | exact Hm].
Qed.

Lemma sampler_nonpositive_interval_witness :
  let db := Sampler.store_of [0; 1; 2] in
  let t := map Sampler.sample_at [0; 1; 2] in
  let run0 :=
    Sampler.process_group Sampler.no_rotation 0 db
      (Sampler.mkConfig (Some 0%Z)) 50 in
  let run2 :=
    Sampler.process_group Sampler.no_rotation 0 db
      (Sampler.mkConfig (Some (-2)%Z)) 50 in
  Sampler.getTrajectory db 0 = inr t
  /\ run0 = ([], Some ZeroDivisionError)
  /\ snd run2 = None
  /\ map Sampler.sample_counter (fst run2) = [0; 2]%Z.
Proof.
  intros db t run0 run2.
  assert (Ht : Sampler.getTrajectory db 0 = inr t) by reflexivity.
  destruct (sampler_nonpositive_interval Sampler.no_rotation 0 db
              (Sampler.mkConfig (Some 0%Z)) 50 t Ht ltac:(cbn; lia))
    as [H0 _].
  destruct (sampler_nonpositive_interval Sampler.no_rotation 0 db
              (Sampler.mkConfig (Some (-2)%Z)) 50 t Ht ltac:(cbn; lia))
    as [_ [_ H2]].
  destruct (H2 ltac:(cbn; lia)) as [H2a H2b].
  refine (conj Ht (conj _ (conj H2a H2b))).
  apply H0; [reflexivity | discriminate].
Defined.

Lemma sampler_angular_velocity_in_degrees_witness :
  let db := Sampler.store_of [0; 1; 2] in
  let t := map Sampler.sample_at [0; 1; 2] in
  let config := Sampler.mkConfig (Some 2%Z) in
  Sampler.getTrajectory db 0 = inr t
  /\ Sampler.strictly_increasing (Sampler.getTimestamp t)
  /\ Sampler.get_sample_interval config <> 0%Z
  /\ exists v,
       In v (fst (Sampler.process_group Sampler.no_rotation 0 db config 50))
       /\ Sampler.sample_counter v = 2%Z
       /\ vx (Sampler.body_angular_velocity v) = 0 * (180 / PI)
       /\ vy (Sampler.body_angular_velocity v) = 0 * (180 / PI)
       /\ vz (Sampler.body_angular_velocity v) = 1 * (180 / PI).
Proof.
  intros db t config.
  assert (Ht : Sampler.getTrajectory db 0 = inr t) by reflexivity.
  assert (Hs : Sampler.strictly_increasing (Sampler.getTimestamp t))
    by (unfold Sampler.strictly_increasing; cbn; repeat constructor; lra).
  assert (Hi : Sampler.get_sample_interval config <> 0%Z) by discriminate.
  refine (conj Ht (conj Hs (conj Hi _))).
  destruct (sampler_angular_velocity_in_degrees Sampler.no_rotation 0 db
              config 50 t (Sampler.sample_at 0) Ht Hs Hi) as [Hvisited _].
  destruct (Hvisited 2%nat (Nat.lt_succ_diag_r 2) eq_refl)
    as [v [Hin [Hc Hdeg]]].
  exists v. exact (conj Hin (conj Hc Hdeg)).
Defined.

(** * Properties of the episode state machine *)

Section QuadEnvFacts.

Import QuadEnv.

(** *** Termination flags *)

Lemma Rltb_true_iff (x y : R) : Rltb x y = true <-> x < y.
Proof.
  unfold Rltb. destruct (Rlt_dec x y); split; intros; auto; discriminate.
Qed.

Lemma Rgtb_true_iff (x y : R) : Rgtb x y = true <-> x > y.
Proof.
  unfold Rgtb. destruct (Rgt_dec x y); split; intros; auto; discriminate.
Qed.

(** C5.  The [died] flag of an environment is true exactly when the height of
    its robot root is outside the closed band [0.1, 2.0]: true at 0.05, false
    at 1.0 and at both ends of the band. *)
Theorem died_iff_outside_altitude_band (env : QuadcopterWithYawEnv)
    (i : nat) (p : Vec3) :
  nth_error (root_pos_w (robot_data env)) i = Some p ->
  exists died,
    nth_error (fst (_get_dones env)) i = Some died
    /\ (died = true <-> ~ (0.1 <= vz p <= 2.0))
    /\ (vz p = 0.05 -> died = true)
    /\ (vz p = 1.0 -> died = false)
    /\ (vz p = 0.1 -> died = false)
    /\ (vz p = 2.0 -> died = false).
Proof.
  intros Hp. unfold _get_dones. cbn [fst].
  rewrite nth_error_map, Hp. cbn [option_map]. eexists. split; [reflexivity|].
  assert (Hiff : orb (Rltb (vz p) 0.1) (Rgtb (vz p) 2.0) = true
                 <-> ~ (0.1 <= vz p <= 2.0)).
  { rewrite orb_true_iff, Rltb_true_iff, Rgtb_true_iff. lra. }
  split; [exact Hiff|].
  repeat split; intros Hz.
  - apply Hiff. lra.
  - apply not_true_is_false. rewrite Hiff. lra.
  - apply not_true_is_false. rewrite Hiff. lra.
  - apply not_true_is_false. rewrite Hiff. lra.
Qed.

(** C6.  The [time_out] flag of an environment is true exactly when its step
    counter has reached [max_episode_length - 1], and false at every smaller
    count. *)
Theorem time_out_iff_counter_reached_limit (env : QuadcopterWithYawEnv)
    (i : nat) (steps : Z) :
  nth_error (episode_length_buf env) i = Some steps ->
  exists time_out,
    nth_error (snd (_get_dones env)) i = Some time_out
    /\ (time_out = true <-> (max_episode_length env - 1 <= steps)%Z)
    /\ ((steps < max_episode_length env - 1)%Z -> time_out = false)
    /\ (steps = (max_episode_length env - 1)%Z -> time_out = true).
Proof.
  intros Hs. unfold _get_dones. cbn [snd].
  rewrite nth_error_map, Hs. cbn [option_map]. eexists. split; [reflexivity|].
  assert (Hiff : (steps >=? max_episode_length env - 1)%Z = true
                 <-> (max_episode_length env - 1 <= steps)%Z).
  { rewrite Z.geb_le. reflexivity. }
  split; [exact Hiff|]. split; intros H.
  - apply not_true_is_false. rewrite Hiff. lia.
  - apply Hiff. lia.
Qed.

(** *** The angular difference *)

(** The scalar part fed to [acos]: the dot product of the two quaternions
    over the norm of their raw difference. *)
Lemma quat_diff_w (q1 q2 : Quat) :
  qw (quat_diff q1 q2)
  = (qw q1 * qw q2 + qx q1 * qx q2 + qy q1 * qy q2 + qz q1 * qz q2)
    / norm4 (quat_diff_raw q1 (quat_conj q2)).
Proof.
  unfold quat_diff, quat_scale_inv. cbn [qw]. f_equal.
  unfold quat_diff_raw, quat_conj. cbn [qw qx qy qz]. ring.
Qed.

Lemma quat_diff_raw_norm_sym (q1 q2 : Quat) :
  norm4 (quat_diff_raw q1 (quat_conj q2))
  = norm4 (quat_diff_raw q2 (quat_conj q1)).
Proof.
  unfold norm4. f_equal.
  unfold sum_square4, quat_diff_raw, quat_conj. cbn [qw qx qy qz]. ring.
Qed.

(** The norm of the raw difference is the product of the norms. *)
Lemma quat_diff_raw_sum_square (q1 q2 : Quat) :
  sum_square4 (quat_diff_raw q1 (quat_conj q2))
  = sum_square4 q1 * sum_square4 q2.
Proof.
  unfold sum_square4, quat_diff_raw, quat_conj. cbn [qw qx qy qz]. ring.
Qed.

Lemma norm4_unit_sum_square (q : Quat) : norm4 q = 1 -> sum_square4 q = 1.
Proof.
  unfold norm4. intros H.
  destruct (Rle_dec 0 (sum_square4 q)) as [Hpos|Hneg].
  - rewrite <- (sqrt_sqrt _ Hpos), H. ring.
  - rewrite sqrt_neg_0 in H by lra. lra.
Qed.

Lemma clamp_one : clamp 1 (-1) 1 = 1.
Proof.
  unfold clamp, Rmin, Rmax.
  repeat (destruct (Rle_dec _ _)); lra.
Qed.

Lemma clamp_minus_one : clamp (-1) (-1) 1 = -1.
Proof.
  unfold clamp, Rmin, Rmax.
  repeat (destruct (Rle_dec _ _)); lra.
Qed.

Lemma acos_minus_one : acos (-1) = PI.
Proof.
  replace (-1) with (Ropp 1) by lra. rewrite acos_opp, acos_1. ring.
Qed.

Lemma fold_angle_bounds (a : R) :
  0 <= a <= 2 * PI -> 0 <= Rmin a (2 * PI - a) <= PI.
Proof.
  intros Ha. unfold Rmin. destruct (Rle_dec a (2 * PI - a)); lra.
Qed.

(** C9.  The angular difference of two unit quaternions does not depend on
    their order, lies in [0, pi], and is zero when they are equal or
    opposite. *)
Theorem angular_diff_symmetric_bounded (q1 q2 : Quat) :
  norm4 q1 = 1 -> norm4 q2 = 1 ->
  angular_diff q1 q2 = angular_diff q2 q1
  /\ 0 <= angular_diff q1 q2 <= PI
  /\ (q1 = q2 -> angular_diff q1 q2 = 0)
  /\ (q1 = quat_neg q2 -> angular_diff q1 q2 = 0).
Proof.
  intros H1 H2.
  assert (Hraw : norm4 (quat_diff_raw q1 (quat_conj q2)) = 1).
  { unfold norm4. rewrite quat_diff_raw_sum_square.
    rewrite (norm4_unit_sum_square q1 H1), (norm4_unit_sum_square q2 H2).
    rewrite Rmult_1_r. apply sqrt_1. }
  pose proof (norm4_unit_sum_square q2 H2) as Hss. unfold sum_square4 in Hss.
  repeat split.
  - unfold angular_diff. rewrite !quat_diff_w.
    rewrite (quat_diff_raw_norm_sym q2 q1).
    replace (qw q2 * qw q1 + qx q2 * qx q1 + qy q2 * qy q1 + qz q2 * qz q1)
      with (qw q1 * qw q2 + qx q1 * qx q2 + qy q1 * qy q2 + qz q1 * qz q2)
      by ring.
    reflexivity.
  - apply fold_angle_bounds.
    pose proof (acos_bound (clamp (qw (quat_diff q1 q2)) (-1) 1)). lra.
  - apply fold_angle_bounds.
    pose proof (acos_bound (clamp (qw (quat_diff q1 q2)) (-1) 1)). lra.
  - intros ->. unfold angular_diff. rewrite quat_diff_w, Hraw.
    replace ((qw q2 * qw q2 + qx q2 * qx q2 + qy q2 * qy q2 + qz q2 * qz q2)
             / 1) with 1 by (unfold Rdiv; rewrite Rinv_1; lra).
    rewrite clamp_one, acos_1. pose proof PI_RGT_0.
    unfold Rmin. destruct (Rle_dec _ _); lra.
  - intros E. unfold angular_diff. rewrite quat_diff_w, Hraw. rewrite E.
    unfold quat_neg. cbn [qw qx qy qz].
    replace ((- qw q2 * qw q2 + - qx q2 * qx q2 + - qy q2 * qy q2
              + - qz q2 * qz q2) / 1) with (-1) by (unfold Rdiv; rewrite Rinv_1; lra).
    rewrite clamp_minus_one, acos_minus_one. pose proof PI_RGT_0.
    unfold Rmin. destruct (Rle_dec _ _); lra.
Qed.

(** *** Rows of batched tensors *)

Lemma nth_map_seq {A : Type} (f : nat -> A) (n i : nat) (d : A) :
  (i < n)%nat -> nth i (map f (seq 0 n)) d = f i.
Proof.
  intros Hi. rewrite (nth_indep _ d (f 0%nat))
    by (rewrite length_map, length_seq; assumption).
  rewrite map_nth, seq_nth by assumption. reflexivity.
Qed.

Lemma nth_map_row {A B : Type} (f : A -> B) (l : list A) (i : nat)
    (dA : A) (dB : B) :
  (i < length l)%nat -> nth i (map f l) dB = f (nth i l dA).
Proof.
  intros Hi. rewrite (nth_indep _ dB (f dA)) by (now rewrite length_map).
  apply map_nth.
Qed.

Lemma nth_map2_row {A B C : Type} (f : A -> B -> C) (l1 : list A)
    (l2 : list B) (i : nat) (d1 : A) (d2 : B) (d : C) :
  length l1 = length l2 -> (i < length l1)%nat ->
  nth i (map2 f l1 l2) d = f (nth i l1 d1) (nth i l2 d2).
Proof.
  intros Hlen Hi. unfold map2.
  rewrite (nth_map_row _ _ _ (d1, d2))
    by (rewrite length_combine; lia).
  now rewrite combine_nth.
Qed.

(** *** Rewards *)

Lemma sum_square3_norm3 (v : Vec3) : sum_square3 v = (norm3 v)².
Proof.
  unfold norm3. rewrite Rsqr_sqrt; [reflexivity|].
  unfold sum_square3. nra.
Qed.

(** C2.  The reward of every environment is the sum of the four components,
    each multiplied by the step duration, and each component times the step
    duration is added to the running sum of its key. *)
Theorem reward_is_sum_of_four_components (env : QuadcopterWithYawEnv)
    (i : nat) :
  well_formed env -> (i < num_envs env)%nat ->
  let data := robot_data env in
  let k1 := - lin_vel_reward_scale (cfg env) in
  let k2 := - ang_vel_reward_scale (cfg env) in
  let k3 := distance_to_goal_reward_scale (cfg env) in
  let k4 := radial_to_goal_yaw_reward_scale (cfg env) in
  let goal_pos_world := nth i (_desired_pos_w env) vec3_zero in
  let robot_pos_world := nth i (root_pos_w data) vec3_zero in
  let lin_vel_term :=
    - k1 * (norm3 (nth i (root_lin_vel_b data) vec3_zero))² in
  let ang_vel_term :=
    - k2 * (norm3 (nth i (root_ang_vel_b data) vec3_zero))² in
  let distance_term :=
    k3 * (1 - tanh (norm3 (vec3_sub goal_pos_world robot_pos_world) / 0.8)) in
  let yaw_term :=
    k4 * (1 - angular_diff (nth i (_desired_yaw_quat env) quat_zero)
                (nth i (root_quat_w data) quat_zero) / PI) in
  let dt := step_dt env in
  let reward := fst (_get_rewards env) in
  let sums := _episode_sums env in
  let sums' := _episode_sums (snd (_get_rewards env)) in
  length reward = num_envs env
  /\ nth i reward 0
     = lin_vel_term * dt + ang_vel_term * dt + distance_term * dt
       + yaw_term * dt
  /\ nth i (sums' Key.lin_vel) 0
     = nth i (sums Key.lin_vel) 0 + lin_vel_term * dt
  /\ nth i (sums' Key.ang_vel) 0
     = nth i (sums Key.ang_vel) 0 + ang_vel_term * dt
  /\ nth i (sums' Key.distance_to_goal_pose) 0
     = nth i (sums Key.distance_to_goal_pose) 0 + distance_term * dt
  /\ nth i (sums' Key.radial_to_goal_yaw) 0
     = nth i (sums Key.radial_to_goal_yaw) 0 + yaw_term * dt.
Proof.
  intros Hwf Hi data k1 k2 k3 k4 goal_pos_world robot_pos_world lin_vel_term
    ang_vel_term distance_term yaw_term dt reward sums sums'.
  destruct Hwf.
  assert (Hlin : nth i (map sum_square3 (root_lin_vel_b data)) 0
                 = (norm3 (nth i (root_lin_vel_b data) vec3_zero))²).
  { rewrite (nth_map_row _ _ _ vec3_zero) by (unfold data; lia).
    apply sum_square3_norm3. }
  assert (Hang : nth i (map sum_square3 (root_ang_vel_b data)) 0
                 = (norm3 (nth i (root_ang_vel_b data) vec3_zero))²).
  { rewrite (nth_map_row _ _ _ vec3_zero) by (unfold data; lia).
    apply sum_square3_norm3. }
  assert (Hc1 : nth i
      (map (fun x => x * lin_vel_reward_scale (cfg env) * step_dt env)
         (map sum_square3 (root_lin_vel_b data))) 0 = lin_vel_term * dt).
  { rewrite (nth_map_row _ _ _ 0) by (rewrite length_map; unfold data; lia).
    rewrite Hlin. unfold lin_vel_term, k1, dt. ring. }
  assert (Hc2 : nth i
      (map (fun x => x * ang_vel_reward_scale (cfg env) * step_dt env)
         (map sum_square3 (root_ang_vel_b data))) 0 = ang_vel_term * dt).
  { rewrite (nth_map_row _ _ _ 0) by (rewrite length_map; unfold data; lia).
    rewrite Hang. unfold ang_vel_term, k2, dt. ring. }
  assert (Hc3 : nth i
      (map (fun x => x * distance_to_goal_reward_scale (cfg env) * step_dt env)
         (map (fun d => 1 - tanh (d / 0.8))
            (map norm3 (map2 vec3_sub (_desired_pos_w env) (root_pos_w data)))))
      0 = distance_term * dt).
  { assert (Hl : length (map2 vec3_sub (_desired_pos_w env) (root_pos_w data))
                 = num_envs env).
    { unfold map2. rewrite length_map, length_combine. unfold data. lia. }
    rewrite (nth_map_row _ _ _ 0) by (rewrite !length_map; lia).
    rewrite (nth_map_row _ _ _ 0) by (rewrite !length_map; lia).
    rewrite (nth_map_row _ _ _ vec3_zero) by lia.
    rewrite (nth_map2_row _ _ _ _ vec3_zero vec3_zero)
      by (unfold data; lia).
    unfold distance_term, k3, dt, goal_pos_world, robot_pos_world. ring. }
  assert (Hc4 : nth i
      (map (fun a => (1 - a / PI) * radial_to_goal_yaw_reward_scale (cfg env)
                     * step_dt env)
         (map2 angular_diff (_desired_yaw_quat env) (root_quat_w data)))
      0 = yaw_term * dt).
  { assert (Hl : length (map2 angular_diff (_desired_yaw_quat env)
                           (root_quat_w data)) = num_envs env).
    { unfold map2. rewrite length_map, length_combine. unfold data. lia. }
    rewrite (nth_map_row _ _ _ 0) by lia.
    rewrite (nth_map2_row _ _ _ _ quat_zero quat_zero)
      by (unfold data; lia).
    unfold yaw_term, k4, dt. ring. }
  assert (Hadd : forall (a b : list R),
            length a = num_envs env -> length b = num_envs env ->
            nth i (map2 Rplus a b) 0 = nth i a 0 + nth i b 0).
  { intros a b Ha Hb. apply nth_map2_row; lia. }
  subst reward sums sums'. unfold _get_rewards. cbn [fst snd _episode_sums].
  fold data. split; [|split].
  - unfold sum_dim0. now rewrite length_map, length_seq.
  - unfold sum_dim0. rewrite nth_map_seq by assumption.
    cbn [map reward_keys sum_list fold_right].
    rewrite Hc1, Hc2, Hc3, Hc4. ring.
  - cbn [fold_left reward_keys]. unfold dict_set. cbn [Key.eqb].
    rewrite !Hadd; rewrite ?Hc1, ?Hc2, ?Hc3, ?Hc4; auto;
      rewrite ?length_map; unfold map2;
      rewrite ?length_map, ?length_combine; unfold data; lia.
Qed.

(** *** Indexed assignment *)

Lemma modify_at_length {A : Type} (i : nat) (f : A -> A) (t : list A) :
  length (modify_at i f t) = length t.
Proof.
  revert i. induction t as [|a t IH]; intros [|i]; cbn; auto.
Qed.

Lemma modify_at_same {A : Type} (i : nat) (f : A -> A) (t : list A) :
  nth_error (modify_at i f t) i = option_map f (nth_error t i).
Proof.
  revert i. induction t as [|a t IH]; intros [|i]; cbn; auto.
Qed.

Lemma modify_at_other {A : Type} (i j : nat) (f : A -> A) (t : list A) :
  i <> j -> nth_error (modify_at i f t) j = nth_error t j.
Proof.
  revert i j. induction t as [|a t IH]; intros [|i] [|j] Hij; cbn; auto;
    congruence.
Qed.

Lemma index_put_length {A B : Type} (upd : A -> B -> A) (t : list A)
    (ids : list nat) (vals : list B) :
  length (index_put upd t ids vals) = length t.
Proof.
  revert t vals. induction ids as [|i ids IH]; intros t [|v vals]; cbn; auto.
  now rewrite IH, modify_at_length.
Qed.

(** Rows that are not indexed keep their value. *)
Lemma index_put_other {A B : Type} (upd : A -> B -> A) (t : list A)
    (ids : list nat) (vals : list B) (i : nat) :
  ~ In i ids ->
  nth_error (index_put upd t ids vals) i = nth_error t i.
Proof.
  revert t vals. induction ids as [|k ids IH]; intros t [|v vals] Hi; cbn;
    auto.
  rewrite IH by (intros H; apply Hi; now right).
  apply modify_at_other. intros ->. apply Hi. now left.
Qed.

(** The row indexed at position [j] is updated from the [j]-th value. *)
Lemma index_put_row {A B : Type} (upd : A -> B -> A) (t : list A)
    (ids : list nat) (vals : list B) (j i : nat) (v : B) :
  NoDup ids ->
  nth_error ids j = Some i -> nth_error vals j = Some v ->
  nth_error (index_put upd t ids vals) i
  = option_map (fun a => upd a v) (nth_error t i).
Proof.
  revert t vals j.
  induction ids as [|k ids IH]; intros t vals j Hnd Hi Hv.
  - destruct j; discriminate.
  - inversion Hnd as [|? ? Hk Hnd']; subst.
    destruct vals as [|w vals]; [destruct j; discriminate|].
    cbn [index_put]. destruct j as [|j]; cbn [nth_error] in Hi, Hv.
    + injection Hi as ->. injection Hv as ->.
      rewrite index_put_other by assumption. apply modify_at_same.
    + rewrite (IH _ _ j Hnd' Hi Hv). f_equal.
      apply modify_at_other. intros ->. apply Hk.
      eapply nth_error_In; eassumption.
Qed.

Lemma index_fill_other {A : Type} (t : list A) (ids : list nat) (c : A)
    (i : nat) :
  ~ In i ids -> nth_error (index_fill t ids c) i = nth_error t i.
Proof.
  apply index_put_other.
Qed.

Lemma index_fill_row {A : Type} (t : list A) (ids : list nat) (c : A)
    (i : nat) :
  NoDup ids -> In i ids -> (i < length t)%nat ->
  nth_error (index_fill t ids c) i = Some c.
Proof.
  intros Hnd Hin Hi. apply In_nth_error in Hin. destruct Hin as [j Hj].
  unfold index_fill. rewrite (index_put_row _ _ _ _ j i c Hnd Hj).
  - destruct (nth_error t i) eqn:E; [reflexivity|].
    apply nth_error_None in E. lia.
  - rewrite nth_error_map, Hj. reflexivity.
Qed.

(** *** Which environments a reset selects *)

Lemma valid_env_ids_length (env : QuadcopterWithYawEnv) (ids : list nat) :
  valid_env_ids env ids -> (length ids <= num_envs env)%nat.
Proof.
  intros [Hnd Hall]. rewrite <- (length_seq (num_envs env) 0).
  apply NoDup_incl_length; [assumption|].
  intros i Hi. rewrite Forall_forall in Hall. apply in_seq.
  specialize (Hall i Hi). lia.
Qed.

(** A set of environments that has as many members as the batch is the whole
    batch. *)
Lemma valid_env_ids_full (env : QuadcopterWithYawEnv) (ids : list nat)
    (i : nat) :
  valid_env_ids env ids -> length ids = num_envs env ->
  (i < num_envs env)%nat -> In i ids.
Proof.
  intros [Hnd Hall] Hlen Hi.
  assert (Hincl : incl (seq 0 (num_envs env)) ids).
  { apply NoDup_length_incl; [assumption | rewrite length_seq; lia |].
    intros k Hk. rewrite Forall_forall in Hall. apply in_seq.
    specialize (Hall k Hk). lia. }
  apply Hincl. apply in_seq. lia.
Qed.

(** The selected indices are distinct, inside the batch, and are the
    environments the call resets. *)
Lemma resolve_env_ids_spec (env : QuadcopterWithYawEnv)
    (env_ids : option (list nat)) :
  match env_ids with
  | None => True
  | Some ids => valid_env_ids env ids
  end ->
  valid_env_ids env (resolve_env_ids env env_ids)
  /\ (forall i, resets env env_ids i <-> In i (resolve_env_ids env env_ids)).
Proof.
  assert (Hall : valid_env_ids env (seq 0 (num_envs env))).
  { split; [apply seq_NoDup|]. apply Forall_forall. intros i Hi.
    apply in_seq in Hi. lia. }
  destruct env_ids as [ids|]; cbn [resolve_env_ids resets]; intros Hv.
  - destruct (Nat.eqb_spec (length ids) (num_envs env)) as [E|NE].
    + split; [assumption|]. intros i. rewrite in_seq. split.
      * intros Hi. destruct Hv as [_ Hlt]. rewrite Forall_forall in Hlt.
        specialize (Hlt i Hi). lia.
      * intros Hi. apply (valid_env_ids_full env); [assumption.. | lia].
    + split; [assumption | reflexivity].
  - split; [assumption|]. intros i. rewrite in_seq. lia.
Qed.

Lemma valid_env_ids_forallb (env : QuadcopterWithYawEnv) (ids : list nat) :
  valid_env_ids env ids ->
  forallb (fun i => (i <? num_envs env)%nat) ids = true.
Proof.
  intros [_ Hall]. apply forallb_forall. intros i Hi.
  rewrite Forall_forall in Hall. apply Nat.ltb_lt. now apply Hall.
Qed.

(** The logging loop zeroes the running sums of the selected environments,
    for every key. *)
Lemma flush_episode_sums_snd (s : R) (ids : list nat) (sums : RewardDict)
    (key : RewardKey) :
  snd (flush_episode_sums s ids sums) key = index_fill (sums key) ids 0.
Proof.
  unfold flush_episode_sums. cbn [fold_left reward_keys fst snd].
  unfold dict_set. destruct key; reflexivity.
Qed.

(** *** Reset: the environments left alone *)

(** C4.  A reset of a proper subset of the environments leaves the goal
    position, the goal yaw and its quaternion, the running sums, the step
    counter and the action row of every other environment as they were. *)
Theorem reset_leaves_other_environments (env : QuadcopterWithYawEnv)
    (ids : list nat) (rnd : Randomness) (i : nat) :
  valid_env_ids env ids -> (i < num_envs env)%nat -> ~ In i ids ->
  exists env',
    _reset_idx env (Some ids) rnd = inr env'
    /\ nth_error (_desired_pos_w env') i = nth_error (_desired_pos_w env) i
    /\ nth_error (_desired_yaw_w env') i = nth_error (_desired_yaw_w env) i
    /\ nth_error (_desired_yaw_quat env') i
       = nth_error (_desired_yaw_quat env) i
    /\ (forall key,
          nth_error (_episode_sums env' key) i
          = nth_error (_episode_sums env key) i)
    /\ nth_error (episode_length_buf env') i
       = nth_error (episode_length_buf env) i
    /\ nth_error (_actions env') i = nth_error (_actions env) i.
Proof.
  intros Hv Hi Hout.
  assert (Hlen : (length ids =? num_envs env)%nat = false).
  { apply Nat.eqb_neq. intros E. apply Hout.
    now apply (valid_env_ids_full env). }
  unfold _reset_idx. cbn [resolve_env_ids]. rewrite Hlen.
  rewrite (valid_env_ids_forallb env ids Hv). cbn [negb].
  cbv zeta. rewrite !Hlen. cbn [andb].
  eexists. split; [reflexivity|].
  cbn [_desired_pos_w _desired_yaw_w _desired_yaw_quat _episode_sums
       episode_length_buf _actions].
  repeat split.
  - now rewrite !index_put_other.
  - now rewrite index_put_other.
  - now rewrite !index_put_other.
  - intros key. rewrite flush_episode_sums_snd. now apply index_fill_other.
  - now apply index_fill_other.
  - now apply index_fill_other.
Qed.

(** *** Reset: the environments selected *)



Lemma nth_error_map_seq {A : Type} (f : nat -> A) (n j : nat) :
  (j < n)%nat -> nth_error (map f (seq 0 n)) j = Some (f j).
Proof.
  intros Hj. rewrite nth_error_map, nth_error_seq.
  replace (j <? n)%nat with true by (symmetry; now apply Nat.ltb_lt).
  reflexivity.
Qed.

Lemma nth_error_gather {A : Type} (d : A) (t : list A) (ids : list nat)
    (j i : nat) (a : A) :
  nth_error ids j = Some i -> nth_error t i = Some a ->
  nth_error (gather d t ids) j = Some a.
Proof.
  intros Hj Ha. unfold gather. rewrite nth_error_map, Hj. cbn [option_map].
  f_equal. now apply nth_error_nth.
Qed.

Lemma nth_error_map2 {A B C : Type} (f : A -> B -> C) (l1 : list A)
    (l2 : list B) (j : nat) (a : A) (b : B) :
  nth_error l1 j = Some a -> nth_error l2 j = Some b ->
  nth_error (map2 f l1 l2) j = Some (f a b).
Proof.
  unfold map2. revert l2 j.
  induction l1 as [|x l1 IH]; intros [|y l2] [|j] Ha Hb;
    try discriminate; cbn in *.
  - now injection Ha as ->; injection Hb as ->.
  - now apply IH.
Qed.

Lemma nth_error_in_range {A : Type} (l : list A) (i : nat) :
  (i < length l)%nat -> exists a, nth_error l i = Some a.
Proof.
  intros Hi. destruct (nth_error l i) as [a|] eqn:E; [now exists a|].
  apply nth_error_None in E. lia.
Qed.


(** The assignments to the goal yaw of a selected environment and to its
    quaternion. *)
Lemma reset_desired_yaw_row (yaws : list R) (quats : list Quat)
    (ids : list nat) (u : nat -> R) (j i : nat) (y0 : R) (q0 : Quat) :
  NoDup ids -> nth_error ids j = Some i ->
  nth_error yaws i = Some y0 -> nth_error quats i = Some q0 ->
  let rows := seq 0 (length ids) in
  let yaws' :=
    index_put put_row yaws ids (map (fun j => uniform_ 0 6.28 (u j)) rows) in
  let quats1 :=
    index_put put_qw quats ids
      (map (fun y => cos (y / 2)) (gather 0 yaws' ids)) in
  let quats2 :=
    index_put put_qz quats1 ids
      (map (fun y => sin (y / 2)) (gather 0 yaws' ids)) in
  let yaw := uniform_ 0 6.28 (u j) in
  nth_error yaws' i = Some yaw
  /\ nth_error quats2 i
     = Some (mkQuat (cos (yaw / 2)) (qx q0) (qy q0) (sin (yaw / 2))).
Proof.
  intros Hnd Hj Hy Hq rows yaws' quats1 quats2 yaw.
  assert (Hjlt : (j < length ids)%nat)
    by (apply nth_error_Some; congruence).
  assert (H1 : nth_error yaws' i = Some yaw).
  { unfold yaws'. rewrite (index_put_row _ _ _ _ j i yaw Hnd Hj).
    - now rewrite Hy.
    - unfold rows. now rewrite nth_error_map_seq. }
  split; [exact H1|].
  assert (H2 : nth_error quats1 i = Some (put_qw q0 (cos (yaw / 2)))).
  { unfold quats1.
    rewrite (index_put_row _ _ _ _ j i (cos (yaw / 2)) Hnd Hj).
    - now rewrite Hq.
    - rewrite nth_error_map.
      now rewrite (nth_error_gather 0 yaws' ids j i yaw Hj H1). }
  unfold quats2. rewrite (index_put_row _ _ _ _ j i (sin (yaw / 2)) Hnd Hj).
  - now rewrite H2.
  - rewrite nth_error_map.
    now rewrite (nth_error_gather 0 yaws' ids j i yaw Hj H1).
Qed.


End QuadEnvFacts.

(** *** Concrete runs of the state machine *)

Lemma two_envs_well_formed : QuadEnv.well_formed QuadEnv.two_envs.
Proof.
  constructor; reflexivity.
Defined.


Lemma reward_is_sum_of_four_components_witness :
  QuadEnv.well_formed QuadEnv.two_envs
  /\ (0 < QuadEnv.num_envs QuadEnv.two_envs)%nat
  /\ length (fst (QuadEnv._get_rewards QuadEnv.two_envs)) = 2%nat
  /\ nth 0 (fst (QuadEnv._get_rewards QuadEnv.two_envs)) 0
     = - - (-0.01) * (QuadEnv.norm3 vec3_zero)² * 0.02
       + - - (-0.002) * (QuadEnv.norm3 vec3_zero)² * 0.02
       + 30 * (1 - tanh (QuadEnv.norm3
                           (QuadEnv.vec3_sub vec3_zero (mkVec3 0 0 1.0))
                         / 0.8)) * 0.02
       + 5 * (1 - QuadEnv.angular_diff (mkQuat 1 0 0 0) (mkQuat 1 0 0 0) / PI)
         * 0.02.
Proof.
  assert (Hi : (0 < QuadEnv.num_envs QuadEnv.two_envs)%nat) by (cbn; lia).
  destruct (reward_is_sum_of_four_components QuadEnv.two_envs 0
              two_envs_well_formed Hi) as [Hlen [Hr _]].
  exact (conj two_envs_well_formed (conj Hi (conj Hlen Hr))).
Defined.

Lemma env_1_valid : QuadEnv.valid_env_ids QuadEnv.two_envs [1%nat].
Proof.
  split.
  - constructor; [intros [] | constructor].
  - constructor; [cbn; lia | constructor].
Defined.




Lemma reset_leaves_other_environments_witness :
  QuadEnv.valid_env_ids QuadEnv.two_envs [1%nat]
  /\ (0 < QuadEnv.num_envs QuadEnv.two_envs)%nat
  /\ ~ In 0%nat [1%nat]
  /\ exists env',
       QuadEnv._reset_idx QuadEnv.two_envs (Some [1%nat]) QuadEnv.half_draws
       = inr env'
       /\ nth_error (QuadEnv._desired_pos_w env') 0 = Some vec3_zero
       /\ nth_error (QuadEnv.episode_length_buf env') 0 = Some 0%Z.
Proof.
  assert (Hi : (0 < QuadEnv.num_envs QuadEnv.two_envs)%nat) by (cbn; lia).
  assert (Hout : ~ In 0%nat [1%nat]) by (intros [H|[]]; discriminate).
  destruct (reset_leaves_other_environments QuadEnv.two_envs [1%nat]
              QuadEnv.half_draws 0 env_1_valid Hi Hout)
    as [env' [Hrun [Hpos [_ [_ [_ [Hlen _]]]]]]].
  refine (conj env_1_valid (conj Hi (conj Hout _))).
  exists env'. exact (conj Hrun (conj Hpos Hlen)).
Defined.

Lemma died_iff_outside_altitude_band_witness :
  nth_error (QuadEnv.root_pos_w (QuadEnv.robot_data QuadEnv.two_envs)) 1
  = Some (mkVec3 5 0 0.05)
  /\ nth_error (fst (QuadEnv._get_dones QuadEnv.two_envs)) 1 = Some true.
Proof.
  split; [reflexivity|].
  destruct (died_iff_outside_altitude_band QuadEnv.two_envs 1
              (mkVec3 5 0 0.05) eq_refl) as [died [Hd [_ [Hlow _]]]].
  rewrite Hd. f_equal. apply Hlow. reflexivity.
Defined.

Lemma time_out_iff_counter_reached_limit_witness :
  nth_error (QuadEnv.episode_length_buf QuadEnv.two_envs) 1 = Some 499%Z
  /\ nth_error (snd (QuadEnv._get_dones QuadEnv.two_envs)) 1 = Some true
  /\ nth_error (snd (QuadEnv._get_dones QuadEnv.two_envs)) 0 = Some false.
Proof.
  split; [reflexivity|].
  destruct (time_out_iff_counter_reached_limit QuadEnv.two_envs 1 499
              eq_refl) as [t1 [H1 [_ [_ Hat]]]].
  destruct (time_out_iff_counter_reached_limit QuadEnv.two_envs 0 0
              eq_refl) as [t0 [H0 [_ [Hbelow _]]]].
  split.
  - rewrite H1. f_equal. apply Hat. reflexivity.
  - rewrite H0. f_equal. apply Hbelow. reflexivity.
Defined.

Lemma identity_quat_unit : QuadEnv.norm4 (mkQuat 1 0 0 0) = 1.
Proof.
  unfold QuadEnv.norm4, QuadEnv.sum_square4. cbn [qw qx qy qz].
  replace (1 * 1 + 0 * 0 + 0 * 0 + 0 * 0) with 1 by ring. apply sqrt_1.
Defined.

Lemma angular_diff_symmetric_bounded_witness :
  QuadEnv.norm4 (mkQuat 1 0 0 0) = 1
  /\ QuadEnv.angular_diff (mkQuat 1 0 0 0) (mkQuat 1 0 0 0) = 0.
Proof.
  split; [exact identity_quat_unit|].
  destruct (angular_diff_symmetric_bounded (mkQuat 1 0 0 0) (mkQuat 1 0 0 0)
              identity_quat_unit identity_quat_unit) as [_ [_ [Heq _]]].
  exact (Heq eq_refl).
Defined.

(** * Further properties of the data-generation script *)

Section SamplerMoreFacts.

Import Sampler.

Variable quat_to_euler_angles : Quat -> Vec3.

Local Abbreviation visit_sample := (Sampler.visit_sample quat_to_euler_angles).
Local Abbreviation replay := (Sampler.replay quat_to_euler_angles).
Local Abbreviation process_group :=
  (Sampler.process_group quat_to_euler_angles).

(** *** The sign of the interval *)

Lemma divides_counter_opp (interval c : Z) :
  divides_counter (- interval) c = divides_counter interval c.
Proof.
  unfold divides_counter.
  destruct (Z.eq_dec interval 0) as [->|Hi]; [reflexivity|].
  apply eq_true_iff_eq. rewrite !Z.eqb_eq.
  rewrite !Z.mod_divide by lia. split; intros [k Hk]; exists (- k)%Z; lia.
Qed.

Lemma replay_opp (t : Trajectory) (interval rt : Z) (cs : list Z) :
  replay t (- interval) rt cs = replay t interval rt cs.
Proof.
  induction cs as [|c cs IH]; [reflexivity|].
  cbn [Sampler.replay]. unfold py_mod.
  replace (- interval =? 0)%Z with (interval =? 0)%Z
    by (destruct (Z.eqb_spec interval 0), (Z.eqb_spec (- interval) 0);
        auto; lia).
  destruct (interval =? 0)%Z; [reflexivity|].
  fold (divides_counter (- interval) c). fold (divides_counter interval c).
  rewrite divides_counter_opp, IH. reflexivity.
Qed.

(** X1.  Only the magnitude of the sampling interval matters: two
    configurations whose intervals are opposite give the same run. *)
Theorem process_group_ignores_interval_sign (group_num : Z)
    (db : TrajectoryDatabase) (config config' : Config) (rt : Z) :
  get_sample_interval config' = (- get_sample_interval config)%Z ->
  process_group group_num db config' rt = process_group group_num db config rt.
Proof.
  intros Hi. unfold Sampler.process_group.
  destruct (getTrajectory db group_num) as [e|t]; [reflexivity|].
  rewrite Hi. apply replay_opp.
Qed.

(** *** What a visit carries *)



(** *** The time steps of a run *)

(** The [dt] of the visits, from their counters. *)
Lemma visits_delta_time (t : Trajectory) (rt : Z) (vs : list Visit) :
  Forall (fun v => exists n,
            sample_counter v = Z.of_nat n /\ (n < length t)%nat
            /\ visit_sample t rt (Z.of_nat n) = inr v) vs ->
  map delta_time vs
  = map (fun c => next_timestamp (getTimestamp t) (Z.to_nat c)
                  - nth (Z.to_nat c) (getTimestamp t) 0)
      (map sample_counter vs).
Proof.
  induction 1 as [|v vs [n [Hc [Hn Hvis]]] _ IH]; [reflexivity|].
  cbn [map]. rewrite IH. f_equal.
  destruct (visit_sample_values quat_to_euler_angles t rt n v Hn Hvis) as [_ [Hdt _]].
  now rewrite Hc, Nat2Z.id.
Qed.

Lemma next_timestamp_cons (a : R) (ts : list R) (n : nat) :
  ts <> [] -> next_timestamp (a :: ts) (S n) = next_timestamp ts n.
Proof.
  intros Hne. unfold next_timestamp. cbn [length nth].
  destruct ts as [|b ts]; [congruence|]. reflexivity.
Qed.

(** The steps to the next sample telescope over the whole trajectory. *)
Lemma delta_time_telescopes (a : R) (ts : list R) :
  QuadEnv.sum_list
    (map (fun n => next_timestamp (a :: ts) n - nth n (a :: ts) 0)
       (seq 0 (length (a :: ts))))
  = last (a :: ts) 0 - a.
Proof.
  revert a. induction ts as [|b ts IH]; intros a.
  - cbn. unfold next_timestamp. cbn. lra.
  - change (length (a :: b :: ts)) with (S (length (b :: ts))).
    cbn [seq map QuadEnv.sum_list fold_right].
    rewrite <- seq_shift, map_map.
    rewrite (map_ext
               (fun n => next_timestamp (a :: b :: ts) (S n)
                         - nth (S n) (a :: b :: ts) 0)
               (fun n => next_timestamp (b :: ts) n - nth n (b :: ts) 0))
      by (intros n; rewrite next_timestamp_cons by discriminate;
          reflexivity).
    fold (QuadEnv.sum_list
            (map (fun n => next_timestamp (b :: ts) n - nth n (b :: ts) 0)
               (seq 0 (length (b :: ts))))).
    rewrite IH. unfold next_timestamp at 1.
    cbn [length Nat.ltb Nat.leb nth].
    change (last (a :: b :: ts) 0) with (last (b :: ts) 0). lra.
Qed.

Lemma filter_divides_one (cs : list Z) :
  filter (divides_counter 1) cs = cs.
Proof.
  induction cs as [|c cs IH]; [reflexivity|].
  cbn [filter]. unfold divides_counter at 1.
  rewrite Z.mod_1_r. cbn. now rewrite IH.
Qed.

(** X3.  At interval 1 every sample is visited, and the time steps handed to
    the stepper add up to the span of the trajectory, from the first
    timestamp to the last. *)
Theorem interval_one_replays_the_whole_span (group_num : Z)
    (db : TrajectoryDatabase) (config : Config) (rt : Z) (t : Trajectory) :
  getTrajectory db group_num = inr t ->
  get_sample_interval config = 1%Z ->
  let run := process_group group_num db config rt in
  let ts := getTimestamp t in
  snd run = None
  /\ map sample_counter (fst run) = py_range (length t)
  /\ QuadEnv.sum_list (map delta_time (fst run)) = last ts 0 - hd 0 ts.
Proof.
  intros Ht Hi run ts.
  destruct (process_group_visits quat_to_euler_angles group_num db config rt t Ht ltac:(lia))
    as [vs [Hrun [Hm Hv]]].
  subst run. rewrite Hrun. cbn [fst snd].
  rewrite Hi, filter_divides_one in Hm.
  split; [reflexivity|]. split; [exact Hm|].
  rewrite (visits_delta_time t rt vs Hv), Hm.
  unfold py_range. rewrite map_map.
  rewrite (map_ext _ (fun n => next_timestamp ts n - nth n ts 0))
    by (intros n; now rewrite Nat2Z.id).
  replace (length t) with (length ts) by apply length_map.
  destruct ts as [|a ts']; [cbn; lra|].
  rewrite delta_time_telescopes. reflexivity.
Qed.

(** X4.  When the timestamps strictly increase, the stepper is never asked to
    step backwards: every [dt] is non-negative, and it is zero exactly at the
    final sample of the trajectory. *)
Theorem delta_time_nonnegative (group_num : Z)
    (db : TrajectoryDatabase) (config : Config) (rt : Z) (t : Trajectory) :
  getTrajectory db group_num = inr t ->
  strictly_increasing (getTimestamp t) ->
  forall v, In v (fst (process_group group_num db config rt)) ->
    0 <= delta_time v
    /\ (delta_time v = 0 <-> sample_counter v = (Z.of_nat (length t) - 1)%Z).
Proof.
  intros Ht Hts v Hin.
  destruct (Z.eq_dec (get_sample_interval config) 0) as [H0|Hi].
  { rewrite (process_group_replay quat_to_euler_angles _ _ _ _ _ Ht), H0 in Hin.
    destruct (length t); cbn in Hin; destruct Hin. }
  destruct (process_group_visits quat_to_euler_angles group_num db config rt t Ht Hi)
    as [vs [Hrun [_ Hv]]].
  rewrite Hrun in Hin. cbn [fst] in Hin. rewrite Forall_forall in Hv.
  destruct (Hv v Hin) as [n [Hc [Hn Hvis]]].
  destruct (visit_sample_values quat_to_euler_angles t rt n v Hn Hvis) as [_ [Hdt _]].
  assert (Hlen : length (getTimestamp t) = length t) by apply length_map.
  unfold next_timestamp in Hdt. rewrite Hlen in Hdt.
  destruct (S n <? length t)%nat eqn:Hnext.
  - apply Nat.ltb_lt in Hnext.
    pose proof (strictly_increasing_nth (getTimestamp t) n (S n) Hts
                  ltac:(lia)).
    split; [lra|]. split; [lra | lia].
  - apply Nat.ltb_ge in Hnext. split; [lra|]. split; [lia | lra].
Qed.

(** *** Long intervals *)

(** X5.  With an interval at least as long as a non-empty trajectory, the run
    visits the first sample only. *)
Theorem long_interval_visits_first_sample_only (group_num : Z)
    (db : TrajectoryDatabase) (config : Config) (rt : Z) (t : Trajectory) :
  getTrajectory db group_num = inr t ->
  t <> [] ->
  (Z.of_nat (length t) <= get_sample_interval config)%Z ->
  let run := process_group group_num db config rt in
  snd run = None /\ map sample_counter (fst run) = [0%Z].
Proof.
  intros Ht Hne Hi run.
  assert (Hlen : (0 < length t)%nat)
    by (destruct t; [congruence | cbn; lia]).
  destruct (process_group_visits quat_to_euler_angles group_num db config rt t Ht ltac:(lia))
    as [vs [Hrun [Hm _]]].
  subst run. rewrite Hrun. cbn [fst snd]. split; [reflexivity|].
  rewrite Hm, filter_multiples by lia.
  replace (ceil_div (Z.of_nat (length t)) (get_sample_interval config))
    with 1%Z; [reflexivity|].
  unfold ceil_div. apply (Z.div_unique_pos _ _ _ (Z.of_nat (length t) - 1));
    lia.
Qed.

End SamplerMoreFacts.

Section MainFacts.

Import Sampler SdgScript.

Variable quat_to_euler_angles : Quat -> Vec3.

Local Abbreviation replay_group :=
  (Sampler.process_group quat_to_euler_angles).
Local Abbreviation whole_group :=
  (SdgScript.process_group quat_to_euler_angles).
Local Abbreviation main_loop := (SdgScript.main_loop quat_to_euler_angles).
Local Abbreviation main := (SdgScript.main quat_to_euler_angles).

Lemma getTrajectory_in_range (db : TrajectoryDatabase) (g : Z) :
  (0 <= g < Z.of_nat (length db))%Z ->
  getTrajectory db g = inr (nth (Z.to_nat g) db []).
Proof.
  intros Hg. unfold getTrajectory.
  replace (0 <=? g)%Z with true by (symmetry; apply Z.leb_le; lia).
  replace (g <? Z.of_nat (length db))%Z with true
    by (symmetry; apply Z.ltb_lt; lia).
  cbn [andb]. destruct (nth_error db (Z.to_nat g)) as [t|] eqn:E.
  - now rewrite (nth_error_nth db _ [] E).
  - apply nth_error_None in E. lia.
Qed.

(** The writer parameters of a group, for a writer configuration that holds
    an output directory. *)
Lemma writer_kwargs_of_output_dir (config writer_config : Dict)
    (output_dir : string) (g : Z) :
  dict_get config "writer_config" = Some (VDict writer_config) ->
  dict_get writer_config "output_dir" = Some (VStr output_dir) ->
  writer_kwargs config g
  = inr (dict_setitem writer_config "output_dir"
           (VStr (path_join output_dir (group_dir g)))).
Proof.
  intros Hw Ho. unfold writer_kwargs. now rewrite Hw, Ho.
Qed.

(** After a writer set-up that succeeds, and for an integer interval, the
    group is replayed as by the loop of the sampler. *)
Lemma process_group_integer_interval (db : TrajectoryDatabase)
    (config : Dict) (rt g : Z) (kwargs : Dict) (interval : Z) :
  writer_kwargs config g = inr kwargs ->
  integer_interval config = Some interval ->
  whole_group g db config rt
  = (mkGroupRun g (Some kwargs)
       (fst (replay_group g db (mkConfig (Some interval)) rt)),
     option_map inr (snd (replay_group g db (mkConfig (Some interval)) rt))).
Proof.
  intros Hk Hi. unfold SdgScript.process_group, Sampler.process_group.
  rewrite Hk. destruct (getTrajectory db g) as [e|t]; [reflexivity|].
  unfold integer_interval in Hi. cbn [get_sample_interval sample_interval].
  destruct (dict_get config "sample_interval") as [[]|];
    try discriminate; injection Hi as <-; reflexivity.
Qed.

Lemma main_loop_completes (db : TrajectoryDatabase) (config : Dict)
    (rt : Z) (writer_config : Dict) (output_dir : string) (interval : Z)
    (groups : list Z) :
  dict_get config "writer_config" = Some (VDict writer_config) ->
  dict_get writer_config "output_dir" = Some (VStr output_dir) ->
  integer_interval config = Some interval ->
  interval <> 0%Z ->
  Forall (fun g => (0 <= g < Z.of_nat (length db))%Z) groups ->
  let run := main_loop db config rt groups in
  snd run = None
  /\ map group (fst run) = groups
  /\ Forall (fun done => exists t,
               getTrajectory db (group done) = inr t
               /\ whole_group (group done) db config rt = (done, None)
               /\ writer_parameters done
                  = Some (dict_setitem writer_config "output_dir"
                            (VStr (path_join output_dir
                                     (group_dir (group done)))))
               /\ map sample_counter (visits done)
                  = filter (divides_counter interval) (py_range (length t))
               /\ Forall (fun v => exists n,
                            sample_counter v = Z.of_nat n
                            /\ (n < length t)%nat
                            /\ visit_sample quat_to_euler_angles t rt
                                 (Z.of_nat n) = inr v) (visits done))
       (fst run).
Proof.
  intros Hw Ho Hint Hi Hgs.
  induction Hgs as [|g groups Hg _ IH]; cbn zeta.
  - cbn. auto.
  - cbn [SdgScript.main_loop].
    pose proof (getTrajectory_in_range db g Hg) as Ht.
    pose proof (writer_kwargs_of_output_dir config writer_config output_dir
                  g Hw Ho) as Hk.
    pose proof (process_group_integer_interval db config rt g _ interval
                  Hk Hint) as Hwhole.
    destruct (process_group_visits quat_to_euler_angles g db
                (mkConfig (Some interval)) rt _ Ht Hi) as [vs [Hrun [Hm Hv]]].
    rewrite Hrun in Hwhole. cbn [fst snd option_map] in Hwhole.
    rewrite Hwhole.
    destruct (main_loop db config rt groups) as [more e'] eqn:Hmore.
    cbn [fst snd] in IH |- *. destruct IH as [He [Hfst Hall]].
    split; [assumption|]. split; [cbn; now rewrite Hfst|].
    constructor; [|assumption]. cbn [group writer_parameters visits].
    exists (nth (Z.to_nat g) db []).
    split; [exact Ht|]. split; [exact Hwhole|]. split; [reflexivity|].
    split; [exact Hm | exact Hv].
Qed.

(** X6.  For a configuration whose writer parameters hold an output
    directory and whose interval is a non-zero integer, [main] completes: it
    processes every group of the store once, in order; the writer of each
    group is set up with the writer parameters and the sub-directory of the
    group as output directory; each group's run completes, and its visits
    are the loop body at the counters of its own trajectory that the interval
    divides. *)
Theorem main_processes_every_group (db : TrajectoryDatabase)
    (config : Dict) (rt : Z) (writer_config : Dict) (output_dir : string)
    (interval : Z) :
  dict_get config "writer_config" = Some (VDict writer_config) ->
  dict_get writer_config "output_dir" = Some (VStr output_dir) ->
  integer_interval config = Some interval ->
  interval <> 0%Z ->
  let run := main db config rt in
  snd run = None
  /\ map group (fst run) = py_range (length db)
  /\ Forall (fun done => exists t,
               getTrajectory db (group done) = inr t
               /\ whole_group (group done) db config rt = (done, None)
               /\ writer_parameters done
                  = Some (dict_setitem writer_config "output_dir"
                            (VStr (path_join output_dir
                                     (group_dir (group done)))))
               /\ map sample_counter (visits done)
                  = filter (divides_counter interval) (py_range (length t))
               /\ Forall (fun v => exists n,
                            sample_counter v = Z.of_nat n
                            /\ (n < length t)%nat
                            /\ visit_sample quat_to_euler_angles t rt
                                 (Z.of_nat n) = inr v) (visits done))
       (fst run).
Proof.
  intros Hw Ho Hint Hi.
  apply (main_loop_completes db config rt writer_config output_dir interval);
    try assumption.
  apply py_range_in_range.
Qed.

Lemma process_group_zero_interval (db : TrajectoryDatabase)
    (config : Dict) (rt : Z) (g : Z) (kwargs : Dict) :
  writer_kwargs config g = inr kwargs ->
  integer_interval config = Some 0%Z ->
  (0 <= g < Z.of_nat (length db))%Z ->
  whole_group g db config rt
  = (mkGroupRun g (Some kwargs) [],
     match nth (Z.to_nat g) db [] with
     | [] => None
     | _ :: _ => Some (inr ZeroDivisionError)
     end).
Proof.
  intros Hk H0 Hg.
  rewrite (process_group_integer_interval db config rt g kwargs 0 Hk H0).
  rewrite (process_group_replay quat_to_euler_angles _ _ _ _ _
             (getTrajectory_in_range db g Hg)).
  cbn [get_sample_interval sample_interval].
  destruct (nth (Z.to_nat g) db []); reflexivity.
Qed.

Lemma skipn_nth_cons {A : Type} (l : list A) (a : nat) (d : A) :
  (a < length l)%nat -> skipn a l = nth a l d :: skipn (S a) l.
Proof.
  revert a. induction l as [|x l IH]; intros a Ha; [cbn in Ha; lia|].
  destruct a as [|a]; [reflexivity|].
  cbn [skipn nth]. apply IH. cbn in Ha. lia.
Qed.

Lemma empty_prefix_spec (db : TrajectoryDatabase) :
  (forall i, (i < empty_prefix db)%nat -> nth_error db i = Some [])
  /\ nth_error db (empty_prefix db) <> Some [].
Proof.
  induction db as [|t db [IH1 IH2]]; cbn [empty_prefix].
  - split; [intros i Hi; lia | discriminate].
  - destruct t as [|s t].
    + split; [|exact IH2].
      intros [|i] Hi; [reflexivity|]. cbn [nth_error]. apply IH1. lia.
    + split; [intros i Hi; lia | discriminate].
Qed.

Lemma main_loop_zero_interval (db : TrajectoryDatabase) (config : Dict)
    (rt : Z) (writer_config : Dict) (output_dir : string) (n a : nat) :
  dict_get config "writer_config" = Some (VDict writer_config) ->
  dict_get writer_config "output_dir" = Some (VStr output_dir) ->
  integer_interval config = Some 0%Z ->
  (a + n <= length db)%nat ->
  let run := main_loop db config rt (map Z.of_nat (seq a n)) in
  let k := empty_prefix (skipn a db) in
  map group (fst run) = map Z.of_nat (seq a (Nat.min (S k) n))
  /\ Forall (fun done => visits done = []) (fst run)
  /\ snd run
     = if (k <? n)%nat then Some (inr ZeroDivisionError) else None.
Proof.
  intros Hw Ho H0. revert a.
  induction n as [|n IH]; intros a Ha; cbn zeta.
  - rewrite Nat.min_0_r. cbn. auto.
  - cbn [seq map SdgScript.main_loop].
    rewrite (process_group_zero_interval db config rt (Z.of_nat a) _
               (writer_kwargs_of_output_dir config writer_config output_dir
                  _ Hw Ho) H0 ltac:(lia)).
    rewrite Nat2Z.id, (skipn_nth_cons db a []) by lia.
    destruct (nth a db []) as [|s t]; cbn [empty_prefix].
    + specialize (IH (S a) ltac:(lia)). cbn zeta in IH.
      destruct (main_loop db config rt (map Z.of_nat (seq (S a) n)))
        as [more e'].
      cbn [fst snd] in IH |- *. destruct IH as [Hg [Hv He]].
      split; [|split].
      * rewrite <- Nat.succ_min_distr. cbn [seq map group]. now rewrite Hg.
      * constructor; [reflexivity | exact Hv].
      * exact He.
    + cbn [fst snd map group]. split; [reflexivity|].
      split; [repeat constructor | reflexivity].
Qed.

(** X7.  For a configuration whose writer parameters hold an output
    directory and whose interval is 0, [main] never makes a visit.  It
    processes the groups in order up to the first one whose trajectory is
    not empty, stops there with a division by zero, and leaves the later
    groups unprocessed; when every trajectory of the store is empty it
    processes them all and completes. *)
Theorem main_with_zero_interval (db : TrajectoryDatabase)
    (config : Dict) (rt : Z) (writer_config : Dict) (output_dir : string) :
  dict_get config "writer_config" = Some (VDict writer_config) ->
  dict_get writer_config "output_dir" = Some (VStr output_dir) ->
  integer_interval config = Some 0%Z ->
  let run := main db config rt in
  let k := empty_prefix db in
  (forall i, (i < k)%nat -> nth_error db i = Some [])
  /\ nth_error db k <> Some []
  /\ map group (fst run) = py_range (Nat.min (S k) (length db))
  /\ Forall (fun done => visits done = []) (fst run)
  /\ snd run
     = if (k <? length db)%nat then Some (inr ZeroDivisionError) else None.
Proof.
  intros Hw Ho H0 run k.
  destruct (empty_prefix_spec db) as [Hempty Hfirst].
  split; [exact Hempty|]. split; [exact Hfirst|].
  exact (main_loop_zero_interval db config rt writer_config output_dir
           (length db) 0 Hw Ho H0 (Nat.le_refl _)).
Qed.

End MainFacts.

(** *** The configuration dictionary *)

Section ConfigFacts.

Import SdgScript.

Lemma dict_get_setitem_same (d : Dict) (key : string) (v : Value) :
  dict_get (dict_setitem d key v) key = Some v.
Proof.
  induction d as [|[k x] d IH]; cbn.
  - now rewrite String.eqb_refl.
  - destruct (String.eqb_spec k key) as [->|Hne]; cbn.
    + now rewrite String.eqb_refl.
    + apply String.eqb_neq in Hne. now rewrite Hne.
Qed.

Lemma dict_get_setitem_other (d : Dict) (key key' : string) (v : Value) :
  key <> key' ->
  dict_get (dict_setitem d key v) key' = dict_get d key'.
Proof.
  intros Hne. induction d as [|[k x] d IH]; cbn.
  - apply String.eqb_neq in Hne. now rewrite Hne.
  - destruct (String.eqb_spec k key) as [->|Hk]; cbn.
    + apply String.eqb_neq in Hne. now rewrite Hne.
    + now rewrite IH.
Qed.

Lemma dict_get_None (d : Dict) (key : string) :
  dict_get d key = None <-> ~ In key (keys d).
Proof.
  induction d as [|[k x] d IH]; cbn.
  - tauto.
  - destruct (String.eqb_spec k key) as [->|Hk].
    + split; [discriminate | intros H; exfalso; apply H; now left].
    + rewrite IH. tauto.
Qed.

(** A lookup after [update]: the other dictionary wins. *)
Lemma dict_get_update (d other : Dict) (key : string) :
  NoDup (keys other) ->
  dict_get (dict_update d other) key
  = match dict_get other key with
    | Some v => Some v
    | None => dict_get d key
    end.
Proof.
  unfold dict_update. revert d.
  induction other as [|[k v] other IH]; intros d Hnd; [reflexivity|].
  cbn [keys map fst] in Hnd. inversion Hnd as [|? ? Hk Hnd']; subst.
  cbn [fold_left fst snd dict_get]. rewrite (IH _ Hnd').
  destruct (String.eqb_spec k key) as [->|Hne].
  - apply dict_get_None in Hk. rewrite Hk. apply dict_get_setitem_same.
  - now rewrite dict_get_setitem_other.
Qed.

Lemma dict_setitem_twice (d : Dict) (key : string) (x y : Value) :
  dict_setitem (dict_setitem d key x) key y = dict_setitem d key y.
Proof.
  induction d as [|[k v] d IH]; cbn.
  - now rewrite String.eqb_refl.
  - destruct (String.eqb_spec k key) as [->|Hk]; cbn.
    + now rewrite String.eqb_refl.
    + apply String.eqb_neq in Hk. now rewrite Hk, IH.
Qed.

Lemma dict_setitem_commute (d : Dict) (key key' : string) (x y : Value) :
  key <> key' -> dict_get d key <> None ->
  dict_setitem (dict_setitem d key x) key' y
  = dict_setitem (dict_setitem d key' y) key x.
Proof.
  intros Hne. induction d as [|[k v] d IH]; cbn; intros Hin; [congruence|].
  destruct (String.eqb_spec k key) as [->|Hk].
  - assert (E : String.eqb key key' = false) by now apply String.eqb_neq.
    cbn. rewrite E. cbn. now rewrite String.eqb_refl.
  - destruct (String.eqb_spec k key') as [->|Hk']; cbn.
    + rewrite String.eqb_refl.
      assert (E : String.eqb key' key = false) by now apply String.eqb_neq.
      now rewrite E.
    + apply String.eqb_neq in Hk, Hk'. rewrite Hk, Hk'. now rewrite IH.
Qed.

(** Overwriting a key that [update] sets anyway changes nothing. *)
Lemma dict_update_overwritten (d other : Dict) (key : string) (x : Value) :
  dict_get d key <> None -> In key (keys other) ->
  dict_update (dict_setitem d key x) other = dict_update d other.
Proof.
  unfold dict_update. revert d.
  induction other as [|[k v] other IH]; intros d Hd Hin; [destruct Hin|].
  cbn [fold_left fst snd].
  destruct (String.eqb_spec k key) as [->|Hne].
  - now rewrite dict_setitem_twice.
  - destruct Hin as [E|Hin]; [cbn in E; congruence|].
    rewrite dict_setitem_commute by (assumption || congruence).
    apply IH; [|assumption].
    rewrite dict_get_setitem_other by assumption. exact Hd.
Qed.

(** X8.  After the merge, every key of the file maps to the file's value,
    whole (nested dictionaries are replaced, not merged), every other key
    keeps the value of [config], and no key of [config] is lost. *)
Theorem merge_config_lookup (config args_config merged : Dict) :
  NoDup (keys args_config) ->
  merge_config config args_config = inr merged ->
  (forall key v,
     dict_get args_config key = Some v -> dict_get merged key = Some v)
  /\ (forall key,
        dict_get args_config key = None ->
        dict_get merged key = dict_get config key)
  /\ (forall key, dict_get config key <> None -> dict_get merged key <> None).
Proof.
  intros Hnd Hm.
  assert (Hother : forall key,
            dict_get args_config key = None ->
            dict_get merged key = dict_get config key).
  { intros key Hk. unfold merge_config, dict_contains in Hm.
    destruct (dict_get args_config "writer_config") as [w|] eqn:Hw.
    - assert (Hne : "writer_config"%string <> key) by congruence.
      unfold clear_writer_config in Hm.
      destruct (dict_get config "writer_config") as [[]|];
        try discriminate; injection Hm as <-;
        rewrite dict_get_update, Hk by assumption;
        now apply dict_get_setitem_other.
    - injection Hm as <-. now rewrite dict_get_update, Hk. }
  assert (Hfile : forall key v,
            dict_get args_config key = Some v -> dict_get merged key = Some v).
  { intros key v Hk. unfold merge_config in Hm.
    destruct (dict_contains args_config "writer_config").
    - destruct (clear_writer_config config); [discriminate|].
      injection Hm as <-. now rewrite dict_get_update, Hk.
    - injection Hm as <-. now rewrite dict_get_update, Hk. }
  repeat split; try assumption.
  intros key Hc. destruct (dict_get args_config key) as [v|] eqn:Hk.
  - rewrite (Hfile key v Hk). discriminate.
  - now rewrite (Hother key Hk).
Qed.

(** X9.  Clearing the default writer parameters never changes the outcome:
    whenever the merge succeeds, its result is that of [config.update]
    alone. *)
Theorem merge_config_is_update (config args_config merged : Dict) :
  merge_config config args_config = inr merged ->
  merged = dict_update config args_config.
Proof.
  unfold merge_config, dict_contains.
  destruct (dict_get args_config "writer_config") as [w|] eqn:Hw;
    [|now intros [= <-]].
  assert (Hin : In "writer_config"%string (keys args_config)).
  { destruct (in_dec string_dec "writer_config"%string (keys args_config))
      as [H|H]; [assumption|].
    apply dict_get_None in H. congruence. }
  unfold clear_writer_config.
  destruct (dict_get config "writer_config") as [v|] eqn:Hc; [|discriminate].
  assert (Hd : dict_get config "writer_config" <> None) by congruence.
  destruct v; try discriminate; intros [= <-];
    now apply dict_update_overwritten.
Qed.

End ConfigFacts.

(** *** The writer of a group *)

Section WriterFacts.

Import SdgScript.

Lemma append_cancel_l (a x y : string) :
  (a ++ x)%string = (a ++ y)%string -> x = y.
Proof.
  induction a as [|c a IH]; cbn; [auto|]. intros [= H]. auto.
Qed.

Lemma to_int_not_nil (z : Z) :
  Z.to_int z <> Decimal.Pos Decimal.Nil
  /\ Z.to_int z <> Decimal.Neg Decimal.Nil.
Proof.
  destruct z as [|p|p]; cbn; split; try discriminate;
    intros [= H]; now apply (DecimalPos.Unsigned.to_uint_nonnil p).
Qed.

(** The decimal text of an integer determines it. *)
Lemma string_of_int_inj (a b : Z) :
  NilZero.string_of_int (Z.to_int a) = NilZero.string_of_int (Z.to_int b) ->
  a = b.
Proof.
  intros H. apply DecimalZ.to_int_inj.
  destruct (to_int_not_nil a) as [Ha1 Ha2].
  destruct (to_int_not_nil b) as [Hb1 Hb2].
  pose proof (NilZero.isi _ Ha1 Ha2) as Ia.
  pose proof (NilZero.isi _ Hb1 Hb2) as Ib.
  rewrite H in Ia. congruence.
Qed.

Lemma group_dir_inj (a b : Z) : group_dir a = group_dir b -> a = b.
Proof.
  unfold group_dir. intros H. apply append_cancel_l in H.
  now apply string_of_int_inj.
Qed.

Lemma path_join_group_dir_inj (dir : string) (a b : Z) :
  path_join dir (group_dir a) = path_join dir (group_dir b) -> a = b.
Proof.
  unfold path_join.
  assert (Hs : forall g, starts_with_sep (group_dir g) = false)
    by reflexivity.
  rewrite !Hs.
  destruct (String.eqb dir "" || ends_with_sep dir)%bool; intros H.
  - apply append_cancel_l in H. now apply group_dir_inj.
  - apply append_cancel_l in H. apply (append_cancel_l "/") in H.
    now apply group_dir_inj.
Qed.

Lemma keys_setitem_present (d : Dict) (key : string) (v : Value) :
  dict_get d key <> None -> keys (dict_setitem d key v) = keys d.
Proof.
  induction d as [|[k x] d IH]; cbn [dict_setitem dict_get]; [congruence|].
  destruct (String.eqb_spec k key) as [->|Hk]; intros H; unfold keys;
    cbn [map fst]; [reflexivity|].
  f_equal. now apply IH.
Qed.

(** X11.  When the writer parameters have a string [output_dir], the writer
    of a group gets the same parameters under the same keys, except that its
    output directory is the sub-directory of the group; two different groups
    never share an output directory. *)
Theorem writer_kwargs_per_group (config writer_config : Dict)
    (output_dir : string) :
  dict_get config "writer_config" = Some (VDict writer_config) ->
  dict_get writer_config "output_dir" = Some (VStr output_dir) ->
  (forall g, exists kwargs,
     writer_kwargs config g = inr kwargs
     /\ dict_get kwargs "output_dir"
        = Some (VStr (path_join output_dir (group_dir g)))
     /\ keys kwargs = keys writer_config
     /\ forall key, key <> "output_dir"%string ->
          dict_get kwargs key = dict_get writer_config key)
  /\ (forall g1 g2 k1 k2,
        writer_kwargs config g1 = inr k1 ->
        writer_kwargs config g2 = inr k2 ->
        g1 <> g2 ->
        dict_get k1 "output_dir" <> dict_get k2 "output_dir").
Proof.
  intros Hw Ho. split.
  - intros g. unfold writer_kwargs. rewrite Hw, Ho. eexists.
    split; [reflexivity|]. split; [apply dict_get_setitem_same|].
    split; [apply keys_setitem_present; congruence|].
    intros key Hk. apply dict_get_setitem_other. congruence.
  - intros g1 g2 k1 k2. unfold writer_kwargs. rewrite Hw, Ho.
    intros [= <-] [= <-] Hne. rewrite !dict_get_setitem_same.
    intros [= H]. apply Hne. eapply path_join_group_dir_inj. exact H.
Qed.

(** X12.  A configuration file that brings its own writer parameters without
    an [output_dir] is merged without complaint, and then the writer of every
    group fails on the missing key: the default output directory is not kept. *)
Theorem file_writer_config_needs_output_dir (args_config file_writer : Dict) :
  NoDup (keys args_config) ->
  dict_get args_config "writer_config" = Some (VDict file_writer) ->
  dict_get file_writer "output_dir" = None ->
  exists merged,
    merge_config default_config args_config = inr merged
    /\ dict_get merged "writer_config" = Some (VDict file_writer)
    /\ forall g,
         writer_kwargs merged g = inl (ScriptKeyError "output_dir").
Proof.
  intros Hnd Hw Ho. unfold merge_config, dict_contains. rewrite Hw.
  assert (Hc : clear_writer_config default_config
               = inr (dict_setitem default_config "writer_config" (VDict [])))
    by reflexivity.
  rewrite Hc. eexists. split; [reflexivity|].
  assert (Hm : dict_get
                 (dict_update
                    (dict_setitem default_config "writer_config" (VDict []))
                    args_config) "writer_config"
               = Some (VDict file_writer))
    by (rewrite (dict_get_update _ _ _ Hnd), Hw; reflexivity).
  split; [exact Hm|].
  intros g. unfold writer_kwargs. now rewrite Hm, Ho.
Qed.

End WriterFacts.

(** *** Cameras *)

Section CameraFacts.

Import SdgScript.

Variable quat_to_euler_angles : Quat -> Vec3.

Local Abbreviation create_camera :=
  (SdgScript.create_camera quat_to_euler_angles).
Local Abbreviation create_cameras :=
  (SdgScript.create_cameras quat_to_euler_angles).

Lemma create_camera_ok (c : CameraConfig) :
  required_key_present c = true ->
  exists kw,
    create_camera c = inr kw
    /\ kw_name kw = name c /\ product_name kw = name c
    /\ product_resolution kw = resolution c
    /\ kw_position kw = position c
    /\ kw_rotation kw
       = vec3_scale (quat_to_euler_angles (quaternion c)) (180 / PI)
    /\ (camera_model c = "fisheye"%string ->
        kw_projection_type kw = "fisheye_polynomial"%string
        /\ kw_fisheye_max_fov kw = fov c /\ kw_focal_length kw = None)
    /\ (camera_model c <> "fisheye"%string ->
        kw_projection_type kw = "pinhole"%string
        /\ kw_focal_length kw = focal_length c
        /\ kw_fisheye_max_fov kw = None).
Proof.
  unfold required_key_present, SdgScript.create_camera.
  destruct (String.eqb_spec (camera_model c) "fisheye") as [E|NE]; cbn.
  - destruct (fov c); [|discriminate]. intros _. eexists.
    split; [reflexivity|]. cbn. repeat split; auto; congruence.
  - destruct (focal_length c); [|discriminate]. intros _. eexists.
    split; [reflexivity|]. cbn. repeat split; auto; congruence.
Qed.

Lemma create_camera_fails (c : CameraConfig) :
  required_key_present c = false ->
  create_camera c
  = inl (ScriptKeyError
           (if String.eqb (camera_model c) "fisheye"
            then "fov" else "focal_length")).
Proof.
  unfold required_key_present, SdgScript.create_camera.
  destruct (String.eqb (camera_model c) "fisheye"); cbn.
  - destruct (fov c); [discriminate | reflexivity].
  - destruct (focal_length c); [discriminate | reflexivity].
Qed.

(** X13.  The camera loop treats every model other than exactly "fisheye" as
    a pinhole.  If every entry has the key of its model ([fov] for a fisheye,
    [focal_length] otherwise), one camera per entry is created, in order,
    under the entry's name and resolution, a fisheye with its field of view
    and no focal length, a pinhole the other way round.  Otherwise the loop
    stops with a missing-key error at the first entry without its key, after
    creating the cameras before it. *)
Theorem create_cameras_by_model (cameras : list CameraConfig) :
  (forallb required_key_present cameras = true ->
   exists created,
     create_cameras cameras = (created, None)
     /\ map kw_name created = map name cameras
     /\ map product_resolution created = map resolution cameras
     /\ Forall2 (fun c kw =>
                   if String.eqb (camera_model c) "fisheye"
                   then kw_projection_type kw = "fisheye_polynomial"%string
                        /\ kw_fisheye_max_fov kw = fov c
                        /\ kw_focal_length kw = None
                   else kw_projection_type kw = "pinhole"%string
                        /\ kw_focal_length kw = focal_length c
                        /\ kw_fisheye_max_fov kw = None) cameras created)
  /\ (forall good bad rest,
        cameras = good ++ bad :: rest ->
        forallb required_key_present good = true ->
        required_key_present bad = false ->
        exists created,
          create_cameras cameras
          = (created,
             Some (ScriptKeyError
                     (if String.eqb (camera_model bad) "fisheye"
                      then "fov" else "focal_length")))
          /\ map kw_name created = map name good).
Proof.
  split.
  - induction cameras as [|c cameras IH]; cbn [forallb].
    + intros _. exists []. cbn. repeat split. constructor.
    + intros H. apply andb_prop in H. destruct H as [Hc Hrest].
      destruct (IH Hrest) as [created [Hrun [Hn [Hr Hall]]]].
      destruct (create_camera_ok c Hc)
        as [kw [Hkw [Hname [_ [Hres [_ [_ [Hfish Hpin]]]]]]]].
      exists (kw :: created). cbn [SdgScript.create_cameras].
      rewrite Hkw, Hrun. cbn [map]. rewrite Hname, Hres, Hn, Hr.
      repeat split. constructor; [|assumption].
      destruct (String.eqb_spec (camera_model c) "fisheye"); auto.
  - intros good bad rest -> Hgood Hbad.
    induction good as [|c good IH]; cbn [app SdgScript.create_cameras].
    + rewrite (create_camera_fails bad Hbad). exists []. auto.
    + cbn [forallb] in Hgood. apply andb_prop in Hgood.
      destruct Hgood as [Hc Hrest].
      destruct (IH Hrest) as [created [Hrun Hn]].
      destruct (create_camera_ok c Hc) as [kw [Hkw [Hname _]]].
      rewrite Hkw, Hrun. exists (kw :: created). cbn [map].
      now rewrite Hname, Hn.
Qed.

End CameraFacts.

(** * Further properties of the episode state machine *)

Section QuadMoreFacts.

Import QuadEnv QuadSetup.

(** *** Construction *)

Lemma length_map2 {A B C : Type} (f : A -> B -> C) (l1 : list A)
    (l2 : list B) :
  length l1 = length l2 -> length (map2 f l1 l2) = length l1.
Proof.
  intros H. unfold map2. rewrite length_map, length_combine. lia.
Qed.

Lemma nth_error_repeat_row {A : Type} (a : A) (n i : nat) :
  (i < n)%nat -> nth_error (repeat a n) i = Some a.
Proof.
  revert i. induction n as [|n IH]; intros [|i] Hi; cbn; try lia; auto.
  apply IH. lia.
Qed.

Lemma nth_error_repeat_inv {A : Type} (a x : A) (n i : nat) :
  nth_error (repeat a n) i = Some x -> x = a /\ (i < n)%nat.
Proof.
  intros H. assert (Hi : (i < n)%nat).
  { rewrite <- (repeat_length a n). apply nth_error_Some. congruence. }
  rewrite (nth_error_repeat_row a n i Hi) in H. injection H as <-. auto.
Qed.

Lemma yaw_quat_zero : yaw_quat 0 = mkQuat 1 0 0 0.
Proof.
  unfold yaw_quat. replace (0 / 2) with 0 by lra. now rewrite cos_0, sin_0.
Qed.

(** X14.  Construction gives a well-formed batch in which every goal yaw
    quaternion is the quaternion of its goal yaw: the identity, for a yaw of
    zero, with the goal at the origin, a zero action row and zero running
    sums. *)
Theorem init_establishes_invariants (base : QuadcopterWithYawEnv) :
  base_well_formed base ->
  let env := __init__ base in
  well_formed env
  /\ yaw_quat_consistent env
  /\ forall i, (i < num_envs base)%nat ->
       nth_error (_desired_yaw_w env) i = Some 0
       /\ nth_error (_desired_yaw_quat env) i = Some (mkQuat 1 0 0 0)
       /\ nth_error (_desired_pos_w env) i = Some vec3_zero
       /\ nth_error (_actions env) i = Some action_zero
       /\ forall key, nth_error (_episode_sums env key) i = Some 0.
Proof.
  intros Hb env.
  assert (Hlenq : length (_desired_yaw_quat env) = num_envs base).
  { unfold env, __init__, put_column. cbn [_desired_yaw_quat].
    assert (H1 : length (map2 put_qw (repeat quat_zero (num_envs base))
                           (map (fun y => cos (y / 2))
                              (repeat 0 (num_envs base))))
                 = num_envs base).
    { rewrite length_map2; rewrite ?length_map, !repeat_length; reflexivity. }
    rewrite length_map2; rewrite H1; [reflexivity|].
    now rewrite length_map, repeat_length. }
  assert (Hfwd : forall i, (i < num_envs base)%nat ->
            nth_error (_desired_yaw_quat env) i = Some (yaw_quat 0)).
  { intros i Hi. unfold env, __init__, put_column.
    cbn [_desired_yaw_quat].
    rewrite (nth_error_map2 _ _ _ i (put_qw quat_zero (cos (0 / 2)))
               (sin (0 / 2))).
    - reflexivity.
    - rewrite (nth_error_map2 _ _ _ i quat_zero (cos (0 / 2))).
      + reflexivity.
      + now apply nth_error_repeat_row.
      + rewrite nth_error_map, nth_error_repeat_row by assumption.
        reflexivity.
    - rewrite nth_error_map, nth_error_repeat_row by assumption.
      reflexivity. }
  assert (Hquat : forall i q,
            nth_error (_desired_yaw_quat env) i = Some q ->
            q = yaw_quat 0 /\ (i < num_envs base)%nat).
  { intros i q Hq.
    assert (Hi : (i < num_envs base)%nat)
      by (rewrite <- Hlenq; apply nth_error_Some; congruence).
    rewrite (Hfwd i Hi) in Hq. injection Hq as <-. auto. }
  destruct Hb. split; [|split].
  - constructor; try exact Hlenq; try intros key; unfold env, __init__;
      cbn [_actions _desired_pos_w _desired_yaw_w _episode_sums num_envs
           episode_length_buf reset_terminated reset_time_outs robot_data
           env_origins];
      (assumption || apply repeat_length).
  - intros i yaw q Hy Hq.
    unfold env, __init__ in Hy. cbn [_desired_yaw_w] in Hy.
    apply nth_error_repeat_inv in Hy. destruct Hy as [-> _].
    now destruct (Hquat i q Hq).
  - intros i Hi. unfold env at 1 3 4 5, __init__.
    cbn [_actions _desired_pos_w _desired_yaw_w _episode_sums].
    rewrite !nth_error_repeat_row by assumption.
    repeat split; auto.
    destruct (nth_error_in_range (_desired_yaw_quat env) i ltac:(lia))
      as [q Hq].
    rewrite Hq. f_equal. destruct (Hquat i q Hq) as [-> _].
    apply yaw_quat_zero.
Qed.

(** *** Invariants of the operations *)

Lemma yaw_quat_components (q : Quat) (yaw : R) :
  q = yaw_quat yaw -> qx q = 0 /\ qy q = 0.
Proof.
  intros ->. auto.
Qed.

Lemma reset_well_formed (env env' : QuadcopterWithYawEnv)
    (env_ids : option (list nat)) (rnd : Randomness) :
  well_formed env ->
  _reset_idx env env_ids rnd = inr env' ->
  well_formed env'.
Proof.
  intros Hwf. unfold _reset_idx.
  destruct (negb (forallb _ _)); [discriminate|].
  destruct (andb _ _); [discriminate|]. intros [= <-].
  destruct Hwf. constructor;
    cbn [_actions _desired_pos_w _desired_yaw_w _desired_yaw_quat
         _episode_sums num_envs episode_length_buf reset_terminated
         reset_time_outs robot_data env_origins];
    try assumption; try intros key; rewrite ?flush_episode_sums_snd;
    try (unfold dict_set; destruct key; cbn [Key.eqb]);
    try (destruct (length (resolve_env_ids env env_ids) =? num_envs env)%nat);
    rewrite ?length_map, ?length_seq; unfold index_fill;
    rewrite ?index_put_length; auto.
Qed.

Lemma reset_yaw_quat_consistent (env env' : QuadcopterWithYawEnv)
    (env_ids : option (list nat)) (rnd : Randomness) :
  well_formed env ->
  match env_ids with
  | None => True
  | Some ids => valid_env_ids env ids
  end ->
  _reset_idx env env_ids rnd = inr env' ->
  yaw_quat_consistent env -> yaw_quat_consistent env'.
Proof.
  intros Hwf Hids Hrun Hinv.
  destruct (resolve_env_ids_spec env env_ids Hids) as [[Hnd Hlt] _].
  unfold _reset_idx in Hrun.
  set (ids := resolve_env_ids env env_ids) in *.
  destruct (negb (forallb _ ids)); [discriminate|].
  destruct (andb _ _); [discriminate|]. injection Hrun as <-.
  intros i yaw q. cbn [_desired_yaw_w _desired_yaw_quat].
  destruct (in_dec Nat.eq_dec i ids) as [Hin|Hout].
  - destruct (In_nth_error _ _ Hin) as [j Hj].
    assert (HiN : (i < num_envs env)%nat)
      by (rewrite Forall_forall in Hlt; now apply Hlt).
    destruct Hwf.
    destruct (nth_error_in_range (_desired_yaw_w env) i ltac:(lia))
      as [y0 Hy0].
    destruct (nth_error_in_range (_desired_yaw_quat env) i ltac:(lia))
      as [q0 Hq0].
    destruct (reset_desired_yaw_row (_desired_yaw_w env)
                (_desired_yaw_quat env) ids (rand_yaw rnd) j i y0 q0
                Hnd Hj Hy0 Hq0) as [Hyw Hqt].
    intros Hy Hq.
    assert (Ey : Some yaw = Some (uniform_ 0 6.28 (rand_yaw rnd j)))
      by (rewrite <- Hy; exact Hyw).
    assert (Eq : Some q
                 = Some (mkQuat
                           (cos (uniform_ 0 6.28 (rand_yaw rnd j) / 2))
                           (qx q0) (qy q0)
                           (sin (uniform_ 0 6.28 (rand_yaw rnd j) / 2))))
      by (rewrite <- Hq; exact Hqt).
    injection Ey as ->. injection Eq as ->.
    destruct (yaw_quat_components q0 y0 (Hinv i y0 q0 Hy0 Hq0)) as [-> ->].
    reflexivity.
  - rewrite !index_put_other by assumption. apply Hinv.
Qed.

(** X15.  Every operation keeps the batch well formed, and keeps every goal
    yaw quaternion equal to the quaternion of its goal yaw: a reset of any
    set of environments, the reward computation, and the storing of a batch
    of actions with one row per environment. *)
Theorem operations_keep_invariants (env : QuadcopterWithYawEnv) :
  well_formed env ->
  (forall env_ids rnd env',
     match env_ids with
     | None => True
     | Some ids => valid_env_ids env ids
     end ->
     _reset_idx env env_ids rnd = inr env' ->
     well_formed env'
     /\ (yaw_quat_consistent env -> yaw_quat_consistent env'))
  /\ (well_formed (snd (_get_rewards env))
      /\ (yaw_quat_consistent env ->
          yaw_quat_consistent (snd (_get_rewards env))))
  /\ (forall act actions,
        length actions = num_envs env ->
        well_formed (fst (_pre_physics_step env act actions))
        /\ (yaw_quat_consistent env ->
            yaw_quat_consistent (fst (_pre_physics_step env act actions)))).
Proof.
  intros Hwf. split; [|split].
  - intros env_ids rnd env' Hids Hrun. split.
    + exact (reset_well_formed env env' env_ids rnd Hwf Hrun).
    + exact (reset_yaw_quat_consistent env env' env_ids rnd Hwf Hids Hrun).
  - split; [|auto]. destruct Hwf. unfold _get_rewards. cbn [snd].
    constructor;
      cbn [_actions _desired_pos_w _desired_yaw_w _desired_yaw_quat
           _episode_sums num_envs episode_length_buf reset_terminated
           reset_time_outs robot_data env_origins];
      try assumption.
    intros key. cbn [fold_left reward_keys]. unfold dict_set.
    destruct key; cbn [Key.eqb];
      rewrite length_map2; rewrite ?length_map, ?length_map2;
      rewrite ?wf_episode_sums0; congruence.
  - intros act actions Hlen. split; [|auto]. destruct Hwf.
    unfold _pre_physics_step. cbn [fst].
    constructor;
      cbn [_actions _desired_pos_w _desired_yaw_w _desired_yaw_quat
           _episode_sums num_envs episode_length_buf reset_terminated
           reset_time_outs robot_data env_origins];
      try assumption.
    now rewrite length_map.
Qed.

(** *** The angular difference of two yaws *)

Lemma yaw_quat_sum_square (yaw : R) : sum_square4 (yaw_quat yaw) = 1.
Proof.
  unfold sum_square4, yaw_quat. cbn [qw qx qy qz].
  pose proof (sin2_cos2 (yaw / 2)) as H. unfold Rsqr in H. lra.
Qed.

Lemma yaw_quat_unit (yaw : R) : norm4 (yaw_quat yaw) = 1.
Proof.
  unfold norm4. rewrite yaw_quat_sum_square. apply sqrt_1.
Qed.

Lemma clamp_in_range (x : R) : -1 <= x <= 1 -> clamp x (-1) 1 = x.
Proof.
  intros Hx. unfold clamp, Rmin, Rmax.
  repeat (destruct (Rle_dec _ _)); lra.
Qed.

Lemma acos_cos_abs (x : R) : Rabs x <= PI -> acos (cos x) = Rabs x.
Proof.
  intros Hx. unfold Rabs in *. destruct (Rcase_abs x) as [Hneg|Hpos].
  - rewrite <- cos_neg. apply acos_cos. lra.
  - apply acos_cos. lra.
Qed.

(** X16.  For two yaw quaternions whose yaws differ by at most a full turn,
    the angular difference is the yaw difference wrapped into [0, pi]: the
    smaller of |a - b| and 2 pi - |a - b|. *)
Theorem angular_diff_of_yaws (a b : R) :
  Rabs (a - b) <= 2 * PI ->
  angular_diff (yaw_quat a) (yaw_quat b)
  = Rmin (Rabs (a - b)) (2 * PI - Rabs (a - b)).
Proof.
  intros Hab. unfold angular_diff. rewrite quat_diff_w.
  replace (norm4 (quat_diff_raw (yaw_quat a) (quat_conj (yaw_quat b))))
    with 1.
  2:{ unfold norm4. rewrite quat_diff_raw_sum_square, !yaw_quat_sum_square.
      rewrite Rmult_1_r. symmetry. apply sqrt_1. }
  unfold yaw_quat. cbn [qw qx qy qz].
  replace ((cos (a / 2) * cos (b / 2) + 0 * 0 + 0 * 0
            + sin (a / 2) * sin (b / 2)) / 1)
    with (cos ((a - b) / 2)).
  2:{ replace ((a - b) / 2) with (a / 2 - b / 2) by lra.
      rewrite cos_minus. field. }
  rewrite clamp_in_range by apply COS_bound.
  assert (Habs : Rabs ((a - b) / 2) = Rabs (a - b) / 2).
  { unfold Rdiv. rewrite Rabs_mult. f_equal. apply Rabs_pos_eq. lra. }
  rewrite acos_cos_abs by (rewrite Habs; lra).
  rewrite Habs. f_equal; lra.
Qed.

(** *** Bounds on the reward *)

Lemma tanh_bounds (x : R) : 0 <= x -> 0 <= tanh x < 1.
Proof.
  intros Hx. unfold tanh, sinh, cosh.
  pose proof (exp_pos x) as Hp. pose proof (exp_pos (- x)) as Hn.
  assert (Hle : exp (- x) <= exp x).
  { destruct Hx as [Hx|<-].
    - left. apply exp_increasing. lra.
    - rewrite Ropp_0. lra. }
  assert (Hc : 0 < (exp x + exp (- x)) / 2) by lra.
  split.
  - apply Rmult_le_reg_r with ((exp x + exp (- x)) / 2); [assumption|].
    unfold Rdiv at 2. rewrite Rmult_assoc, Rinv_l by lra. lra.
  - apply Rmult_lt_reg_r with ((exp x + exp (- x)) / 2); [assumption|].
    unfold Rdiv at 1. rewrite Rmult_assoc, Rinv_l by lra. lra.
Qed.

Lemma tanh_0 : tanh 0 = 0.
Proof.
  unfold tanh. rewrite sinh_0, cosh_0. field.
Qed.

Lemma angular_diff_bounds (q1 q2 : Quat) : 0 <= angular_diff q1 q2 <= PI.
Proof.
  unfold angular_diff. apply fold_angle_bounds.
  pose proof (acos_bound (clamp (qw (quat_diff q1 q2)) (-1) 1)). lra.
Qed.

Lemma angular_diff_self (q : Quat) : norm4 q = 1 -> angular_diff q q = 0.
Proof.
  intros Hq. pose proof (norm4_unit_sum_square q Hq) as Hss.
  unfold angular_diff. rewrite quat_diff_w.
  replace (norm4 (quat_diff_raw q (quat_conj q))) with 1.
  2:{ unfold norm4. rewrite quat_diff_raw_sum_square, Hss, Rmult_1_r.
      symmetry. apply sqrt_1. }
  unfold sum_square4 in Hss.
  replace ((qw q * qw q + qx q * qx q + qy q * qy q + qz q * qz q) / 1)
    with 1 by (unfold Rdiv; rewrite Rinv_1; lra).
  rewrite clamp_one, acos_1. pose proof PI_RGT_0.
  unfold Rmin. destruct (Rle_dec _ _); lra.
Qed.

Lemma sum_square4_nonneg (q : Quat) : 0 <= sum_square4 q.
Proof.
  unfold sum_square4. nra.
Qed.

Lemma norm4_nonzero (q : Quat) : norm4 q <> 0 <-> 0 < sum_square4 q.
Proof.
  unfold norm4. pose proof (sum_square4_nonneg q) as H. split.
  - intros Hn. destruct H as [H|H]; [assumption|].
    exfalso. apply Hn. rewrite <- H. apply sqrt_0.
  - intros Hp Hn. pose proof (sqrt_lt_R0 _ Hp). lra.
Qed.

(** The norm by which [quat_diff] divides is non-zero for two quaternions
    of non-zero norm. *)
Lemma quat_diff_norm_nonzero (d c : Quat) :
  norm4 d <> 0 -> norm4 c <> 0 ->
  norm4 (quat_diff_raw d (quat_conj c)) <> 0.
Proof.
  intros Hd Hc. apply norm4_nonzero in Hd. apply norm4_nonzero in Hc.
  apply norm4_nonzero. rewrite quat_diff_raw_sum_square.
  replace (sum_square4 (quat_conj c)) with (sum_square4 c)
    by (unfold sum_square4, quat_conj; cbn [qw qx qy qz]; ring).
  now apply Rmult_lt_0_compat.
Qed.

Lemma sum_square3_nonneg (v : Vec3) : 0 <= sum_square3 v.
Proof.
  unfold sum_square3. nra.
Qed.

Lemma norm3_zero : norm3 vec3_zero = 0.
Proof.
  unfold norm3, sum_square3, vec3_zero. cbn [vx vy vz].
  replace (0 * 0 + 0 * 0 + 0 * 0) with 0 by ring. apply sqrt_0.
Qed.

(** The reward of one environment and what is added to its running sums,
    from the rows of the tensors. *)
Lemma get_rewards_row (env : QuadcopterWithYawEnv) (i : nat) :
  well_formed env -> (i < num_envs env)%nat ->
  let data := robot_data env in
  let dt := step_dt env in
  let c1 :=
    sum_square3 (nth i (root_lin_vel_b data) vec3_zero)
    * lin_vel_reward_scale (cfg env) * dt in
  let c2 :=
    sum_square3 (nth i (root_ang_vel_b data) vec3_zero)
    * ang_vel_reward_scale (cfg env) * dt in
  let c3 :=
    (1 - tanh (norm3 (vec3_sub (nth i (_desired_pos_w env) vec3_zero)
                        (nth i (root_pos_w data) vec3_zero)) / 0.8))
    * distance_to_goal_reward_scale (cfg env) * dt in
  let c4 :=
    (1 - angular_diff (nth i (_desired_yaw_quat env) quat_zero)
           (nth i (root_quat_w data) quat_zero) / PI)
    * radial_to_goal_yaw_reward_scale (cfg env) * dt in
  let sums := _episode_sums env in
  let sums' := _episode_sums (snd (_get_rewards env)) in
  nth i (fst (_get_rewards env)) 0 = c1 + c2 + c3 + c4
  /\ nth i (sums' Key.lin_vel) 0 = nth i (sums Key.lin_vel) 0 + c1
  /\ nth i (sums' Key.ang_vel) 0 = nth i (sums Key.ang_vel) 0 + c2
  /\ nth i (sums' Key.distance_to_goal_pose) 0
     = nth i (sums Key.distance_to_goal_pose) 0 + c3
  /\ nth i (sums' Key.radial_to_goal_yaw) 0
     = nth i (sums Key.radial_to_goal_yaw) 0 + c4.
Proof.
  intros Hwf Hi data dt c1 c2 c3 c4 sums sums'. destruct Hwf.
  assert (Hl2 : forall (A B C : Type) (f : A -> B -> C) l1 l2,
            length l1 = num_envs env -> length l2 = num_envs env ->
            length (map2 f l1 l2) = num_envs env).
  { intros. rewrite length_map2; congruence. }
  assert (H1 : nth i
      (map (fun x => x * lin_vel_reward_scale (cfg env) * step_dt env)
         (map sum_square3 (root_lin_vel_b data))) 0 = c1).
  { rewrite (nth_map_row _ _ _ 0) by (rewrite length_map; unfold data; lia).
    now rewrite (nth_map_row _ _ _ vec3_zero) by (unfold data; lia). }
  assert (H2 : nth i
      (map (fun x => x * ang_vel_reward_scale (cfg env) * step_dt env)
         (map sum_square3 (root_ang_vel_b data))) 0 = c2).
  { rewrite (nth_map_row _ _ _ 0) by (rewrite length_map; unfold data; lia).
    now rewrite (nth_map_row _ _ _ vec3_zero) by (unfold data; lia). }
  assert (H3 : nth i
      (map (fun x => x * distance_to_goal_reward_scale (cfg env) * step_dt env)
         (map (fun d => 1 - tanh (d / 0.8))
            (map norm3 (map2 vec3_sub (_desired_pos_w env) (root_pos_w data)))))
      0 = c3).
  { pose proof (Hl2 _ _ _ vec3_sub (_desired_pos_w env) (root_pos_w data)
                  ltac:(assumption) ltac:(assumption)) as Hl.
    rewrite (nth_map_row _ _ _ 0) by (rewrite !length_map; lia).
    rewrite (nth_map_row _ _ _ 0) by (rewrite !length_map; lia).
    rewrite (nth_map_row _ _ _ vec3_zero) by lia.
    now rewrite (nth_map2_row _ _ _ _ vec3_zero vec3_zero)
      by (unfold data; lia). }
  assert (H4 : nth i
      (map (fun a => (1 - a / PI) * radial_to_goal_yaw_reward_scale (cfg env)
                     * step_dt env)
         (map2 angular_diff (_desired_yaw_quat env) (root_quat_w data)))
      0 = c4).
  { pose proof (Hl2 _ _ _ angular_diff (_desired_yaw_quat env)
                  (root_quat_w data) ltac:(assumption) ltac:(assumption))
      as Hl.
    rewrite (nth_map_row _ _ _ 0) by lia.
    now rewrite (nth_map2_row _ _ _ _ quat_zero quat_zero)
      by (unfold data; lia). }
  assert (Hadd : forall (a b : list R),
            length a = num_envs env -> length b = num_envs env ->
            nth i (map2 Rplus a b) 0 = nth i a 0 + nth i b 0).
  { intros a b Ha Hb. apply nth_map2_row; lia. }
  subst sums sums'. unfold _get_rewards. cbn [fst snd _episode_sums].
  fold data. split.
  - unfold sum_dim0. rewrite nth_map_seq by assumption.
    cbn [map reward_keys sum_list fold_right].
    rewrite H1, H2, H3, H4. ring.
  - cbn [fold_left reward_keys]. unfold dict_set. cbn [Key.eqb].
    rewrite !Hadd; rewrite ?H1, ?H2, ?H3, ?H4; auto;
      rewrite ?length_map; try apply Hl2; auto.
Qed.

(** X17.  With non-positive velocity scales, non-negative goal scales and a
    non-negative step duration, for an environment whose goal yaw quaternion
    and robot orientation are both of non-zero norm, the normalisation of the
    quaternion difference divides by a non-zero norm, and the reward is at
    most (distance scale + yaw scale) * step duration and at least the two
    velocity penalties; the upper bound is reached by a robot at rest at the
    goal position whose unit orientation is the goal yaw quaternion. *)
Theorem reward_bounds (env : QuadcopterWithYawEnv) (i : nat) :
  well_formed env -> (i < num_envs env)%nat ->
  norm4 (nth i (_desired_yaw_quat env) quat_zero) <> 0 ->
  norm4 (nth i (root_quat_w (robot_data env)) quat_zero) <> 0 ->
  lin_vel_reward_scale (cfg env) <= 0 ->
  ang_vel_reward_scale (cfg env) <= 0 ->
  0 <= distance_to_goal_reward_scale (cfg env) ->
  0 <= radial_to_goal_yaw_reward_scale (cfg env) ->
  0 <= step_dt env ->
  let data := robot_data env in
  let reward := nth i (fst (_get_rewards env)) 0 in
  let best :=
    (distance_to_goal_reward_scale (cfg env)
     + radial_to_goal_yaw_reward_scale (cfg env)) * step_dt env in
  let penalty :=
    (sum_square3 (nth i (root_lin_vel_b data) vec3_zero)
     * lin_vel_reward_scale (cfg env)
     + sum_square3 (nth i (root_ang_vel_b data) vec3_zero)
       * ang_vel_reward_scale (cfg env)) * step_dt env in
  norm4 (quat_diff_raw (nth i (_desired_yaw_quat env) quat_zero)
           (quat_conj (nth i (root_quat_w data) quat_zero))) <> 0
  /\ penalty <= reward <= best
  /\ (nth i (root_lin_vel_b data) vec3_zero = vec3_zero ->
      nth i (root_ang_vel_b data) vec3_zero = vec3_zero ->
      nth i (root_pos_w data) vec3_zero = nth i (_desired_pos_w env) vec3_zero ->
      nth i (root_quat_w data) quat_zero
      = nth i (_desired_yaw_quat env) quat_zero ->
      norm4 (nth i (_desired_yaw_quat env) quat_zero) = 1 ->
      reward = best).
Proof.
  intros Hwf Hi Hdq Hcq Hs1 Hs2 Hs3 Hs4 Hdt data reward best penalty.
  split; [exact (quat_diff_norm_nonzero _ _ Hdq Hcq)|].
  destruct (get_rewards_row env i Hwf Hi) as [Hr _]. fold data in Hr.
  subst reward. rewrite Hr. clear Hr.
  set (v := nth i (root_lin_vel_b data) vec3_zero).
  set (w := nth i (root_ang_vel_b data) vec3_zero).
  set (g := nth i (_desired_pos_w env) vec3_zero).
  set (p := nth i (root_pos_w data) vec3_zero).
  set (dq := nth i (_desired_yaw_quat env) quat_zero).
  set (cq := nth i (root_quat_w data) quat_zero).
  fold v w in penalty.
  pose proof (sum_square3_nonneg v) as Hv.
  pose proof (sum_square3_nonneg w) as Hw.
  assert (Hd : 0 <= norm3 (vec3_sub g p) / 0.8).
  { pose proof (sqrt_pos (sum_square3 (vec3_sub g p))) as H.
    fold (norm3 (vec3_sub g p)) in H. lra. }
  pose proof (tanh_bounds _ Hd) as Ht.
  pose proof (angular_diff_bounds dq cq) as Ha.
  pose proof PI_RGT_0 as Hpi.
  assert (Hy : 0 <= 1 - angular_diff dq cq / PI <= 1).
  { assert (0 <= angular_diff dq cq / PI <= 1).
    { split.
      - apply Rmult_le_reg_r with PI; [lra|].
        unfold Rdiv. rewrite Rmult_assoc, Rinv_l by lra. lra.
      - apply Rmult_le_reg_r with PI; [lra|].
        unfold Rdiv. rewrite Rmult_assoc, Rinv_l by lra. lra. }
    lra. }
  assert (H1 : sum_square3 v * lin_vel_reward_scale (cfg env) * step_dt env
               <= 0).
  { assert (sum_square3 v * lin_vel_reward_scale (cfg env) <= 0) by nra.
    nra. }
  assert (H2 : sum_square3 w * ang_vel_reward_scale (cfg env) * step_dt env
               <= 0).
  { assert (sum_square3 w * ang_vel_reward_scale (cfg env) <= 0) by nra.
    nra. }
  assert (H3 : 0 <= (1 - tanh (norm3 (vec3_sub g p) / 0.8))
                    * distance_to_goal_reward_scale (cfg env) * step_dt env
               <= distance_to_goal_reward_scale (cfg env) * step_dt env).
  { assert (0 <= distance_to_goal_reward_scale (cfg env) * step_dt env)
      by nra.
    split; nra. }
  assert (H4 : 0 <= (1 - angular_diff dq cq / PI)
                    * radial_to_goal_yaw_reward_scale (cfg env) * step_dt env
               <= radial_to_goal_yaw_reward_scale (cfg env) * step_dt env).
  { assert (0 <= radial_to_goal_yaw_reward_scale (cfg env) * step_dt env)
      by nra.
    split; nra. }
  subst best penalty. split.
  - split; lra.
  - intros Ev Ew Ep Eq Hunit. fold v in Ev. fold w in Ew.
    fold p g in Ep. fold cq dq in Eq.
    rewrite Ev, Ew, Ep, Eq.
    replace (vec3_sub g g) with vec3_zero
      by (unfold vec3_sub, vec3_zero; f_equal; ring).
    rewrite norm3_zero, (angular_diff_self dq Hunit).
    replace (0 / 0.8) with 0 by lra. rewrite tanh_0.
    replace (sum_square3 vec3_zero) with 0
      by (unfold sum_square3, vec3_zero; cbn; ring).
    unfold Rdiv. rewrite Rmult_0_l. ring.
Qed.

(** *** Action application *)

Lemma clamp_unit_spec (x : R) :
  -1 <= clamp x (-1.0) 1.0 <= 1
  /\ (x <= -1 -> clamp x (-1.0) 1.0 = -1)
  /\ (1 <= x -> clamp x (-1.0) 1.0 = 1)
  /\ (-1 <= x <= 1 -> clamp x (-1.0) 1.0 = x).
Proof.
  unfold clamp, Rmin, Rmax.
  repeat (destruct (Rle_dec _ _)); repeat split; intros; lra.
Qed.

(** X18.  For a batch of actions with one row per environment and a
    non-negative product of thrust-to-weight ratio and robot weight, the
    thrust of every environment keeps its x and y components and has a z
    component between zero and that product: zero for a first action entry
    of -1 or less, the full product for 1 or more, and in between the
    product times (action + 1) / 2. *)
Theorem thrust_from_action (env : QuadcopterWithYawEnv) (act : Actuation)
    (actions : list Action) (i : nat) (a : Action) (old : Vec3) :
  length actions = length (_thrust act) ->
  nth_error actions i = Some a ->
  nth_error (_thrust act) i = Some old ->
  0 <= thrust_to_weight act * _robot_weight act ->
  let full := thrust_to_weight act * _robot_weight act in
  exists t,
    nth_error (_thrust (snd (_pre_physics_step env act actions))) i = Some t
    /\ vx t = vx old /\ vy t = vy old
    /\ 0 <= vz t <= full
    /\ (a0 a <= -1 -> vz t = 0)
    /\ (1 <= a0 a -> vz t = full)
    /\ (-1 <= a0 a <= 1 -> vz t = full * (a0 a + 1) / 2).
Proof.
  intros Hlen Ha Hold Hfull full.
  unfold _pre_physics_step, put_column. cbn [snd _thrust].
  rewrite (nth_error_map2 _ _ _ i old
             (thrust_to_weight act * _robot_weight act
              * (a0 (clamp_action a) + 1.0) / 2.0)).
  2: exact Hold.
  2:{ rewrite !nth_error_map, Ha. reflexivity. }
  eexists. split; [reflexivity|]. cbn [put_z vx vy vz clamp_action a0].
  destruct (clamp_unit_spec (a0 a)) as [Hr [Hlo [Hhi Hin]]].
  subst full. split; [reflexivity|]. split; [reflexivity|].
  split; [split; nra|].
  split; [intros H; rewrite (Hlo H); lra|].
  split; [intros H; rewrite (Hhi H); lra | intros H; rewrite (Hin H); lra].
Qed.

(** X19.  Each of the four entries of a stored action is the entry the
    policy sent, clamped to [-1, 1]: unchanged when it lies in [-1, 1], -1
    when it is -1 or less, 1 when it is 1 or more.  Every component of the
    moment is the moment scale times the stored entry, hence at most the
    magnitude of the scale. *)
Theorem actions_clamped_and_moment_bounded (env : QuadcopterWithYawEnv)
    (act : Actuation) (actions : list Action) (i : nat) (a : Action)
    (old : Vec3) :
  length actions = length (_moment act) ->
  nth_error actions i = Some a ->
  nth_error (_moment act) i = Some old ->
  let step := _pre_physics_step env act actions in
  exists stored m,
    nth_error (_actions (fst step)) i = Some stored
    /\ nth_error (_moment (snd step)) i = Some m
    /\ (forall entry : Action -> R, In entry [a0; a1; a2; a3] ->
          -1 <= entry stored <= 1
          /\ (-1 <= entry a <= 1 -> entry stored = entry a)
          /\ (entry a <= -1 -> entry stored = -1)
          /\ (1 <= entry a -> entry stored = 1))
    /\ vx m = moment_scale act * a1 stored
    /\ vy m = moment_scale act * a2 stored
    /\ vz m = moment_scale act * a3 stored
    /\ Rabs (vx m) <= Rabs (moment_scale act)
    /\ Rabs (vy m) <= Rabs (moment_scale act)
    /\ Rabs (vz m) <= Rabs (moment_scale act).
Proof.
  intros Hlen Ha Hold step. subst step.
  unfold _pre_physics_step, put_column. cbn [fst snd _actions _moment].
  rewrite nth_error_map, Ha. cbn [option_map].
  rewrite (nth_error_map2 _ _ _ i old
             (mkVec3 (moment_scale act * a1 (clamp_action a))
                (moment_scale act * a2 (clamp_action a))
                (moment_scale act * a3 (clamp_action a)))).
  2: exact Hold.
  2:{ rewrite !nth_error_map, Ha. reflexivity. }
  do 2 eexists. split; [reflexivity|]. split; [reflexivity|].
  split.
  { intros entry Hentry.
    assert (E : entry (clamp_action a) = clamp (entry a) (-1.0) 1.0)
      by (destruct Hentry as [<-|[<-|[<-|[<-|[]]]]]; reflexivity).
    rewrite E. destruct (clamp_unit_spec (entry a)) as [Hr [Hlo [Hhi Hin]]].
    repeat split; auto; lra. }
  cbn [clamp_action a0 a1 a2 a3 vx vy vz].
  destruct (clamp_unit_spec (a1 a)) as [H1 _].
  destruct (clamp_unit_spec (a2 a)) as [H2 _].
  destruct (clamp_unit_spec (a3 a)) as [H3 _].
  assert (Hb : forall c, -1 <= c <= 1 ->
            Rabs (moment_scale act * c) <= Rabs (moment_scale act)).
  { intros c Hc. rewrite Rabs_mult.
    assert (Rabs c <= 1) by (apply Rabs_le; lra).
    pose proof (Rabs_pos (moment_scale act)). nra. }
  repeat split; auto.
Qed.

(** *** Step counters across a reset *)

(** X20.  A reset called with no index tensor, or with any index tensor that
    has as many entries as there are environments (whatever the entries),
    resets the whole batch.  With a positive maximum episode length it
    succeeds, and then the step counter of every environment is the random
    draw of its row, not zero, and its time-out flag right after the reset is
    true exactly when that draw is at least [max_episode_length - 1]; with a
    maximum episode length of zero or less it raises, as the draw of the
    counters has an empty range. *)
Theorem full_reset_randomises_step_counters (env : QuadcopterWithYawEnv)
    (rnd : Randomness) :
  well_formed env ->
  (forall ids, length ids = num_envs env ->
     _reset_idx env (Some ids) rnd = _reset_idx env None rnd)
  /\ match _reset_idx env None rnd with
     | inl e => e = RuntimeError /\ (max_episode_length env <= 0)%Z
     | inr env' =>
       (0 < max_episode_length env)%Z
       /\ forall i, (i < num_envs env)%nat ->
            nth_error (episode_length_buf env') i
            = Some (rand_episode_length rnd i)
            /\ nth_error (snd (_get_dones env')) i
               = Some (rand_episode_length rnd i
                       >=? max_episode_length env - 1)%Z
     end.
Proof.
  intros Hwf. split.
  - intros ids Hlen. unfold _reset_idx. cbn [resolve_env_ids].
    apply Nat.eqb_eq in Hlen. now rewrite Hlen.
  - destruct (resolve_env_ids_spec env None I) as [Hv _].
    unfold _reset_idx. cbn [resolve_env_ids] in *.
    rewrite (valid_env_ids_forallb env _ Hv). cbn [negb].
    rewrite length_seq, Nat.eqb_refl. cbn [andb].
    destruct (Z.leb_spec (max_episode_length env) 0) as [Hmax|Hmax].
    + split; [reflexivity | exact Hmax].
    + split; [exact Hmax|]. intros i Hi.
      unfold _get_dones.
      cbn [episode_length_buf max_episode_length snd].
      assert (Hc : nth_error
                     (map (rand_episode_length rnd)
                        (seq 0 (length (index_fill (episode_length_buf env)
                                          (seq 0 (num_envs env)) 0%Z)))) i
                   = Some (rand_episode_length rnd i)).
      { apply nth_error_map_seq. unfold index_fill.
        rewrite index_put_length. destruct Hwf. lia. }
      split; [exact Hc|]. now rewrite nth_error_map, Hc.
Qed.

(** X21.  After a reset of a proper part of the batch, the step counter of
    every environment that was reset is zero, so that its time-out flag is
    false right after the reset whenever the maximum episode length exceeds
    one step. *)
Theorem partial_reset_restarts_step_counters (env : QuadcopterWithYawEnv)
    (ids : list nat) (rnd : Randomness) (i : nat) :
  well_formed env -> valid_env_ids env ids ->
  length ids <> num_envs env -> In i ids ->
  exists env',
    _reset_idx env (Some ids) rnd = inr env'
    /\ nth_error (episode_length_buf env') i = Some 0%Z
    /\ ((1 < max_episode_length env)%Z ->
        nth_error (snd (_get_dones env')) i = Some false).
Proof.
  intros Hwf Hv Hlen Hin.
  unfold _reset_idx. cbn [resolve_env_ids].
  apply Nat.eqb_neq in Hlen. rewrite Hlen.
  rewrite (valid_env_ids_forallb env ids Hv). cbn [negb].
  cbv zeta. rewrite !Hlen. cbn [andb].
  eexists. split; [reflexivity|].
  unfold _get_dones. cbn [episode_length_buf max_episode_length snd].
  assert (Hc : nth_error (index_fill (episode_length_buf env) ids 0%Z) i
               = Some 0%Z).
  { destruct Hv as [Hnd Hlt]. apply index_fill_row; try assumption.
    rewrite Forall_forall in Hlt. destruct Hwf.
    rewrite wf_episode_length_buf0. now apply Hlt. }
  split; [exact Hc|]. intros Hmax. rewrite nth_error_map, Hc.
  cbn [option_map]. f_equal. rewrite Z.geb_leb. apply Z.leb_gt. lia.
Qed.

(** *** What a reset logs *)

Lemma reset_episode_sums (env env' : QuadcopterWithYawEnv)
    (env_ids : option (list nat)) (rnd : Randomness) :
  _reset_idx env env_ids rnd = inr env' ->
  num_envs env' = num_envs env
  /\ forall key,
       _episode_sums env' key
       = index_fill (_episode_sums env key) (resolve_env_ids env env_ids) 0.
Proof.
  unfold _reset_idx. destruct (negb (forallb _ _)); [discriminate|].
  destruct (andb _ _); [discriminate|].
  intros H. injection H as <-. split; [reflexivity|].
  intros key. cbn [_episode_sums]. rewrite ?flush_episode_sums_snd.
  destruct key; reflexivity.
Qed.

Lemma flush_episode_sums_fst (s : R) (ids : list nat) (sums : RewardDict) :
  fst (flush_episode_sums s ids sums)
  = map (fun key =>
           (("Episode_Reward/" ++ Key.name key)%string,
            mean (gather 0 (sums key) ids) / s)) reward_keys.
Proof.
  unfold flush_episode_sums. cbn [fold_left reward_keys fst snd app map].
  unfold dict_set. cbn [Key.eqb]. reflexivity.
Qed.

Lemma mean_of_zero_rows (t : list R) (ids : list nat) :
  (forall i, In i ids -> nth_error t i = Some 0) ->
  mean (gather 0 t ids) = 0.
Proof.
  intros H. unfold mean.
  assert (Hs : sum_list (gather 0 t ids) = 0).
  { unfold gather, sum_list.
    induction ids as [|i ids IH]; cbn [map fold_right]; [reflexivity|].
    rewrite IH by (intros k Hk; apply H; now right).
    rewrite (nth_error_nth t i 0 (H i (or_introl eq_refl))). lra. }
  rewrite Hs. unfold Rdiv. apply Rmult_0_l.
Qed.

(** X22.  For a reset of at least one environment, with a non-zero maximum
    episode duration and goal and robot quaternions of non-zero norm, the
    episode reward that the reset logs for a key is the mean, over the
    environments being reset, of the running sums as they were before the
    reset zeroed them, divided by the maximum episode duration; the logged
    final yaw difference is the mean over the whole batch, whatever the
    environments being reset.  Resetting the same environments again right
    away logs an episode reward of zero for every key. *)
Theorem reset_logs_the_sums_before_zeroing (env env' : QuadcopterWithYawEnv)
    (env_ids : option (list nat)) (rnd : Randomness) :
  well_formed env ->
  match env_ids with
  | None => True
  | Some ids => valid_env_ids env ids
  end ->
  resolve_env_ids env env_ids <> [] ->
  max_episode_length_s env <> 0 ->
  Forall (fun q => norm4 q <> 0) (_desired_yaw_quat env) ->
  Forall (fun q => norm4 q <> 0) (root_quat_w (robot_data env)) ->
  _reset_idx env env_ids rnd = inr env' ->
  let ids := resolve_env_ids env env_ids in
  (forall key,
     In (("Episode_Reward/" ++ Key.name key)%string,
         mean (gather 0 (_episode_sums env key) ids)
         / max_episode_length_s env) (extras_log env'))
  /\ In ("Metrics/final_yaw_diff"%string,
         mean (map2 angular_diff (_desired_yaw_quat env)
                 (root_quat_w (robot_data env)))) (extras_log env')
  /\ forall rnd' env'',
       _reset_idx env' env_ids rnd' = inr env'' ->
       forall key,
         In (("Episode_Reward/" ++ Key.name key)%string, 0)
           (extras_log env'').
Proof.
  intros Hwf Hids _ _ _ _ Hrun ids.
  destruct (resolve_env_ids_spec env env_ids Hids) as [[Hnd Hlt] _].
  fold ids in Hnd, Hlt.
  assert (Hlog : forall e e2 r,
            _reset_idx e env_ids r = inr e2 ->
            forall key,
              In (("Episode_Reward/" ++ Key.name key)%string,
                  mean (gather 0 (_episode_sums e key)
                          (resolve_env_ids e env_ids))
                  / max_episode_length_s e) (extras_log e2)).
  { intros e e2 r He key. unfold _reset_idx in He.
    destruct (negb (forallb _ _)); [discriminate|].
    destruct (andb _ _); [discriminate|]. injection He as <-.
    cbn [extras_log]. rewrite ?flush_episode_sums_fst.
    destruct key; cbn; repeat (first [left; reflexivity | right]). }
  split; [exact (Hlog env env' rnd Hrun)|]. split.
  - unfold _reset_idx in Hrun.
    destruct (negb (forallb _ _)); [discriminate|].
    destruct (andb _ _); [discriminate|]. injection Hrun as <-.
    cbn [extras_log]. rewrite ?flush_episode_sums_fst.
    cbn; repeat (first [left; reflexivity | right]).
  - intros rnd' env'' Hrun' key.
    pose proof (Hlog env' env'' rnd' Hrun' key) as H.
    assert (Hsame : resolve_env_ids env' env_ids = ids).
    { unfold _reset_idx in Hrun.
      destruct (negb (forallb _ _)); [discriminate|].
      destruct (andb _ _); [discriminate|]. injection Hrun as <-.
      reflexivity. }
    rewrite Hsame in H.
    rewrite mean_of_zero_rows in H.
    + unfold Rdiv in H. rewrite Rmult_0_l in H. exact H.
    + intros i Hi.
      destruct (reset_episode_sums env env' env_ids rnd Hrun) as [_ Hs].
      rewrite Hs. fold ids.
      apply index_fill_row; try assumption.
      destruct Hwf. rewrite wf_episode_sums0.
      rewrite Forall_forall in Hlt. now apply Hlt.
Qed.

(** X23.  After a reset, the first reward of an environment that was reset
    is exactly what its four running sums then hold together. *)
Theorem first_reward_after_reset (env env' : QuadcopterWithYawEnv)
    (env_ids : option (list nat)) (rnd : Randomness) (i : nat) :
  well_formed env ->
  match env_ids with
  | None => True
  | Some ids => valid_env_ids env ids
  end ->
  _reset_idx env env_ids rnd = inr env' ->
  resets env env_ids i ->
  let step := _get_rewards env' in
  let sums := _episode_sums (snd step) in
  nth i (sums Key.lin_vel) 0 + nth i (sums Key.ang_vel) 0
  + nth i (sums Key.distance_to_goal_pose) 0
  + nth i (sums Key.radial_to_goal_yaw) 0
  = nth i (fst step) 0.
Proof.
  intros Hwf Hids Hrun Hi step sums.
  destruct (resolve_env_ids_spec env env_ids Hids) as [[Hnd Hlt] Hres].
  apply Hres in Hi.
  assert (HiN : (i < num_envs env)%nat)
    by (rewrite Forall_forall in Hlt; now apply Hlt).
  pose proof (reset_well_formed env env' env_ids rnd Hwf Hrun) as Hwf'.
  destruct (reset_episode_sums env env' env_ids rnd Hrun) as [Hn Hs].
  assert (Hzero : forall key, nth i (_episode_sums env' key) 0 = 0).
  { intros key. apply nth_error_nth. rewrite Hs.
    apply index_fill_row; try assumption.
    destruct Hwf. rewrite wf_episode_sums0. exact HiN. }
  destruct (get_rewards_row env' i Hwf' ltac:(lia))
    as [Hr [H1 [H2 [H3 H4]]]].
  subst sums step. rewrite Hr, H1, H2, H3, H4, !Hzero. ring.
Qed.

End QuadMoreFacts.

(** *** Debug markers *)

Section DebugVisFacts.

Import QuadDebugVis.

Lemma set_debug_vis_shown (v debug_vis : bool) :
  _set_debug_vis_impl debug_vis (mkMarkers (Some v) (Some v) (Some v))
  = mkMarkers (Some debug_vis) (Some debug_vis) (Some debug_vis).
Proof.
  destruct debug_vis; reflexivity.
Qed.

Lemma last_cons_default {A : Type} (l : list A) (a d : A) :
  last (a :: l) d = last l a.
Proof.
  revert a d. induction l as [|c l IH]; intros a d; [reflexivity|].
  change (last (a :: c :: l) d) with (last (c :: l) d).
  rewrite (IH c d). symmetry. apply IH.
Qed.

Lemma set_debug_vis_calls_shown (flags : list bool) (v : bool) :
  set_debug_vis_calls flags (mkMarkers (Some v) (Some v) (Some v))
  = mkMarkers (Some (last flags v)) (Some (last flags v))
      (Some (last flags v)).
Proof.
  unfold set_debug_vis_calls. revert v.
  induction flags as [|b flags IH]; intros v; [reflexivity|].
  cbn [fold_left]. rewrite set_debug_vis_shown, IH.
  now rewrite last_cons_default.
Qed.

(** X24.  Starting from an object without markers, as long as every call of
    the debug switch passes False no marker is ever created and the marker
    callback fails on the first missing attribute; after the first call that
    passes True all three markers exist, their visibility is the flag of the
    latest call, and the callback succeeds. *)
Theorem debug_markers_after_calls (env : QuadEnv.QuadcopterWithYawEnv)
    (flags : list bool) :
  let m := set_debug_vis_calls flags no_markers in
  (existsb (fun b => b) flags = false ->
   m = no_markers
   /\ _debug_vis_callback env m
      = inl (missing_attribute "goal_pos_visualizer"))
  /\ (existsb (fun b => b) flags = true ->
      m = mkMarkers (Some (last flags false)) (Some (last flags false))
            (Some (last flags false))
      /\ exists shown, _debug_vis_callback env m = inr shown).
Proof.
  cbn zeta. induction flags as [|b flags IH].
  - cbn. split; [auto | discriminate].
  - unfold set_debug_vis_calls in *. cbn [fold_left existsb].
    destruct b; cbn [orb].
    + split; [discriminate|]. intros _.
      change (_set_debug_vis_impl true no_markers)
        with (mkMarkers (Some true) (Some true) (Some true)).
      fold (set_debug_vis_calls flags
              (mkMarkers (Some true) (Some true) (Some true))).
      rewrite set_debug_vis_calls_shown.
      rewrite last_cons_default.
      split; [reflexivity|]. eexists. reflexivity.
    + change (_set_debug_vis_impl false no_markers) with no_markers.
      destruct IH as [IH1 IH2]. split.
      * exact IH1.
      * intros H. destruct (IH2 H) as [Hm Hcb]. split; [|exact Hcb].
        rewrite Hm. destruct flags as [|c flags]; [discriminate|].
        now rewrite (last_cons_default (c :: flags) false false).
Qed.

(** X25.  A call of the debug switch never removes a marker: a marker that
    exists before the call exists after it with the visibility that was
    asked for, a call with True leaves all three markers existing and
    visible, a call with False creates none, and a callback that succeeded
    before the call succeeds after it. *)
Theorem debug_markers_persist (env : QuadEnv.QuadcopterWithYawEnv)
    (m : Markers) (debug_vis : bool) :
  let m' := _set_debug_vis_impl debug_vis m in
  (goal_pos_visualizer m <> None ->
   goal_pos_visualizer m' = Some debug_vis)
  /\ (goal_yaw_visualizer m <> None ->
      goal_yaw_visualizer m' = Some debug_vis)
  /\ (current_yaw_visualizer m <> None ->
      current_yaw_visualizer m' = Some debug_vis)
  /\ (debug_vis = true ->
      m' = mkMarkers (Some true) (Some true) (Some true))
  /\ (debug_vis = false ->
      (goal_pos_visualizer m = None -> goal_pos_visualizer m' = None)
      /\ (goal_yaw_visualizer m = None -> goal_yaw_visualizer m' = None)
      /\ (current_yaw_visualizer m = None ->
          current_yaw_visualizer m' = None))
  /\ ((exists shown, _debug_vis_callback env m = inr shown) ->
      exists shown, _debug_vis_callback env m' = inr shown).
Proof.
  destruct m as [[a|] [b|] [c|]], debug_vis; cbn;
    repeat split; intros; try congruence; try (eexists; reflexivity);
    try (destruct H as [? H]; discriminate).
Qed.

End DebugVisFacts.

(** *** Concrete runs for the further properties *)

Lemma three_samples_increasing :
  Sampler.strictly_increasing
    (Sampler.getTimestamp (map Sampler.sample_at [0; 1; 2])).
Proof.
  unfold Sampler.strictly_increasing. cbn. repeat constructor; lra.
Defined.

Lemma process_group_ignores_interval_sign_witness :
  let minus := Sampler.mkConfig (Some (-2)%Z) in
  let plus := Sampler.mkConfig (Some 2%Z) in
  let db := Sampler.store_of [0; 1; 2] in
  Sampler.get_sample_interval minus = (- Sampler.get_sample_interval plus)%Z
  /\ Sampler.process_group Sampler.no_rotation 0 db minus 50
     = Sampler.process_group Sampler.no_rotation 0 db plus 50.
Proof.
  intros minus plus db.
  assert (H : Sampler.get_sample_interval minus
              = (- Sampler.get_sample_interval plus)%Z) by reflexivity.
  exact (conj H (process_group_ignores_interval_sign Sampler.no_rotation 0
                   db plus minus 50 H)).
Defined.


Lemma interval_one_replays_the_whole_span_witness :
  let db := Sampler.store_of [0; 1; 3] in
  let config := Sampler.mkConfig (Some 1%Z) in
  let run := Sampler.process_group Sampler.no_rotation 0 db config 50 in
  Sampler.getTrajectory db 0 = inr (map Sampler.sample_at [0; 1; 3])
  /\ Sampler.get_sample_interval config = 1%Z
  /\ map Sampler.sample_counter (fst run) = [0; 1; 2]%Z
  /\ QuadEnv.sum_list (map Sampler.delta_time (fst run)) = 3 - 0.
Proof.
  intros db config run.
  assert (Ht : Sampler.getTrajectory db 0
               = inr (map Sampler.sample_at [0; 1; 3])) by reflexivity.
  assert (Hi : Sampler.get_sample_interval config = 1%Z) by reflexivity.
  destruct (interval_one_replays_the_whole_span Sampler.no_rotation 0 db
              config 50 _ Ht Hi) as [_ [Hc Hs]].
  exact (conj Ht (conj Hi (conj Hc Hs))).
Defined.

Lemma delta_time_nonnegative_witness :
  let db := Sampler.store_of [0; 1; 2] in
  let t := map Sampler.sample_at [0; 1; 2] in
  Sampler.getTrajectory db 0 = inr t
  /\ Sampler.strictly_increasing (Sampler.getTimestamp t)
  /\ forall v,
       In v (fst (Sampler.process_group Sampler.no_rotation 0 db
                    (Sampler.mkConfig (Some 2%Z)) 50)) ->
       0 <= Sampler.delta_time v.
Proof.
  intros db t.
  assert (Ht : Sampler.getTrajectory db 0 = inr t) by reflexivity.
  refine (conj Ht (conj three_samples_increasing _)).
  intros v Hin.
  exact (proj1 (delta_time_nonnegative Sampler.no_rotation 0 db
                  (Sampler.mkConfig (Some 2%Z)) 50 t Ht
                  three_samples_increasing v Hin)).
Defined.

Lemma long_interval_visits_first_sample_only_witness :
  let db := Sampler.store_of [0; 1; 2] in
  let t := map Sampler.sample_at [0; 1; 2] in
  let config := Sampler.mkConfig (Some 7%Z) in
  let run := Sampler.process_group Sampler.no_rotation 0 db config 50 in
  Sampler.getTrajectory db 0 = inr t
  /\ t <> []
  /\ (Z.of_nat (length t) <= Sampler.get_sample_interval config)%Z
  /\ snd run = None
  /\ map Sampler.sample_counter (fst run) = [0%Z].
Proof.
  intros db t config run.
  assert (Ht : Sampler.getTrajectory db 0 = inr t) by reflexivity.
  assert (Hne : t <> []) by discriminate.
  assert (Hi : (Z.of_nat (length t) <= Sampler.get_sample_interval config)%Z)
    by (cbn; lia).
  exact (conj Ht (conj Hne (conj Hi
           (long_interval_visits_first_sample_only Sampler.no_rotation 0 db
              config 50 t Ht Hne Hi)))).
Defined.

Lemma main_processes_every_group_witness :
  let db := Sampler.store_of [0; 1; 2] in
  let config := SdgScript.config_with_interval 2 in
  let dir :=
    "/workspace/isaaclab/user_apps/data_apps/output/path_tracking_sdg"%string
  in
  let run := SdgScript.main Sampler.no_rotation db config 50 in
  SdgScript.dict_get config "writer_config"
  = Some (SdgScript.VDict SdgScript.default_writer_config)
  /\ SdgScript.dict_get SdgScript.default_writer_config "output_dir"
     = Some (SdgScript.VStr dir)
  /\ SdgScript.integer_interval config = Some 2%Z
  /\ (2 <> 0)%Z
  /\ snd run = None
  /\ map SdgScript.group (fst run) = [0%Z]
  /\ Forall (fun done =>
              map Sampler.sample_counter (SdgScript.visits done) = [0; 2]%Z)
       (fst run).
Proof.
  intros db config dir run.
  assert (Hi : 2%Z <> 0%Z) by discriminate.
  destruct (main_processes_every_group Sampler.no_rotation db config 50
              SdgScript.default_writer_config dir 2 eq_refl eq_refl eq_refl
              Hi) as [He [Hg Hall]].
  refine (conj eq_refl (conj eq_refl (conj eq_refl (conj Hi
            (conj He (conj Hg _)))))).
  fold run in Hg, Hall.
  destruct (fst run) as [|done [|other more]]; try discriminate Hg.
  injection Hg as Hg.
  inversion Hall as [|? ? [t [Ht [_ [_ [Hm _]]]]] _]; subst.
  rewrite Hg in Ht. injection Ht as <-.
  constructor; [exact Hm | constructor].
Defined.

Lemma main_with_zero_interval_witness :
  let db :=
    [[]; map Sampler.sample_at [0; 1]; map Sampler.sample_at [0]] in
  let config := SdgScript.config_with_interval 0 in
  let dir :=
    "/workspace/isaaclab/user_apps/data_apps/output/path_tracking_sdg"%string
  in
  let run := SdgScript.main Sampler.no_rotation db config 50 in
  SdgScript.dict_get config "writer_config"
  = Some (SdgScript.VDict SdgScript.default_writer_config)
  /\ SdgScript.dict_get SdgScript.default_writer_config "output_dir"
     = Some (SdgScript.VStr dir)
  /\ SdgScript.integer_interval config = Some 0%Z
  /\ map SdgScript.group (fst run) = [0; 1]%Z
  /\ Forall (fun done => SdgScript.visits done = []) (fst run)
  /\ snd run = Some (inr ZeroDivisionError).
Proof.
  intros db config dir run.
  destruct (main_with_zero_interval Sampler.no_rotation db config 50
              SdgScript.default_writer_config dir eq_refl eq_refl eq_refl)
    as [_ [_ [Hg [Hv He]]]].
  exact (conj eq_refl (conj eq_refl (conj eq_refl (conj Hg (conj Hv He))))).
Defined.

Lemma interval_override_keys :
  NoDup (SdgScript.keys [("sample_interval"%string, SdgScript.VInt 5)]).
Proof.
  constructor; [intros [] | constructor].
Defined.

Lemma merge_config_lookup_witness :
  let args_config := [("sample_interval"%string, SdgScript.VInt 5)] in
  let merged :=
    SdgScript.dict_update SdgScript.default_config args_config in
  NoDup (SdgScript.keys args_config)
  /\ SdgScript.merge_config SdgScript.default_config args_config = inr merged
  /\ SdgScript.dict_get merged "sample_interval" = Some (SdgScript.VInt 5)
  /\ SdgScript.dict_get merged "rt_subframes"
     = SdgScript.dict_get SdgScript.default_config "rt_subframes".
Proof.
  intros args_config merged.
  assert (Hm : SdgScript.merge_config SdgScript.default_config args_config
               = inr merged) by reflexivity.
  destruct (merge_config_lookup SdgScript.default_config args_config merged
              interval_override_keys Hm) as [Hfile [Hother _]].
  exact (conj interval_override_keys (conj Hm
           (conj (Hfile "sample_interval"%string _ eq_refl)
                 (Hother "rt_subframes"%string eq_refl)))).
Defined.

Lemma merge_config_is_update_witness :
  let args_config :=
    [("writer_config"%string,
      SdgScript.VDict [("rgb"%string, SdgScript.VBool true)])] in
  let merged :=
    SdgScript.dict_update
      (SdgScript.dict_setitem SdgScript.default_config "writer_config"
         (SdgScript.VDict [])) args_config in
  SdgScript.merge_config SdgScript.default_config args_config = inr merged
  /\ merged = SdgScript.dict_update SdgScript.default_config args_config.
Proof.
  intros args_config merged.
  assert (Hm : SdgScript.merge_config SdgScript.default_config args_config
               = inr merged) by reflexivity.
  exact (conj Hm (merge_config_is_update SdgScript.default_config
                    args_config merged Hm)).
Defined.

Lemma writer_kwargs_per_group_witness :
  let dir :=
    "/workspace/isaaclab/user_apps/data_apps/output/path_tracking_sdg"%string
  in
  SdgScript.dict_get SdgScript.default_config "writer_config"
  = Some (SdgScript.VDict SdgScript.default_writer_config)
  /\ SdgScript.dict_get SdgScript.default_writer_config "output_dir"
     = Some (SdgScript.VStr dir)
  /\ exists kwargs,
       SdgScript.writer_kwargs SdgScript.default_config 3 = inr kwargs
       /\ SdgScript.dict_get kwargs "output_dir"
          = Some (SdgScript.VStr
                    (SdgScript.path_join dir (SdgScript.group_dir 3))).
Proof.
  intros dir.
  assert (Hw : SdgScript.dict_get SdgScript.default_config "writer_config"
               = Some (SdgScript.VDict SdgScript.default_writer_config))
    by reflexivity.
  assert (Ho : SdgScript.dict_get SdgScript.default_writer_config
                 "output_dir" = Some (SdgScript.VStr dir)) by reflexivity.
  destruct (writer_kwargs_per_group SdgScript.default_config
              SdgScript.default_writer_config dir Hw Ho) as [Hall _].
  destruct (Hall 3%Z) as [kwargs [Hk [Hd _]]].
  exact (conj Hw (conj Ho (ex_intro _ kwargs (conj Hk Hd)))).
Defined.

Lemma writer_override_keys :
  NoDup (SdgScript.keys
           [("writer_config"%string,
             SdgScript.VDict [("rgb"%string, SdgScript.VBool true)])]).
Proof.
  constructor; [intros [] | constructor].
Defined.

Lemma file_writer_config_needs_output_dir_witness :
  let file_writer := [("rgb"%string, SdgScript.VBool true)] in
  let args_config :=
    [("writer_config"%string, SdgScript.VDict file_writer)] in
  NoDup (SdgScript.keys args_config)
  /\ SdgScript.dict_get args_config "writer_config"
     = Some (SdgScript.VDict file_writer)
  /\ SdgScript.dict_get file_writer "output_dir" = None
  /\ exists merged,
       SdgScript.merge_config SdgScript.default_config args_config
       = inr merged
       /\ SdgScript.writer_kwargs merged 0
          = inl (SdgScript.ScriptKeyError "output_dir").
Proof.
  intros file_writer args_config.
  destruct (file_writer_config_needs_output_dir args_config file_writer
              writer_override_keys eq_refl eq_refl)
    as [merged [Hm [_ Hfail]]].
  exact (conj writer_override_keys (conj eq_refl (conj eq_refl
           (ex_intro _ merged (conj Hm (Hfail 0%Z)))))).
Defined.

Lemma two_envs_base_well_formed :
  QuadSetup.base_well_formed QuadEnv.two_envs.
Proof.
  constructor; reflexivity.
Defined.

Lemma init_establishes_invariants_witness :
  QuadSetup.base_well_formed QuadEnv.two_envs
  /\ QuadEnv.well_formed (QuadSetup.__init__ QuadEnv.two_envs)
  /\ nth_error
       (QuadEnv._desired_yaw_quat (QuadSetup.__init__ QuadEnv.two_envs)) 1
     = Some (mkQuat 1 0 0 0).
Proof.
  destruct (init_establishes_invariants QuadEnv.two_envs
              two_envs_base_well_formed) as [Hwf [_ Hrows]].
  assert (Hi : (1 < QuadEnv.num_envs QuadEnv.two_envs)%nat) by (cbn; lia).
  destruct (Hrows 1%nat Hi) as [_ [Hq _]].
  exact (conj two_envs_base_well_formed (conj Hwf Hq)).
Defined.

Lemma operations_keep_invariants_witness :
  QuadEnv.well_formed QuadEnv.two_envs
  /\ QuadEnv.well_formed (snd (QuadEnv._get_rewards QuadEnv.two_envs)).
Proof.
  destruct (operations_keep_invariants QuadEnv.two_envs two_envs_well_formed)
    as [_ [[Hwf _] _]].
  exact (conj two_envs_well_formed Hwf).
Defined.

Lemma no_yaw_difference : Rabs (0 - 0) <= 2 * PI.
Proof.
  rewrite Rminus_diag, Rabs_R0. pose proof PI_RGT_0. lra.
Defined.

Lemma angular_diff_of_yaws_witness :
  Rabs (0 - 0) <= 2 * PI
  /\ QuadEnv.angular_diff (QuadSetup.yaw_quat 0) (QuadSetup.yaw_quat 0)
     = Rmin (Rabs (0 - 0)) (2 * PI - Rabs (0 - 0)).
Proof.
  exact (conj no_yaw_difference (angular_diff_of_yaws 0 0 no_yaw_difference)).
Defined.

Lemma identity_quat_nonzero : QuadEnv.norm4 (mkQuat 1 0 0 0) <> 0.
Proof.
  rewrite identity_quat_unit. lra.
Defined.

Lemma reward_bounds_witness :
  QuadEnv.well_formed QuadEnv.two_envs
  /\ (0 < QuadEnv.num_envs QuadEnv.two_envs)%nat
  /\ QuadEnv.norm4 (nth 0 (QuadEnv._desired_yaw_quat QuadEnv.two_envs)
                      quat_zero) <> 0
  /\ QuadEnv.norm4 (nth 0 (QuadEnv.root_quat_w
                             (QuadEnv.robot_data QuadEnv.two_envs))
                      quat_zero) <> 0
  /\ QuadEnv.lin_vel_reward_scale QuadEnv.default_cfg <= 0
  /\ QuadEnv.ang_vel_reward_scale QuadEnv.default_cfg <= 0
  /\ 0 <= QuadEnv.distance_to_goal_reward_scale QuadEnv.default_cfg
  /\ 0 <= QuadEnv.radial_to_goal_yaw_reward_scale QuadEnv.default_cfg
  /\ 0 <= QuadEnv.step_dt QuadEnv.two_envs
  /\ nth 0 (fst (QuadEnv._get_rewards QuadEnv.two_envs)) 0
     <= (30 + 5) * 0.02.
Proof.
  assert (Hi : (0 < QuadEnv.num_envs QuadEnv.two_envs)%nat) by (cbn; lia).
  assert (H1 : QuadEnv.lin_vel_reward_scale QuadEnv.default_cfg <= 0)
    by (cbn; lra).
  assert (H2 : QuadEnv.ang_vel_reward_scale QuadEnv.default_cfg <= 0)
    by (cbn; lra).
  assert (H3 : 0 <= QuadEnv.distance_to_goal_reward_scale QuadEnv.default_cfg)
    by (cbn; lra).
  assert (H4 : 0 <= QuadEnv.radial_to_goal_yaw_reward_scale
                      QuadEnv.default_cfg) by (cbn; lra).
  assert (H5 : 0 <= QuadEnv.step_dt QuadEnv.two_envs) by (cbn; lra).
  destruct (reward_bounds QuadEnv.two_envs 0 two_envs_well_formed Hi
              identity_quat_nonzero identity_quat_nonzero
              H1 H2 H3 H4 H5) as [_ [[_ Hup] _]].
  exact (conj two_envs_well_formed (conj Hi (conj identity_quat_nonzero
           (conj identity_quat_nonzero (conj H1 (conj H2 (conj H3
              (conj H4 (conj H5 Hup))))))))).
Defined.

Lemma two_actuators_weight :
  0 <= QuadSetup.thrust_to_weight QuadSetup.two_actuators
       * QuadSetup._robot_weight QuadSetup.two_actuators.
Proof.
  cbn. unfold QuadEnv.norm3.
  pose proof (sqrt_pos (QuadEnv.sum_square3 (mkVec3 0 0 (-9.81)))). nra.
Defined.

Lemma thrust_from_action_witness :
  let actions := [QuadEnv.mkAction 1 0 0 0; QuadEnv.mkAction (-3) 0 0 0] in
  let act := QuadSetup.two_actuators in
  length actions = length (QuadSetup._thrust act)
  /\ nth_error actions 1 = Some (QuadEnv.mkAction (-3) 0 0 0)
  /\ nth_error (QuadSetup._thrust act) 1 = Some vec3_zero
  /\ 0 <= QuadSetup.thrust_to_weight act * QuadSetup._robot_weight act
  /\ exists t,
       nth_error
         (QuadSetup._thrust
            (snd (QuadSetup._pre_physics_step QuadEnv.two_envs act actions)))
         1 = Some t
       /\ vz t = 0.
Proof.
  intros actions act.
  destruct (thrust_from_action QuadEnv.two_envs act actions 1
              (QuadEnv.mkAction (-3) 0 0 0) vec3_zero eq_refl eq_refl eq_refl
              two_actuators_weight) as [t [Ht [_ [_ [_ [Hlow _]]]]]].
  refine (conj eq_refl (conj eq_refl (conj eq_refl
            (conj two_actuators_weight (ex_intro _ t (conj Ht (Hlow _))))))).
  cbn. lra.
Defined.

Lemma actions_clamped_and_moment_bounded_witness :
  let actions := [QuadEnv.mkAction 1 0 0 0; QuadEnv.mkAction (-3) 7 0.5 0] in
  let act := QuadSetup.two_actuators in
  let step := QuadSetup._pre_physics_step QuadEnv.two_envs act actions in
  length actions = length (QuadSetup._moment act)
  /\ nth_error actions 1 = Some (QuadEnv.mkAction (-3) 7 0.5 0)
  /\ nth_error (QuadSetup._moment act) 1 = Some vec3_zero
  /\ exists stored m,
       nth_error (QuadEnv._actions (fst step)) 1 = Some stored
       /\ nth_error (QuadSetup._moment (snd step)) 1 = Some m
       /\ QuadEnv.a0 stored = -1
       /\ QuadEnv.a1 stored = 1
       /\ QuadEnv.a2 stored = 0.5
       /\ Rabs (vx m) <= Rabs (QuadSetup.moment_scale act).
Proof.
  intros actions act step.
  destruct (actions_clamped_and_moment_bounded QuadEnv.two_envs act actions 1
              (QuadEnv.mkAction (-3) 7 0.5 0) vec3_zero eq_refl eq_refl
              eq_refl)
    as [stored [m [Hs [Hm [Hc [_ [_ [_ [Hx _]]]]]]]]].
  destruct (Hc QuadEnv.a0 (or_introl eq_refl)) as [_ [_ [H0 _]]].
  destruct (Hc QuadEnv.a1 (or_intror (or_introl eq_refl)))
    as [_ [_ [_ H1]]].
  destruct (Hc QuadEnv.a2 (or_intror (or_intror (or_introl eq_refl))))
    as [_ [H2 _]].
  refine (conj eq_refl (conj eq_refl (conj eq_refl
            (ex_intro _ stored (ex_intro _ m
               (conj Hs (conj Hm (conj (H0 _) (conj (H1 _)
                  (conj (H2 _) Hx)))))))))); cbn; lra.
Defined.

Lemma zero_length_envs_well_formed :
  QuadEnv.well_formed QuadEnv.zero_length_envs.
Proof.
  constructor; reflexivity.
Defined.

Lemma full_reset_randomises_step_counters_witness :
  QuadEnv.well_formed QuadEnv.two_envs
  /\ QuadEnv.well_formed QuadEnv.zero_length_envs
  /\ QuadEnv._reset_idx QuadEnv.two_envs (Some [7; 7]%nat) QuadEnv.half_draws
     = QuadEnv._reset_idx QuadEnv.two_envs None QuadEnv.half_draws
  /\ (exists env',
        QuadEnv._reset_idx QuadEnv.two_envs None QuadEnv.half_draws = inr env'
        /\ nth_error (QuadEnv.episode_length_buf env') 1
           = Some (QuadEnv.rand_episode_length QuadEnv.half_draws 1))
  /\ QuadEnv._reset_idx QuadEnv.zero_length_envs None QuadEnv.half_draws
     = inl RuntimeError.
Proof.
  destruct (full_reset_randomises_step_counters QuadEnv.two_envs
              QuadEnv.half_draws two_envs_well_formed) as [Hsame Hrun].
  destruct (full_reset_randomises_step_counters QuadEnv.zero_length_envs
              QuadEnv.half_draws zero_length_envs_well_formed)
    as [_ Hraise].
  refine (conj two_envs_well_formed (conj zero_length_envs_well_formed
            (conj (Hsame [7; 7]%nat eq_refl) (conj _ _)))).
  - destruct (QuadEnv._reset_idx QuadEnv.two_envs None QuadEnv.half_draws)
      as [e|env'].
    + exfalso. destruct Hrun as [_ Hmax]. cbn in Hmax. lia.
    + destruct Hrun as [_ Hrows]. exists env'. split; [reflexivity|].
      apply Hrows. cbn. lia.
  - destruct (QuadEnv._reset_idx QuadEnv.zero_length_envs None
                QuadEnv.half_draws) as [e|env'].
    + destruct Hraise as [-> _]. reflexivity.
    + exfalso. destruct Hraise as [Hmax _]. cbn in Hmax. lia.
Defined.

Lemma partial_reset_restarts_step_counters_witness :
  QuadEnv.well_formed QuadEnv.two_envs
  /\ QuadEnv.valid_env_ids QuadEnv.two_envs [1%nat]
  /\ length [1%nat] <> QuadEnv.num_envs QuadEnv.two_envs
  /\ In 1%nat [1%nat]
  /\ exists env',
       QuadEnv._reset_idx QuadEnv.two_envs (Some [1%nat]) QuadEnv.half_draws
       = inr env'
       /\ nth_error (QuadEnv.episode_length_buf env') 1 = Some 0%Z
       /\ nth_error (snd (QuadEnv._get_dones env')) 1 = Some false.
Proof.
  assert (Hlen : length [1%nat] <> QuadEnv.num_envs QuadEnv.two_envs)
    by (cbn; lia).
  assert (Hin : In 1%nat [1%nat]) by (left; reflexivity).
  destruct (partial_reset_restarts_step_counters QuadEnv.two_envs [1%nat]
              QuadEnv.half_draws 1 two_envs_well_formed env_1_valid Hlen Hin)
    as [env' [Hrun [Hc Hto]]].
  refine (conj two_envs_well_formed (conj env_1_valid (conj Hlen (conj Hin
            (ex_intro _ env' (conj Hrun (conj Hc (Hto _)))))))).
  cbn. lia.
Defined.

Lemma two_envs_duration : QuadEnv.max_episode_length_s QuadEnv.two_envs <> 0.
Proof.
  cbn. lra.
Defined.

Lemma two_envs_quats_nonzero :
  Forall (fun q => QuadEnv.norm4 q <> 0)
    [mkQuat 1 0 0 0; mkQuat 1 0 0 0].
Proof.
  repeat constructor; exact identity_quat_nonzero.
Defined.

Lemma reset_logs_the_sums_before_zeroing_witness :
  QuadEnv.well_formed QuadEnv.two_envs
  /\ QuadEnv.valid_env_ids QuadEnv.two_envs [1%nat]
  /\ QuadEnv.resolve_env_ids QuadEnv.two_envs (Some [1%nat]) <> []
  /\ QuadEnv.max_episode_length_s QuadEnv.two_envs <> 0
  /\ Forall (fun q => QuadEnv.norm4 q <> 0)
       (QuadEnv._desired_yaw_quat QuadEnv.two_envs)
  /\ Forall (fun q => QuadEnv.norm4 q <> 0)
       (QuadEnv.root_quat_w (QuadEnv.robot_data QuadEnv.two_envs))
  /\ exists env',
       QuadEnv._reset_idx QuadEnv.two_envs (Some [1%nat]) QuadEnv.half_draws
       = inr env'
       /\ In (("Episode_Reward/" ++ QuadEnv.Key.name QuadEnv.Key.lin_vel)%string,
              QuadEnv.mean
                (QuadEnv.gather 0
                   (QuadEnv._episode_sums QuadEnv.two_envs QuadEnv.Key.lin_vel)
                   (QuadEnv.resolve_env_ids QuadEnv.two_envs (Some [1%nat])))
              / QuadEnv.max_episode_length_s QuadEnv.two_envs)
            (QuadEnv.extras_log env')
       /\ In ("Metrics/final_yaw_diff"%string,
              QuadEnv.mean
                (QuadEnv.map2 QuadEnv.angular_diff
                   (QuadEnv._desired_yaw_quat QuadEnv.two_envs)
                   (QuadEnv.root_quat_w
                      (QuadEnv.robot_data QuadEnv.two_envs))))
            (QuadEnv.extras_log env').
Proof.
  assert (Hrun : exists env',
            QuadEnv._reset_idx QuadEnv.two_envs (Some [1%nat])
              QuadEnv.half_draws = inr env')
    by (eexists; reflexivity).
  destruct Hrun as [env' Hrun].
  assert (Hne : QuadEnv.resolve_env_ids QuadEnv.two_envs (Some [1%nat]) <> [])
    by discriminate.
  destruct (reset_logs_the_sums_before_zeroing QuadEnv.two_envs env'
              (Some [1%nat]) QuadEnv.half_draws two_envs_well_formed
              env_1_valid Hne two_envs_duration two_envs_quats_nonzero
              two_envs_quats_nonzero Hrun) as [Hsum [Hyaw _]].
  exact (conj two_envs_well_formed (conj env_1_valid (conj Hne
           (conj two_envs_duration (conj two_envs_quats_nonzero
              (conj two_envs_quats_nonzero
                 (ex_intro _ env'
                    (conj Hrun (conj (Hsum QuadEnv.Key.lin_vel) Hyaw))))))))).
Defined.

Lemma first_reward_after_reset_witness :
  QuadEnv.well_formed QuadEnv.two_envs
  /\ QuadEnv.valid_env_ids QuadEnv.two_envs [1%nat]
  /\ QuadEnv.resets QuadEnv.two_envs (Some [1%nat]) 1
  /\ exists env',
       QuadEnv._reset_idx QuadEnv.two_envs (Some [1%nat]) QuadEnv.half_draws
       = inr env'
       /\ let step := QuadEnv._get_rewards env' in
          let sums := QuadEnv._episode_sums (snd step) in
          nth 1 (sums QuadEnv.Key.lin_vel) 0
          + nth 1 (sums QuadEnv.Key.ang_vel) 0
          + nth 1 (sums QuadEnv.Key.distance_to_goal_pose) 0
          + nth 1 (sums QuadEnv.Key.radial_to_goal_yaw) 0
          = nth 1 (fst step) 0.
Proof.
  assert (Hin : QuadEnv.resets QuadEnv.two_envs (Some [1%nat]) 1)
    by (left; reflexivity).
  assert (Hrun : exists env',
            QuadEnv._reset_idx QuadEnv.two_envs (Some [1%nat])
              QuadEnv.half_draws = inr env')
    by (eexists; reflexivity).
  destruct Hrun as [env' Hrun].
  exact (conj two_envs_well_formed (conj env_1_valid (conj Hin
           (ex_intro _ env'
              (conj Hrun
                 (first_reward_after_reset QuadEnv.two_envs env'
                    (Some [1%nat]) QuadEnv.half_draws 1 two_envs_well_formed
                    env_1_valid Hrun Hin)))))).
Defined.
